(** * Streaming ASR pipeline of des256/deli: mel features, encoder cache
      threading and greedy RNN-T decoding

    A shallow embedding of the feature extraction, filterbank, decode loop
    and chunk orchestration found in [verify_streaming.py],
    [debug_decode.py] and [debug_features2.py].

    Modelling conventions.
    - Python [int] is [Z]; [//] on ints is [Z.div] (both round towards
      minus infinity for the divisors that occur).
    - Python/NumPy floating point numbers are modelled by exact rationals
      ([Q]): rounding, infinities and NaN are outside the model.  The
      transcendental functions ([math.log10], [10.0 ** x], [math.cos],
      [math.log]) and the FFT are parameters of the development.
    - An exception is a value [Err e]; straight-line code is written in the
      error monad, loops with an accumulator as [for_each].
    - The ONNX Runtime sessions are black boxes ([Runtime]); tensors they
      exchange are opaque values, so rebinding a variable to a returned
      tensor is value replacement.
    - The chunk loops carry two ghost logs besides the script's variables:
      the encoder invocations and the chunks handed to feature extraction.
    - Printing is left out, except where a printed value can raise: the
      NumPy reductions over the encoder output and the features, and the
      indexing of the first decoder report. *)

From Stdlib Require Import ZArith QArith Qround List Sorted Lia Lqa Bool.
From Stdlib Require Strings.Byte.
Import ListNotations.

Open Scope Z_scope.

(** ** Exceptions and the error monad *)

Inductive py_error : Type :=
| InsufficientAudio (have need : Z)  (* the ValueError("Audio too short: ...") *)
| ZeroDivisionError
| IndexError
| ValueError                         (* math domain error, NumPy shape errors *)
| OutOfFuel.                         (* not a Python exception: a [while] loop of
                                        the model was given too small a bound *)

Inductive result (A : Type) : Type :=
| Ok (a : A)
| Err (e : py_error).
Arguments Ok {A} a.
Arguments Err {A} e.

Definition bind {A B} (r : result A) (k : A -> result B) : result B :=
  match r with
  | Ok a => k a
  | Err e => Err e
  end.

Declare Scope result_scope.
Delimit Scope result_scope with result.
Notation "x <- r ;; k" := (bind r (fun x => k))
  (at level 61, r at next level, right associativity) : result_scope.
Open Scope result_scope.

(** [for x in xs: acc = body x acc], stopping at the first exception. *)
Fixpoint for_each {A S} (xs : list A) (acc : S) (body : A -> S -> result S)
  : result S :=
  match xs with
  | [] => Ok acc
  | x :: xs' => acc' <- body x acc ;; for_each xs' acc' body
  end.

(** [range(lo, hi)] and [range(n)]. *)
Definition py_range2 (lo hi : Z) : list Z :=
  map (fun k => lo + Z.of_nat k) (seq 0 (Z.to_nat (hi - lo))).

Definition py_range (n : Z) : list Z := py_range2 0 n.

(** [xs[i]] for a Python list or a NumPy vector: negative indices count
    from the end, anything else out of range raises IndexError. *)
Definition py_index {A} (xs : list A) (i : Z) : result A :=
  let n := Z.of_nat (length xs) in
  let j := if i <? 0 then i + n else i in
  if (0 <=? j) && (j <? n) then
    match nth_error xs (Z.to_nat j) with
    | Some x => Ok x
    | None => Err IndexError
    end
  else Err IndexError.

(** Float division [a / b] of Python floats (and of ints, which is true
    division): raises on a zero divisor. *)
Definition py_truediv (a b : Q) : result Q :=
  if Qeq_bool b 0 then Err ZeroDivisionError else Ok (a / b)%Q.

Definition Qgtb (a b : Q) : bool := negb (Qle_bool a b).

(** ** Mel filterbank ([verify_streaming.py], lines 37-79) *)

(** The mathematical library the scripts call into.  [log10] is
    [math.log10] on its domain (the domain check is [math_log10] below),
    [pow10 x] is [10.0 ** x]; [ln], [cos] and [pi] are [math.log],
    [math.cos] and [math.pi]; [rfft_power v] is
    [np.abs(np.fft.rfft(v)) ** 2]. *)
Class MathLib : Type := {
  log10 : Q -> Q;
  pow10 : Q -> Q;
  ln : Q -> Q;
  cos : Q -> Q;
  pi : Q;
  rfft_power : list Q -> list Q
}.

Section MelFilterbank.

Context {M : MathLib}.

Definition math_log10 (x : Q) : result Q :=
  if Qle_bool x 0 then Err ValueError else Ok (log10 x).

Definition hz_to_mel (hz : Q) : result Q :=
  l <- math_log10 (1 + hz / 700)%Q ;;
  Ok (2595 * l)%Q.

Definition mel_to_hz (mel : Q) : Q :=
  (700 * (pow10 (mel / 2595) - 1))%Q.

(** [int(math.floor(freq * fft_size / sample_rate + 0.5))] *)
Definition hz_to_bin (freq : Q) (fft_size sample_rate : Z) : result Z :=
  x <- py_truediv (freq * inject_Z fft_size)%Q (inject_Z sample_rate) ;;
  Ok (Qfloor (x + (1 # 2))%Q).

Definition FilterSpec : Type := list (Z * Q).

(** The two inner loops of one band. *)
Definition rising_side (left center : Z) (filt : FilterSpec) : result FilterSpec :=
  if center >? left then
    for_each (py_range2 left center) filt (fun b filt =>
      weight <- py_truediv (inject_Z (b - left)) (inject_Z (center - left)) ;;
      if Qgtb weight 0 then Ok (filt ++ [(b, weight)]) else Ok filt)
  else Ok filt.

Definition falling_side (center right : Z) (filt : FilterSpec) : result FilterSpec :=
  if right >? center then
    for_each (py_range2 center right) filt (fun b filt =>
      weight <- py_truediv (inject_Z (right - b)) (inject_Z (right - center)) ;;
      if Qgtb weight 0 then Ok (filt ++ [(b, weight)]) else Ok filt)
  else Ok filt.

Definition band_filter (left center right : Z) : result FilterSpec :=
  filt <- rising_side left center [] ;;
  falling_side center right filt.

Definition create_mel_filterbank (sample_rate fft_size num_bins : Z)
  : result (list FilterSpec) :=
  let nyquist := (inject_Z sample_rate / 2)%Q in
  mel_low <- hz_to_mel 0 ;;
  mel_high <- hz_to_mel nyquist ;;
  mel_points <- for_each (py_range (num_bins + 2)) [] (fun i mel_points =>
    d <- py_truediv ((mel_high - mel_low) * inject_Z i)%Q (inject_Z (num_bins + 1)) ;;
    let mel_val := (mel_low + d)%Q in
    Ok (mel_points ++ [mel_to_hz mel_val])) ;;
  bin_points <- for_each mel_points [] (fun freq bin_points =>
    k <- hz_to_bin freq fft_size sample_rate ;;
    Ok (bin_points ++ [k])) ;;
  for_each (py_range num_bins) [] (fun i filters =>
    left <- py_index bin_points i ;;
    center <- py_index bin_points (i + 1) ;;
    right <- py_index bin_points (i + 2) ;;
    filt <- band_filter left center right ;;
    Ok (filters ++ [filt])).

(** What a filter contributes at FFT bin [b]: the entries are summed, as in
    [mel_energy += power_spectrum[freq_bin] * weight]. *)
Fixpoint filter_weight (filt : FilterSpec) (b : Z) : Q :=
  match filt with
  | [] => 0
  | (b', w) :: rest => ((if b' =? b then w else 0) + filter_weight rest b)%Q
  end.

Fixpoint bin_total (filters : list FilterSpec) (b : Z) : Q :=
  match filters with
  | [] => 0
  | filt :: rest => (filter_weight filt b + bin_total rest b)%Q
  end.

End MelFilterbank.

(** ** NumPy vectors as lists *)

(** A slice bound, clipped the way Python clips it against a length [n]. *)
Definition clip_bound (n i : Z) : Z :=
  if i <? 0 then Z.max (i + n) 0 else Z.min i n.

(** [xs[start:stop]] *)
Definition py_slice {A} (xs : list A) (start stop : Z) : list A :=
  let n := Z.of_nat (length xs) in
  let a := clip_bound n start in
  let b := clip_bound n stop in
  firstn (Z.to_nat (b - a)) (skipn (Z.to_nat a) xs).

(** [xs[i] = v] *)
Fixpoint set_nth {A} (xs : list A) (k : nat) (v : A) : list A :=
  match xs, k with
  | [], _ => []
  | _ :: xs', O => v :: xs'
  | x :: xs', S k' => x :: set_nth xs' k' v
  end.

Definition py_setitem {A} (xs : list A) (i : Z) (v : A) : result (list A) :=
  let n := Z.of_nat (length xs) in
  let j := if i <? 0 then i + n else i in
  if (0 <=? j) && (j <? n) then Ok (set_nth xs (Z.to_nat j) v)
  else Err IndexError.

(** [np.zeros(n)] for a one-dimensional shape. *)
Definition np_zeros (n : Z) : result (list Q) :=
  if n <? 0 then Err ValueError else Ok (repeat 0%Q (Z.to_nat n)).

(** [a * b] on vectors, with NumPy's broadcasting of a length-one operand. *)
Definition np_mul (a b : list Q) : result (list Q) :=
  if (length a =? length b)%nat then Ok (map (fun p => fst p * snd p)%Q (combine a b))
  else match a, b with
       | [x], _ => Ok (map (fun y => x * y)%Q b)
       | _, [y] => Ok (map (fun x => x * y)%Q a)
       | _, _ => Err ValueError
       end.

(** [dst[:stop] = src] *)
Definition np_assign_prefix (dst : list Q) (stop : Z) (src : list Q)
  : result (list Q) :=
  let n := Z.of_nat (length dst) in
  let m := Z.to_nat (clip_bound n stop) in
  if (length src =? m)%nat then Ok (src ++ skipn m dst)
  else match src with
       | [x] => Ok (repeat x m ++ skipn m dst)
       | _ => Err ValueError
       end.

(** [np.pad(xs, (0, k), mode="constant")] for [k >= 0]. *)
Definition np_pad_right (xs : list Z) (k : Z) : list Z :=
  xs ++ repeat 0 (Z.to_nat k).

(** ** Feature extraction ([verify_streaming.py], lines 21-34 and 97-144) *)

Definition REQUIRED_SAMPLE_RATE : Z := 16000.
Definition WINDOW_SIZE_MS : Z := 25.
Definition HOP_SIZE_MS : Z := 10.
Definition NUM_MEL_BINS : Z := 128.
Definition PRE_EMPHASIS : Q := 97 # 100.
Definition FFT_SIZE : Z := 512.
Definition BLANK_ID : Z := 1024.
Definition MAX_SYMBOLS_PER_STEP : Z := 10.
Definition VOCAB_SIZE : Z := 1025.

Definition window_size_of (sample_rate : Z) : Z := (WINDOW_SIZE_MS * sample_rate) / 1000.
Definition hop_size_of (sample_rate : Z) : Z := (HOP_SIZE_MS * sample_rate) / 1000.

Section FeatureExtractor.

Context {M : MathLib}.

Definition math_log (x : Q) : result Q :=
  if Qle_bool x 0 then Err ValueError else Ok (ln x).

(** Lines 107-110: normalisation to [-1,1] and pre-emphasis. *)
Definition preemphasis (pcm_i16 : list Q) : result (list Q) :=
  signal <- np_zeros (Z.of_nat (length pcm_i16)) ;;
  x0 <- py_index pcm_i16 0 ;;
  signal <- py_setitem signal 0 (x0 / 32768)%Q ;;
  for_each (py_range2 1 (Z.of_nat (length pcm_i16))) signal (fun i signal =>
    x <- py_index pcm_i16 i ;;
    x' <- py_index pcm_i16 (i - 1) ;;
    py_setitem signal i (x / 32768 - PRE_EMPHASIS * x' / 32768)%Q).

(** Lines 112-118: the periodic Hann window. *)
Definition hann_window (window_size : Z) : result (list Q) :=
  for_each (py_range window_size) [] (fun i hann =>
    a <- py_truediv (2 * pi * inject_Z i)%Q (inject_Z window_size) ;;
    Ok (hann ++ [((1 # 2) - (1 # 2) * cos a)%Q])).

(** Lines 139-141: one band's weighted sum over the power spectrum. *)
Definition mel_energy_of (power_spectrum : list Q) (filt : FilterSpec) : result Q :=
  for_each filt 0%Q (fun '(freq_bin, weight) mel_energy =>
    p <- py_index power_spectrum freq_bin ;;
    Ok (mel_energy + p * weight)%Q).

(** Lines 126-142: the body of the frame loop. *)
Definition frame_step (signal hann : list Q) (mel_filters : list FilterSpec)
    (window_size hop_size num_frames : Z) (frame_idx : Z) (features : list Q)
  : result (list Q) :=
  let start := frame_idx * hop_size in
  let end_ := start + window_size in
  windowed <- np_mul (py_slice signal start end_) hann ;;
  padded <- np_zeros FFT_SIZE ;;
  padded <- np_assign_prefix padded window_size windowed ;;
  let power_spectrum := rfft_power padded in
  for_each (combine (py_range (Z.of_nat (length mel_filters))) mel_filters) features
    (fun '(bin_idx, filt) features =>
       mel_energy <- mel_energy_of power_spectrum filt ;;
       v <- math_log (mel_energy + (1 # 10000000000))%Q ;;
       py_setitem features (bin_idx * num_frames + frame_idx) v).

Definition compute_features_rust_style (pcm_i16 : list Q) (sample_rate : Z)
  : result (list Q * Z) :=
  let window_size := window_size_of sample_rate in
  let hop_size := hop_size_of sample_rate in
  let len := Z.of_nat (length pcm_i16) in
  if len <? window_size then Err (InsufficientAudio len window_size) else
  signal <- preemphasis pcm_i16 ;;
  hann <- hann_window window_size ;;
  mel_filters <- create_mel_filterbank sample_rate FFT_SIZE NUM_MEL_BINS ;;
  if hop_size =? 0 then Err ZeroDivisionError else
  let num_frames := (Z.of_nat (length signal) - window_size) / hop_size + 1 in
  features <- np_zeros (NUM_MEL_BINS * num_frames) ;;
  features <- for_each (py_range num_frames) features
                (frame_step signal hann mel_filters window_size hop_size num_frames) ;;
  Ok (features, num_frames).

End FeatureExtractor.

(** ** The inference runtime (ONNX Runtime sessions, treated as black boxes) *)

Record EncOutputs {Tensor Frame : Type} : Type := {
  outputs : list Frame;                 (* encoder_out, one entry per time step *)
  encoded_lengths : Tensor;
  cache_last_channel_next : Tensor;
  cache_last_time_next : Tensor;
  cache_last_channel_next_len : Tensor
}.
Arguments EncOutputs : clear implicits.

Record DecOutputs {Tensor : Type} : Type := {
  logits : list Q;                      (* outputs, flattened *)
  output_states_1 : Tensor;
  output_states_2 : Tensor
}.
Arguments DecOutputs : clear implicits.

(** [enc_sess_run] and [dec_sess_run] are the two sessions of
    [verify_streaming.py]; [sess_enc_run] and [sess_dec_run] those of the
    debug scripts (the encoder there takes two speaker-target inputs, the
    decoder is fed the transposed frame).  [compute_features_normalized] is
    [compute_features] of [debug_features2.py] (lines 29-76), NumPy code
    whose result is only handed to the encoder. *)
Class Runtime : Type := {
  Tensor : Type;
  Frame : Type;
  np_zeros_f32 : list Z -> Tensor;
  np_array_i64 : list Z -> Tensor;
  transpose_021 : Frame -> Frame;
  enc_sess_run : list Q -> Z -> Tensor -> Tensor -> Tensor -> EncOutputs Tensor Frame;
  dec_sess_run : Frame -> Z -> Tensor -> Tensor -> DecOutputs Tensor;
  sess_enc_run : list Q -> Z -> Tensor -> Tensor -> Tensor -> Tensor -> Tensor
                 -> EncOutputs Tensor Frame;
  sess_dec_run : Frame -> Z -> Tensor -> Tensor -> DecOutputs Tensor;
  compute_features_normalized : list Z -> list Q * Z
}.

(** ** Greedy transducer decoding *)

(** [int(np.argmax(v))]: the index of the first maximum; an empty vector
    raises. *)
Fixpoint argmax_from (best_i : Z) (best : Q) (i : Z) (v : list Q) : Z :=
  match v with
  | [] => best_i
  | x :: v' => if Qgtb x best then argmax_from i x (i + 1) v'
               else argmax_from best_i best (i + 1) v'
  end.

Definition np_argmax (v : list Q) : result Z :=
  match v with
  | [] => Err ValueError
  | x :: v' => Ok (argmax_from 0 x 1 v')
  end.

Inductive flow : Type := Next | Break.

Section GreedyDecoder.

Context {R : Runtime}.

Record DecoderState : Type := {
  state1 : Tensor;
  state2 : Tensor;
  last_token : Z
}.

Definition DECODER_STATE_DIM : Z := 640.

(** [verify_streaming.py] lines 256-258, [debug_decode.py] lines 104-106,
    [debug_features2.py] lines 117-119. *)
Definition init_decoder : DecoderState :=
  {| state1 := np_zeros_f32 [2; 1; DECODER_STATE_DIM];
     state2 := np_zeros_f32 [2; 1; DECODER_STATE_DIM];
     last_token := BLANK_ID |}.

(** The decoder-joint call of a script. *)
Definition DecoderCall : Type := Frame -> Z -> Tensor -> Tensor -> DecOutputs Tensor.

Definition verify_streaming_call : DecoderCall := dec_sess_run.
Definition debug_call : DecoderCall :=
  fun frame => sess_dec_run (transpose_021 frame).

Variable run : DecoderCall.

(** One pass through the body of [for sym_step in range(...)]
    ([verify_streaming.py] lines 322-377; the report printed at the
    first call of a chunk is accounted for in [process_chunk]). *)
Definition sym_step (enc_frame : Frame) (st : DecoderState) (tokens : list Z)
  : result (flow * DecoderState * list Z) :=
  let state1_save := state1 st in
  let state2_save := state2 st in
  let dec_outputs := run enc_frame (last_token st) (state1 st) (state2 st) in
  let new_state1 := output_states_1 dec_outputs in
  let new_state2 := output_states_2 dec_outputs in
  let logits_flat := py_slice (logits dec_outputs) 0 VOCAB_SIZE in
  predicted <- np_argmax logits_flat ;;
  if predicted =? BLANK_ID then
    Ok (Break,
        {| state1 := state1_save; state2 := state2_save;
           last_token := last_token st |},
        tokens)
  else
    Ok (Next,
        {| state1 := new_state1; state2 := new_state2;
           last_token := predicted |},
        tokens ++ [predicted]).

(** [for sym_step in range(n): ...] with its [break]. *)
Fixpoint sym_loop (n : nat) (enc_frame : Frame) (st : DecoderState)
    (tokens : list Z) : result (DecoderState * list Z) :=
  match n with
  | O => Ok (st, tokens)
  | S n' =>
      r <- sym_step enc_frame st tokens ;;
      match r with
      | (Break, st', tokens') => Ok (st', tokens')
      | (Next, st', tokens') => sym_loop n' enc_frame st' tokens'
      end
  end.

(** [for frame_idx in range(enc_out_frames): ...] *)
Definition decode_frames (max_sym : Z) (frames : list Frame)
    (st : DecoderState) (tokens : list Z) : result (DecoderState * list Z) :=
  for_each frames (st, tokens) (fun enc_frame acc =>
    sym_loop (Z.to_nat max_sym) enc_frame (fst acc) (snd acc)).

End GreedyDecoder.

Section DebugDecoders.

Context {R : Runtime}.

(** [debug_decode.py] lines 101-129. *)
Definition greedy_decode_full (enc : list Frame) (max_sym : Z) : result (list Z) :=
  r <- decode_frames debug_call max_sym enc init_decoder [] ;;
  Ok (snd r).

(** [debug_features2.py] lines 114-142. *)
Definition greedy_decode (encoded : list Frame) : result (list Z) :=
  r <- decode_frames debug_call 10 encoded init_decoder [] ;;
  Ok (snd r).

End DebugDecoders.

(** ** Orchestration: chunked streaming passes *)

(** [features.reshape(rows, cols)]: the size must match. *)
Definition np_reshape2 (v : list Q) (rows cols : Z) : result (list Q) :=
  if Z.of_nat (length v) =? rows * cols then Ok v else Err ValueError.

Section Orchestrator.

Context {M : MathLib} {R : Runtime}.

Definition NUM_LAYERS : Z := 24.
Definition ENCODER_DIM : Z := 1024.
Definition CACHE_CHANNEL_CONTEXT : Z := 70.
Definition CACHE_TIME_CONTEXT : Z := 8.

(** The three cache tensors that go into or come out of one encoder call. *)
Record Cache : Type := {
  last_channel : Tensor;
  last_time : Tensor;
  valid_length : Tensor
}.

(** One encoder invocation, as logged. *)
Record EncCall : Type := {
  cache_in : Cache;
  cache_out : Cache;
  frames_out : list Frame
}.

(** The variables of [main] that live across chunks.  [emitted] collects
    every [chunk_tokens] in order (the script folds them into
    [decoded_text] and [total_tokens]); [enc_calls] and [fed] are ghost
    logs of the encoder invocations and of the chunks handed to
    [compute_features_rust_style]. *)
Record World : Type := {
  cache_channel : Tensor;
  cache_time : Tensor;
  cache_channel_len : Tensor;
  dec : DecoderState;
  emitted : list Z;
  enc_calls : list EncCall;
  fed : list (list Z)
}.

Definition zero_cache : Cache :=
  {| last_channel := np_zeros_f32 [1; NUM_LAYERS; CACHE_CHANNEL_CONTEXT; ENCODER_DIM];
     last_time := np_zeros_f32 [1; NUM_LAYERS; ENCODER_DIM; CACHE_TIME_CONTEXT];
     valid_length := np_array_i64 [0] |}.

Definition world_cache (w : World) : Cache :=
  {| last_channel := cache_channel w;
     last_time := cache_time w;
     valid_length := cache_channel_len w |}.

(** [verify_streaming.py] lines 248-262 (and 401-412 for the second pass). *)
Definition init_world : World :=
  {| cache_channel := last_channel zero_cache;
     cache_time := last_time zero_cache;
     cache_channel_len := valid_length zero_cache;
     dec := init_decoder;
     emitted := [];
     enc_calls := [];
     fed := [] |}.

(** [a.min()] and the other NumPy reductions of a progress report: they
    raise ValueError on an array without entries.  For the encoder output
    that is an output of zero frames (a frame holds [ENCODER_DIM]
    values). *)
Definition np_reduce {A} (a : list A) : result unit :=
  match a with
  | [] => Err ValueError
  | _ :: _ => Ok tt
  end.

(** The report on the first decoder call of a chunk in the first pass
    (lines 348-364): [top5[0][0]] raises IndexError when that call returns
    no logit.  The report happens at the first step of the first frame,
    before the argmax; it depends on nothing but that call's logits, and is
    placed in front of the decoding loop here. *)
Definition first_call_report (encoder_out : list Frame) (st : DecoderState)
  : result unit :=
  match encoder_out with
  | [] => Ok tt
  | enc_frame :: _ =>
      let dec_outputs :=
        dec_sess_run enc_frame (last_token st) (state1 st) (state2 st) in
      match py_slice (logits dec_outputs) 0 VOCAB_SIZE with
      | [] => Err IndexError
      | _ :: _ => Ok tt
      end
  end.

(** Lines 273-391 (first pass) and 424-521 (second pass): features,
    encoder call, cache replacement, decoding.  [report] tells the passes
    apart: the first pass prints statistics of the encoder output (line
    311) and a report on its first decoder call, the second pass prints
    shapes only.  The first pass also prints statistics of the features
    (lines 277-282). *)
Definition process_chunk (report : bool) (chunk : list Z) (w : World)
  : result World :=
  fn <- compute_features_rust_style (map inject_Z chunk) REQUIRED_SAMPLE_RATE ;;
  let features := fst fn in
  let num_frames := snd fn in
  _ <- (if report then np_reduce features else Ok tt) ;;
  audio_signal <- np_reshape2 features NUM_MEL_BINS num_frames ;;
  let enc_outputs :=
    enc_sess_run audio_signal num_frames
                 (cache_channel w) (cache_time w) (cache_channel_len w) in
  let encoder_out := outputs enc_outputs in
  let cache_channel' := cache_last_channel_next enc_outputs in
  let cache_time' := cache_last_time_next enc_outputs in
  let cache_channel_len' := cache_last_channel_next_len enc_outputs in
  _ <- (if report then np_reduce encoder_out else Ok tt) ;;
  _ <- (if report then first_call_report encoder_out (dec w) else Ok tt) ;;
  r <- decode_frames verify_streaming_call MAX_SYMBOLS_PER_STEP encoder_out (dec w) [] ;;
  let chunk_tokens := snd r in
  Ok {| cache_channel := cache_channel';
        cache_time := cache_time';
        cache_channel_len := cache_channel_len';
        dec := fst r;
        emitted := emitted w ++ chunk_tokens;
        enc_calls := enc_calls w ++
          [{| cache_in := world_cache w;
              cache_out := {| last_channel := cache_channel';
                              last_time := cache_time';
                              valid_length := cache_channel_len' |};
              frames_out := encoder_out |}];
        fed := fed w ++ [chunk] |}.

(** [while offset < len(pcm): ...].  [min_len] is the guard
    [if len(chunk) < 400: break] of the second pass (line 419); the first
    pass has none. *)
Fixpoint chunk_loop (fuel : nat) (report : bool) (min_len : option Z)
    (chunk_samples : Z) (pcm : list Z) (offset : Z) (w : World) : result World :=
  match fuel with
  | O => Err OutOfFuel
  | S fuel' =>
      let len := Z.of_nat (length pcm) in
      if offset <? len then
        let end_ := Z.min (offset + chunk_samples) len in
        let chunk := py_slice pcm offset end_ in
        let len_chunk := Z.of_nat (length chunk) in
        if match min_len with
           | Some m => len_chunk <? m
           | None => false
           end
        then Ok w
        else
          let chunk :=
            if len_chunk <? chunk_samples
            then np_pad_right chunk (chunk_samples - len_chunk)
            else chunk in
          w' <- process_chunk report chunk w ;;
          chunk_loop fuel' report min_len chunk_samples pcm (offset + chunk_samples) w'
      else Ok w
  end.

(** The first pass of [main] (lines 260-391): one-second chunks. *)
Definition stream_1s (pcm : list Z) : result World :=
  chunk_loop (S (length pcm)) true None REQUIRED_SAMPLE_RATE pcm 0 init_world.

(** The second pass (lines 399-521): 2.5 s chunks, short tail skipped. *)
Definition stream_2500ms (pcm : list Z) : result World :=
  chunk_loop (S (length pcm)) false (Some 400) 40000 pcm 0 init_world.

(** *** [debug_features2.py], TEST 2 (lines 186-205) *)

Record DebugWorld : Type := {
  cache_ch : Tensor;
  cache_t : Tensor;
  cache_ch_len : Tensor;
  all_tokens : list Z;
  chunks_seen : list (list Z)          (* ghost: arguments of compute_features *)
}.

Definition init_debug_world : DebugWorld :=
  {| cache_ch := np_zeros_f32 [1; 24; 70; 1024];
     cache_t := np_zeros_f32 [1; 24; 1024; 8];
     cache_ch_len := np_array_i64 [0];
     all_tokens := [];
     chunks_seen := [] |}.

(** [run_encoder] with its default speaker targets (lines 89-111). *)
Definition run_encoder (features : list Q) (num_frames : Z)
    (c_ch c_t c_len : Tensor) : EncOutputs Tensor Frame :=
  let spk := np_zeros_f32 [1; num_frames] in
  let bg := np_zeros_f32 [1; num_frames] in
  sess_enc_run features num_frames c_ch c_t c_len spk bg.

(** [range(0, n, step)] for a positive step. *)
Definition py_range_step (n step : Z) : list Z :=
  map (fun k => Z.of_nat k * step) (seq 0 (Z.to_nat ((n + step - 1) / step))).

(** The loop over chunk offsets, with its [break]; the progress line of
    each chunk (lines 206-209) takes [enc.min()] and [enc.max()]. *)
Fixpoint debug_chunks (offsets : list Z) (audio : list Z) (chunk_size window_size : Z)
    (w : DebugWorld) : result DebugWorld :=
  match offsets with
  | [] => Ok w
  | i :: rest =>
      let chunk := py_slice audio i (i + chunk_size) in
      let len_chunk := Z.of_nat (length chunk) in
      if len_chunk <? window_size then Ok w
      else
        let chunk :=
          if len_chunk <? chunk_size
          then np_pad_right chunk (chunk_size - len_chunk)
          else chunk in
        let fn := compute_features_normalized chunk in
        let o := run_encoder (fst fn) (snd fn) (cache_ch w) (cache_t w) (cache_ch_len w) in
        toks <- greedy_decode (outputs o) ;;
        _ <- np_reduce (outputs o) ;;
        debug_chunks rest audio chunk_size window_size
          {| cache_ch := cache_last_channel_next o;
             cache_t := cache_last_time_next o;
             cache_ch_len := cache_last_channel_next_len o;
             all_tokens := all_tokens w ++ toks;
             chunks_seen := chunks_seen w ++ [chunk] |}
  end.

Definition debug_streaming (audio : list Z) : result DebugWorld :=
  debug_chunks (py_range_step (Z.of_nat (length audio)) 16000) audio 16000 400
               init_debug_world.

End Orchestrator.

(** ** Specification vocabulary *)

Section DecoderVocabulary.

Context {R : Runtime}.
Variable run : DecoderCall.

(** The argmax the decoder-joint call yields in state [st]. *)
Definition prediction (enc_frame : Frame) (st : DecoderState) : result Z :=
  np_argmax (py_slice
               (logits (run enc_frame (last_token st) (state1 st) (state2 st)))
               0 VOCAB_SIZE).

(** The state committed after a non-blank prediction [p] in state [st]. *)
Definition commit (enc_frame : Frame) (st : DecoderState) (p : Z) : DecoderState :=
  let o := run enc_frame (last_token st) (state1 st) (state2 st) in
  {| state1 := output_states_1 o; state2 := output_states_2 o; last_token := p |}.

(** The next [n] decoder-joint calls on this frame all predict a
    non-blank token. *)
Fixpoint all_nonblank (n : nat) (enc_frame : Frame) (st : DecoderState) : Prop :=
  match n with
  | O => True
  | S n' =>
      exists p, prediction enc_frame st = Ok p /\ p <> BLANK_ID /\
                all_nonblank n' enc_frame (commit enc_frame st p)
  end.

(** Emitted ids are non-blank vocabulary entries, and [last_token] is the
    latest of them (the blank id before any emission). *)
Definition decoder_inv (st : DecoderState) (tokens : list Z) : Prop :=
  Forall (fun t => 0 <= t < VOCAB_SIZE - 1 /\ t <> BLANK_ID) tokens /\
  last_token st = last tokens BLANK_ID.

End DecoderVocabulary.

(** ** Vocabulary of the proofs: expected values, invariants, stubs *)

Section Vocabulary.

Context {M : MathLib} {R : Runtime}.

(** Logits whose first maximum sits at index [p]. *)
Definition one_hot (p : Z) : list Q := repeat 0%Q (Z.to_nat p) ++ [1%Q].

(** A runtime over integer "tensors": the encoder yields the given frames
    and bumps every cache entry, the decoder predicts [policy last_token]
    and bumps both states. *)
Definition stub_runtime (frames : list Z) (policy : Z -> Z) : Runtime :=
  {| Tensor := Z;
     Frame := Z;
     np_zeros_f32 := fun _ => 0;
     np_array_i64 := fun _ => 0;
     transpose_021 := fun f => f;
     enc_sess_run := fun _ _ c1 c2 c3 =>
       {| outputs := frames; encoded_lengths := Z.of_nat (length frames);
          cache_last_channel_next := c1 + 1;
          cache_last_time_next := c2 + 1;
          cache_last_channel_next_len := c3 + 1 |};
     dec_sess_run := fun _ last s1 s2 =>
       {| logits := one_hot (policy last);
          output_states_1 := s1 + 1; output_states_2 := s2 + 1 |};
     sess_enc_run := fun _ _ c1 c2 c3 _ _ =>
       {| outputs := frames; encoded_lengths := Z.of_nat (length frames);
          cache_last_channel_next := c1 + 1;
          cache_last_time_next := c2 + 1;
          cache_last_channel_next_len := c3 + 1 |};
     sess_dec_run := fun _ last s1 s2 =>
       {| logits := one_hot (policy last);
          output_states_1 := s1 + 1; output_states_2 := s2 + 1 |};
     compute_features_normalized := fun _ => ([], 0) |}.

(** Decoder policies: the token predicted after a given last token. *)
Definition always_blank : Z -> Z := fun _ => BLANK_ID.

Definition never_blank : Z -> Z := fun _ => 7.

(** Predicts token 5 right after a blank context, blank otherwise. *)
Definition once_after_blank : Z -> Z :=
  fun last => if last =? BLANK_ID then 5 else BLANK_ID.

(** The weights the specification assigns on the two slopes of a band, and
    the entries a band is expected to hold. *)
Definition rising_weight (left center b : Z) : Q :=
  (inject_Z (b - left) / inject_Z (center - left))%Q.

Definition falling_weight (center right b : Z) : Q :=
  (inject_Z (right - b) / inject_Z (right - center))%Q.

Definition rising_entries (left center : Z) : FilterSpec :=
  map (fun b => (b, rising_weight left center b)) (py_range2 (left + 1) center).

Definition falling_entries (center right : Z) : FilterSpec :=
  map (fun b => (b, falling_weight center right b)) (py_range2 center right).

Definition triangle (left center right : Z) : FilterSpec :=
  rising_entries left center ++ falling_entries center right.

(** The contribution of each slope at a bin, as a function of the bin. *)
Definition rise (left center b : Z) : Q :=
  if (left <=? b) && (b <? center) then rising_weight left center b else 0%Q.

Definition fall (center right b : Z) : Q :=
  if (center <=? b) && (b <? right) then falling_weight center right b else 0%Q.

(** The bands cut out of a list of bin boundaries by a sliding window. *)
Fixpoint bands_of (p : list Z) : list FilterSpec :=
  match p with
  | lo :: ((center :: hi :: _) as tl) =>
      triangle lo center hi :: bands_of tl
  | _ => []
  end.

(** The [i]-th mel boundary in Hz, and the bin a frequency is mapped to. *)
Definition mel_point (mel_low mel_high : Q) (num_bins i : Z) : Q :=
  mel_to_hz (mel_low + (mel_high - mel_low) * inject_Z i / inject_Z (num_bins + 1))%Q.

Definition bin_of (freq : Q) (fft_size sample_rate : Z) : Z :=
  Qfloor (freq * inject_Z fft_size / inject_Z sample_rate + (1 # 2))%Q.

Definition bin_points_of (mel_low mel_high : Q) (sample_rate fft_size num_bins : Z)
  : list Z :=
  map (fun i => bin_of (mel_point mel_low mel_high num_bins i) fft_size sample_rate)
      (py_range (num_bins + 2)).

Definition band_at (p : list Z) (k : nat) : FilterSpec :=
  triangle (nth k p 0) (nth (S k) p 0) (nth (S (S k)) p 0).

(** A stand-in mathematical library with a linear "logarithm": enough to run
    the feature code on concrete inputs. *)
Definition linear_math : MathLib :=
  {| log10 := fun x => (x - 1)%Q;
     pow10 := fun y => (y + 1)%Q;
     ln := fun x => x;
     cos := fun _ => 1%Q;
     pi := 3%Q;
     rfft_power := fun v => repeat 0%Q (length v / 2 + 1) |}.

(** What the development assumes of the mathematical library: [10.0 ** x]
    is nondecreasing and inverts [math.log10], the power spectrum of [n]
    samples has [n / 2 + 1] entries, none of them negative. *)
Class MathLibOK (M : MathLib) : Prop := {
  pow10_nondecreasing : forall x y : Q, (x <= y)%Q -> (pow10 x <= pow10 y)%Q;
  pow10_log10 : forall x : Q, (0 < x)%Q -> (pow10 (log10 x) == x)%Q;
  rfft_power_length : forall v, length (rfft_power v) = (length v / 2 + 1)%nat;
  rfft_power_nonneg : forall v, Forall (fun p => (0 <= p)%Q) (rfft_power v)
}.

Definition addressable (filt : FilterSpec) : Prop :=
  forall b w, In (b, w) filt -> 0 <= b < 256 /\ (0 < w)%Q.

(** What is assumed of the decoder sessions where a run has to complete:
    they return at least one logit. *)
Class RuntimeOK (R : Runtime) : Prop := {
  dec_logits_nonempty :
    forall f t s1 s2, logits (dec_sess_run f t s1 s2) <> [];
  sess_dec_logits_nonempty :
    forall f t s1 s2, logits (sess_dec_run f t s1 s2) <> []
}.

(** What is assumed of an encoder session where a run that prints
    statistics of the encoder output has to complete: it returns at least
    one frame.  [EncoderOK] is about the session of [verify_streaming.py],
    [DebugEncoderOK] about that of the debug scripts. *)
Class EncoderOK (R : Runtime) : Prop := {
  enc_frames_nonempty :
    forall a n c1 c2 c3, outputs (enc_sess_run a n c1 c2 c3) <> []
}.

Class DebugEncoderOK (R : Runtime) : Prop := {
  sess_enc_frames_nonempty :
    forall a n c1 c2 c3 spk bg, outputs (sess_enc_run a n c1 c2 c3 spk bg) <> []
}.

(** The chunk an iteration at [offset] hands on: the slice, zero-padded to
    the nominal size. *)
Definition raw_chunk (chunk_samples : Z) (pcm : list Z) (offset : Z) : list Z :=
  py_slice pcm offset (Z.min (offset + chunk_samples) (Z.of_nat (length pcm))).

Definition chunk_at (chunk_samples : Z) (pcm : list Z) (offset : Z) : list Z :=
  let chunk := raw_chunk chunk_samples pcm offset in
  let len_chunk := Z.of_nat (length chunk) in
  if len_chunk <? chunk_samples
  then np_pad_right chunk (chunk_samples - len_chunk)
  else chunk.

Definition guard_hit (min_len : option Z) (len_chunk : Z) : bool :=
  match min_len with
  | Some m => len_chunk <? m
  | None => false
  end.

(** Where the loop can stop: past the end, or at the guard. *)
Definition loop_exit (min_len : option Z) (chunk_samples : Z) (pcm : list Z)
    (offset : Z) : Prop :=
  Z.of_nat (length pcm) <= offset \/
  (offset < Z.of_nat (length pcm) /\
   guard_hit min_len (Z.of_nat (length (raw_chunk chunk_samples pcm offset))) = true).





(** What the claim "no chunk is dropped" asks of a finished pass: the fed
    chunks are the stream followed by zero padding, and each holds at
    least one feature window. *)
Definition stream_fully_fed (pcm : list Z) (w : World) : Prop :=
  (exists pad, concat (fed w) = pcm ++ repeat 0 pad) /\
  Forall (fun c => 400 <= Z.of_nat (length c)) (fed w).

(** After the iteration that ends at [offset]: the fed chunks are the
    stream up to [offset] (zero-padded past its end), all of the nominal
    size; offsets are multiples of the chunk size; and a padded last chunk
    passed the guard. *)
Definition fed_inv (min_len : option Z) (chunk_samples : Z) (pcm : list Z)
    (offset : Z) (w : World) : Prop :=
  concat (fed w) =
    firstn (Z.to_nat offset) pcm ++
    repeat 0 (Z.to_nat (offset - Z.of_nat (length pcm))) /\
  Forall (fun c => Z.of_nat (length c) = chunk_samples) (fed w) /\
  offset mod chunk_samples = 0 /\
  (forall m, min_len = Some m -> Z.of_nat (length pcm) < offset ->
             m <= Z.of_nat (length pcm) - offset + chunk_samples).

(** The decoder sees the frames of all chunks as one sequence. *)
Definition continuous_inv (w : World) : Prop :=
  decode_frames verify_streaming_call MAX_SYMBOLS_PER_STEP
                (concat (map frames_out (enc_calls w))) init_decoder []
  = Ok (dec w, emitted w).

End Vocabulary.

(** ** More of the scripts: audio loading, resampling, the DFT power
       spectrum, the dense filterbank, batch mode, text *)

(** [int(x)] of a float, and [astype(np.int16)] of a float in range:
    truncation towards zero. *)
Definition py_int (x : Q) : Z :=
  if Qle_bool 0 x then Qfloor x else Qceiling x.

(** [np.zeros(n, dtype=np.int16)] *)
Definition np_zeros_int (n : Z) : result (list Z) :=
  if n <? 0 then Err ValueError else Ok (repeat 0 (Z.to_nat n)).

(** *** [load_wav] ([verify_streaming.py], lines 167-194)

    The model starts where the file has been opened and its frames read:
    [raw] is the byte string [readframes] returned.  Opening and reading
    the file is outside the model. *)

(** The value range of [np.int16]. *)
Definition int16 (x : Z) : Prop := -32768 <= x <= 32767.

(** The integer that a group of bytes holds in little-endian two's
    complement, the byte order of WAV data and of the machines the script
    is run on. *)
Definition le_unsigned (bs : list Byte.byte) : Z :=
  fold_right (fun b acc => Z.of_N (Byte.to_N b) + 256 * acc) 0 bs.

Definition le_signed (bs : list Byte.byte) : Z :=
  let u := le_unsigned bs in
  let m := 256 ^ Z.of_nat (length bs) in
  if 2 * u <? m then u else u - m.

(** [xs] cut into [rows] groups of [width] entries. *)
Fixpoint rows_of {A} (width rows : nat) (xs : list A) : list (list A) :=
  match rows with
  | O => []
  | S rows' => firstn width xs :: rows_of width rows' (skipn width xs)
  end.

(** [np.frombuffer(raw, dtype)] for a signed integer type of [width]
    bytes: the buffer must hold whole items. *)
Definition np_frombuffer (width : Z) (raw : list Byte.byte) : result (list Z) :=
  let n := Z.of_nat (length raw) in
  if n mod width =? 0
  then Ok (map le_signed (rows_of (Z.to_nat width) (Z.to_nat (n / width)) raw))
  else Err ValueError.

(** [samples.reshape(-1, channels)]: rows of [channels] entries; the size
    must be a multiple of [channels]. *)
Definition np_reshape_rows (xs : list Z) (channels : Z) : result (list (list Z)) :=
  let n := Z.of_nat (length xs) in
  if channels =? 0 then
    (if n =? 0 then Ok [] else Err ValueError)
  else if n mod channels =? 0
       then Ok (rows_of (Z.to_nat channels) (Z.to_nat (n / channels)) xs)
       else Err ValueError.

Definition sum_Z (xs : list Z) : Z := fold_right Z.add 0 xs.

(** Lines 188-189: [reshape(-1, channels).mean(axis=1).astype(np.int16)].
    The mean of a row of int16 values is their exact sum divided by
    [channels]; the quotient is an integer or at least [1 / channels] away
    from one, so rounding it to a double does not change its
    truncation. *)
Definition downmix (channels : Z) (samples : list Z) : result (list Z) :=
  if channels >? 1 then
    rows <- np_reshape_rows samples channels ;;
    Ok (map (fun row => py_int (inject_Z (sum_Z row) / inject_Z channels)%Q) rows)
  else Ok samples.

Section LoadWav.

(** [(x.astype(np.float32) / max_val * 32767.0).astype(np.int16)] on one
    32-bit sample [x] (lines 180-184): binary32 arithmetic, left
    uninterpreted. *)
Variable scale32 : Z -> Z.

(** Lines 177-186. *)
Definition convert_samples (sample_width : Z) (raw : list Byte.byte)
  : result (list Z) :=
  if sample_width =? 2 then np_frombuffer 2 raw
  else if sample_width =? 4 then
    samples_32 <- np_frombuffer 4 raw ;;
    Ok (map scale32 samples_32)
  else Err ValueError.

Definition load_wav_samples (sample_width channels : Z) (raw : list Byte.byte)
  : result (list Z) :=
  samples <- convert_samples sample_width raw ;;
  downmix channels samples.

End LoadWav.

(** *** Resampling in [main] ([verify_streaming.py], lines 204-219)

    The arithmetic of the loop is written with exact rationals.  That is
    what binary64 computes when the source rate is a whole multiple of
    16 kHz: the ratio, the source positions and the products are then whole
    numbers and the fraction is zero.  This is the case the proofs below
    are about; at other rates rounding can change the output length and
    single samples by one, and the definition does not follow it. *)

Definition resample (pcm : list Z) (sr : Z) : result (list Z) :=
  let len := Z.of_nat (length pcm) in
  ratio <- py_truediv (inject_Z sr) (inject_Z REQUIRED_SAMPLE_RATE) ;;
  q <- py_truediv (inject_Z len) ratio ;;
  let out_len := py_int q in
  new_pcm <- np_zeros_int out_len ;;
  for_each (py_range out_len) new_pcm (fun i new_pcm =>
    let src := (inject_Z i * ratio)%Q in
    let idx := py_int src in
    let frac := (src - inject_Z idx)%Q in
    if idx + 1 <? len then
      a <- py_index pcm idx ;;
      b <- py_index pcm (idx + 1) ;;
      py_setitem new_pcm i (py_int (inject_Z a * (1 - frac) + inject_Z b * frac)%Q)
    else
      x <- py_index pcm idx ;;
      py_setitem new_pcm i x).

(** *** [compute_power_spectrum] ([verify_streaming.py], lines 82-94) *)

Section PowerSpectrum.

Context {M : MathLib}.

(** [math.sin] *)
Variable sin : Q -> Q.

(** The two inner accumulations for bin [k], and their squared modulus. *)
Definition dft_power (windowed : list Q) (n k : Z) : result Q :=
  ri <- for_each (py_range n) (0%Q, 0%Q) (fun t ri =>
          angle <- py_truediv (- (2) * pi * inject_Z k * inject_Z t)%Q (inject_Z n) ;;
          x <- py_index windowed t ;;
          Ok (fst ri + x * cos angle, snd ri + x * sin angle)%Q) ;;
  Ok (fst ri * fst ri + snd ri * snd ri)%Q.

Definition compute_power_spectrum (windowed : list Q) : result (list Q) :=
  let n := Z.of_nat (length windowed) in
  power <- np_zeros (n / 2 + 1) ;;
  for_each (py_range (n / 2 + 1)) power (fun k power =>
    p <- dft_power windowed n k ;;
    py_setitem power k p).

End PowerSpectrum.

(** *** The dense filterbank of the debug scripts
        ([debug_features.py] lines 56-66, [debug_features2.py] lines 48-56,
        [debug_decode.py] lines 41-49) *)

(** [np.zeros((rows, cols))] *)
Definition np_zeros2 (rows cols : Z) : result (list (list Q)) :=
  if (rows <? 0) || (cols <? 0) then Err ValueError
  else Ok (repeat (repeat 0%Q (Z.to_nat cols)) (Z.to_nat rows)).

(** [m[i, b] = v] *)
Definition py_setitem2 (m : list (list Q)) (i b : Z) (v : Q)
  : result (list (list Q)) :=
  row <- py_index m i ;;
  row' <- py_setitem row b v ;;
  py_setitem m i row'.

Definition dense_filterbank (bin_points : list Z) (n_mels n_fft : Z)
  : result (list (list Q)) :=
  mel_filters <- np_zeros2 n_mels (n_fft / 2 + 1) ;;
  for_each (py_range n_mels) mel_filters (fun i mel_filters =>
    left <- py_index bin_points i ;;
    center <- py_index bin_points (i + 1) ;;
    right <- py_index bin_points (i + 2) ;;
    mel_filters <- for_each (py_range2 left center) mel_filters (fun b mel_filters =>
      if center >? left then
        w <- py_truediv (inject_Z (b - left)) (inject_Z (center - left)) ;;
        py_setitem2 mel_filters i b w
      else Ok mel_filters) ;;
    for_each (py_range2 center right) mel_filters (fun b mel_filters =>
      if right >? center then
        w <- py_truediv (inject_Z (right - b)) (inject_Z (right - center)) ;;
        py_setitem2 mel_filters i b w
      else Ok mel_filters)).

(** *** Batch mode and text rendering of [main] *)

Section BatchAndText.

Context {M : MathLib} {R : Runtime}.

(** [verify_streaming.py] lines 530-619: the whole audio as one chunk.
    The statistics of the encoder output are printed (line 572); the
    report on the first decoder call (lines 601-606) indexes nothing and
    cannot fail. *)
Definition batch_mode (pcm : list Z) : result (list Z) :=
  fn <- compute_features_rust_style (map inject_Z pcm) REQUIRED_SAMPLE_RATE ;;
  let features := fst fn in
  let num_frames := snd fn in
  audio_signal <- np_reshape2 features NUM_MEL_BINS num_frames ;;
  let enc_outputs :=
    enc_sess_run audio_signal num_frames
                 (last_channel zero_cache) (last_time zero_cache)
                 (valid_length zero_cache) in
  _ <- np_reduce (outputs enc_outputs) ;;
  r <- decode_frames verify_streaming_call MAX_SYMBOLS_PER_STEP
                     (outputs enc_outputs) init_decoder [] ;;
  Ok (snd r).

(** A string is its list of code points; [LOWER_ONE_EIGHTH_BLOCK] is the
    SentencePiece word marker U+2581. *)
Definition LOWER_ONE_EIGHTH_BLOCK : Z := 9601.
Definition SPACE : Z := 32.

(** [s.replace(old, new)] for one-character [old] and [new]. *)
Definition replace_char (old new : Z) (s : list Z) : list Z :=
  map (fun c => if c =? old then new else c) s.

(** Lines 379-382 (and 510-513, 621-624). *)
Definition render_tokens (tokens : list (list Z)) (chunk_tokens : list Z)
  : result (list Z) :=
  for_each chunk_tokens [] (fun tid chunk_text =>
    if tid <? Z.of_nat (length tokens) then
      piece <- py_index tokens tid ;;
      Ok (chunk_text ++ replace_char LOWER_ONE_EIGHTH_BLOCK SPACE piece)
    else Ok chunk_text).

End BatchAndText.

(** ** Vocabulary for the further properties *)

(** The source position of output sample [i], and the value stored. *)
Definition source_index (sr i : Z) : Z := i * sr / REQUIRED_SAMPLE_RATE.

Definition resampled_value (pcm : list Z) (sr i : Z) : Z :=
  let ratio := (inject_Z sr / inject_Z REQUIRED_SAMPLE_RATE)%Q in
  let src := (inject_Z i * ratio)%Q in
  let idx := py_int src in
  let frac := (src - inject_Z idx)%Q in
  if idx + 1 <? Z.of_nat (length pcm) then
    py_int (inject_Z (nth (Z.to_nat idx) pcm 0%Z) * (1 - frac) +
            inject_Z (nth (Z.to_nat (idx + 1)) pcm 0%Z) * frac)%Q
  else nth (Z.to_nat idx) pcm 0.


(** Row [i] of the dense filterbank, as expected from the boundaries. *)
Definition dense_weight (left center right b : Z) : Q :=
  if (left <=? b) && (b <? center) then rising_weight left center b
  else if (center <=? b) && (b <? right) then falling_weight center right b
  else 0%Q.

Definition dense_row (left center right cols : Z) : list Q :=
  map (dense_weight left center right) (py_range cols).


(** After the iteration that ends at [offset], one chunk has been fed and
    one encoder call made per [chunk_samples] of offset, and the offset is
    less than a chunk past the end. *)
Definition count_inv {M : MathLib} {R : Runtime} (min_len : option Z)
    (chunk_samples : Z) (pcm : list Z) (offset : Z) (w : World) : Prop :=
  fed_inv min_len chunk_samples pcm offset w /\
  offset = chunk_samples * Z.of_nat (length (fed w)) /\
  length (enc_calls w) = length (fed w) /\
  offset < Z.of_nat (length pcm) + chunk_samples.

(** The counterpart of [stream_fully_fed] for the chunk loop of
    [debug_features2.py]. *)
Definition debug_fully_fed {R : Runtime} (audio : list Z) (w : DebugWorld) : Prop :=
  (exists pad, concat (chunks_seen w) = audio ++ repeat 0 pad) /\
  Forall (fun c => 400 <= Z.of_nat (length c)) (chunks_seen w).

(** After [a] iterations of that loop: the chunks seen are the audio up to
    offset [a * cs] (zero-padded past its end), [a] chunks of the nominal
    size, and a padded last chunk passed the guard. *)
Definition debug_inv {R : Runtime} (ws cs : Z) (audio : list Z) (a : Z)
    (w : DebugWorld) : Prop :=
  concat (chunks_seen w) =
    firstn (Z.to_nat (a * cs)) audio ++
    repeat 0 (Z.to_nat (a * cs - Z.of_nat (length audio))) /\
  Forall (fun c => Z.of_nat (length c) = cs) (chunks_seen w) /\
  Z.of_nat (length (chunks_seen w)) = a /\
  (Z.of_nat (length audio) < a * cs ->
   ws <= Z.of_nat (length audio) - a * cs + cs).

(** Where that loop can stop: past the end, or at the guard. *)
Definition debug_exit (ws cs : Z) (audio : list Z) (a : Z) : Prop :=
  Z.of_nat (length audio) <= a * cs \/
  (a * cs < Z.of_nat (length audio) /\ Z.of_nat (length audio) - a * cs < ws).

(** Sample [i] of the pre-emphasised signal. *)
Definition emphasized (pcm : list Q) (i : Z) : Q :=
  if i =? 0 then (nth 0 pcm 0 / 32768)%Q
  else (nth (Z.to_nat i) pcm 0 / 32768 -
        PRE_EMPHASIS * nth (Z.to_nat (i - 1)) pcm 0 / 32768)%Q.

(** The text one token id contributes. *)
Definition piece_text (tokens : list (list Z)) (tid : Z) : list Z :=
  let n := Z.of_nat (length tokens) in
  if tid <? n then
    replace_char LOWER_ONE_EIGHTH_BLOCK SPACE
      (nth (Z.to_nat (if tid <? 0 then tid + n else tid)) tokens [])
  else [].

(** * Proofs *)

(** ** Generic facts about the error monad and loops *)

Lemma bind_Ok {A B} (r : result A) (k : A -> result B) (b : B) :
  bind r k = Ok b -> exists a, r = Ok a /\ k a = Ok b.
Proof. destruct r as [a|e]; simpl; intros H; [eauto | discriminate]. Qed.

Lemma for_each_app {A S} (xs ys : list A) (acc : S) body :
  for_each (xs ++ ys) acc body =
  bind (for_each xs acc body) (fun acc' => for_each ys acc' body).
Proof.
  revert acc; induction xs as [|x xs IH]; intros acc; simpl; [reflexivity|].
  destruct (body x acc) as [acc'|e]; simpl; [apply IH | reflexivity].
Qed.

(** A loop whose body keeps an invariant and never raises, runs to the end. *)
Lemma for_each_total {A S} (I : S -> Prop) (xs : list A) body :
  (forall x acc, In x xs -> I acc -> exists acc', body x acc = Ok acc' /\ I acc') ->
  forall acc, I acc -> exists acc', for_each xs acc body = Ok acc' /\ I acc'.
Proof.
  induction xs as [|x xs IH]; intros Hbody acc Hacc; simpl.
  - eauto.
  - destruct (Hbody x acc (or_introl eq_refl) Hacc) as (acc1 & E & H1).
    rewrite E; simpl. apply IH; [|exact H1].
    intros y a Hy; apply Hbody; right; exact Hy.
Qed.

(** Partial-correctness counterpart. *)
Lemma for_each_inv {A S} (I : S -> Prop) (xs : list A) body :
  (forall x acc acc', In x xs -> I acc -> body x acc = Ok acc' -> I acc') ->
  forall acc acc', I acc -> for_each xs acc body = Ok acc' -> I acc'.
Proof.
  induction xs as [|x xs IH]; intros Hbody acc acc' Hacc; simpl.
  - intros [= <-]; exact Hacc.
  - intros H. apply bind_Ok in H as (a & E & H).
    eapply IH; [| |exact H].
    + intros y b b' Hy; apply Hbody; right; exact Hy.
    + eapply Hbody; [left; reflexivity|exact Hacc|exact E].
Qed.

(** ** The greedy decode loop *)

Section DecoderProofs.

Context {R : Runtime}.
Variable run : DecoderCall.

Lemma sym_step_blank enc_frame st tokens :
  prediction run enc_frame st = Ok BLANK_ID ->
  sym_step run enc_frame st tokens = Ok (Break, st, tokens).
Proof.
  unfold prediction, sym_step; intros ->; simpl.
  destruct st; reflexivity.
Qed.

Lemma sym_step_nonblank enc_frame st tokens p :
  prediction run enc_frame st = Ok p -> p <> BLANK_ID ->
  sym_step run enc_frame st tokens =
    Ok (Next, commit run enc_frame st p, tokens ++ [p]).
Proof.
  unfold prediction, sym_step, commit; intros -> Hp; simpl.
  destruct (Z.eqb_spec p BLANK_ID); [contradiction | reflexivity].
Qed.

(** Every outcome of the loop body is one of the two above. *)
Lemma sym_step_cases enc_frame st tokens r :
  sym_step run enc_frame st tokens = Ok r ->
  (prediction run enc_frame st = Ok BLANK_ID /\ r = (Break, st, tokens)) \/
  (exists p, prediction run enc_frame st = Ok p /\ p <> BLANK_ID /\
             r = (Next, commit run enc_frame st p, tokens ++ [p])).
Proof.
  intros H.
  destruct (prediction run enc_frame st) as [p|e] eqn:E.
  - destruct (Z.eq_dec p BLANK_ID) as [->|Hp].
    + left. rewrite sym_step_blank in H by exact E. now inversion H.
    + right. exists p. rewrite (sym_step_nonblank _ _ _ _ E Hp) in H.
      now inversion H.
  - unfold prediction in E. unfold sym_step in H. rewrite E in H. discriminate.
Qed.

Lemma argmax_from_range v : forall best_i best i,
  0 <= best_i < i ->
  0 <= argmax_from best_i best i v < i + Z.of_nat (length v).
Proof.
  induction v as [|x v IH]; intros best_i best i H; cbn [argmax_from length].
  - lia.
  - destruct (Qgtb x best).
    + specialize (IH i x (i + 1)). lia.
    + specialize (IH best_i best (i + 1)). lia.
Qed.

Lemma np_argmax_range v p :
  np_argmax v = Ok p -> 0 <= p < Z.of_nat (length v).
Proof.
  destruct v as [|x v]; cbn [np_argmax length]; [discriminate|].
  intros [= <-]. pose proof (argmax_from_range v 0 x 1). lia.
Qed.

Lemma py_slice_length_le {A} (xs : list A) a b :
  0 <= a -> 0 <= b -> Z.of_nat (length (py_slice xs a b)) <= Z.max 0 (b - a).
Proof.
  intros Ha Hb. unfold py_slice, clip_bound.
  rewrite length_firstn.
  destruct (Z.ltb_spec a 0); [lia|].
  destruct (Z.ltb_spec b 0); lia.
Qed.

Lemma prediction_range enc_frame st p :
  prediction run enc_frame st = Ok p -> 0 <= p < VOCAB_SIZE.
Proof.
  unfold prediction; intros H. apply np_argmax_range in H.
  pose proof (py_slice_length_le
                (logits (run enc_frame (last_token st) (state1 st) (state2 st)))
                0 VOCAB_SIZE).
  unfold VOCAB_SIZE in *. lia.
Qed.

Lemma sym_loop_emits n : forall enc_frame st tokens st' tokens',
  sym_loop run n enc_frame st tokens = Ok (st', tokens') ->
  exists new, tokens' = tokens ++ new /\ (length new <= n)%nat.
Proof.
  induction n as [|n IH]; intros enc_frame st tokens st' tokens'; simpl.
  - intros [= <- <-]. exists []. rewrite app_nil_r. auto.
  - intros H. apply bind_Ok in H as (r & E & H).
    apply sym_step_cases in E as [(_ & ->)|(p & _ & _ & ->)].
    + inversion H; subst. exists []. rewrite app_nil_r. split; [reflexivity|simpl; lia].
    + apply IH in H as (new & -> & Hlen).
      exists (p :: new). rewrite <- app_assoc. split; [reflexivity|simpl; lia].
Qed.

Lemma sym_loop_exhausts n : forall enc_frame st tokens,
  all_nonblank run n enc_frame st ->
  exists st' new, sym_loop run n enc_frame st tokens = Ok (st', tokens ++ new) /\
                  length new = n /\ Forall (fun t => t <> BLANK_ID) new.
Proof.
  induction n as [|n IH]; intros enc_frame st tokens; simpl.
  - intros _. exists st, []. rewrite app_nil_r. auto.
  - intros (p & E & Hp & Hrest).
    rewrite (sym_step_nonblank _ _ _ _ E Hp); simpl.
    destruct (IH enc_frame _ (tokens ++ [p]) Hrest) as (st' & new & -> & Hlen & Hall).
    exists st', (p :: new). rewrite <- app_assoc. simpl. auto.
Qed.

Lemma sym_loop_inv n : forall enc_frame st tokens st' tokens',
  decoder_inv st tokens ->
  sym_loop run n enc_frame st tokens = Ok (st', tokens') ->
  decoder_inv st' tokens'.
Proof.
  induction n as [|n IH]; intros enc_frame st tokens st' tokens' Hinv; simpl.
  - intros [= <- <-]; exact Hinv.
  - intros H. apply bind_Ok in H as (r & E & H).
    apply sym_step_cases in E as [(_ & ->)|(p & E & Hp & ->)].
    + inversion H; subst; exact Hinv.
    + eapply IH; [|exact H].
      destruct Hinv as (Hall & _). split.
      * apply Forall_app; split; [exact Hall|].
        constructor; [|constructor].
        apply prediction_range in E. unfold VOCAB_SIZE, BLANK_ID in *. lia.
      * simpl. now rewrite last_last.
Qed.

Lemma decode_frames_inv max_sym frames : forall st tokens st' tokens',
  decoder_inv st tokens ->
  decode_frames run max_sym frames st tokens = Ok (st', tokens') ->
  decoder_inv st' tokens'.
Proof.
  intros st tokens st' tokens' Hinv H. unfold decode_frames in H.
  apply (for_each_inv (fun acc => decoder_inv (fst acc) (snd acc))
           frames _) with (acc := (st, tokens)) (acc' := (st', tokens')) in H;
    [exact H| |exact Hinv].
  intros f [s t] [s' t'] _ Hi E; simpl in *.
  eapply sym_loop_inv; eauto.
Qed.

(** Tokens are only ever appended: the accumulator is a prefix of the
    result, and the new part does not depend on it. *)
Lemma sym_loop_prefix n : forall enc_frame st tokens,
  sym_loop run n enc_frame st tokens =
  bind (sym_loop run n enc_frame st [])
       (fun r => Ok (fst r, tokens ++ snd r)).
Proof.
  induction n as [|n IH]; intros enc_frame st tokens; simpl.
  - now rewrite app_nil_r.
  - destruct (prediction run enc_frame st) as [p|e] eqn:E.
    + destruct (Z.eq_dec p BLANK_ID) as [->|Hp].
      * rewrite !sym_step_blank by exact E. simpl. now rewrite app_nil_r.
      * rewrite !(sym_step_nonblank _ _ _ _ E Hp). simpl.
        rewrite (IH _ _ (tokens ++ [p])), (IH _ _ [p]).
        destruct (sym_loop run n enc_frame _ []) as [[s t]|e]; simpl; [|reflexivity].
        now rewrite <- app_assoc.
    + unfold prediction in E. unfold sym_step. rewrite E. reflexivity.
Qed.

Lemma decode_frames_prefix max_sym frames : forall st tokens,
  decode_frames run max_sym frames st tokens =
  bind (decode_frames run max_sym frames st [])
       (fun r => Ok (fst r, tokens ++ snd r)).
Proof.
  unfold decode_frames.
  induction frames as [|f frames IH]; intros st tokens; simpl.
  - now rewrite app_nil_r.
  - rewrite (sym_loop_prefix _ _ _ tokens).
    destruct (sym_loop run (Z.to_nat max_sym) f st []) as [[s t]|e]; simpl; [|reflexivity].
    rewrite (IH s (tokens ++ t)), (IH s t).
    destruct (for_each frames (s, []) _) as [[s' t']|e]; simpl; [|reflexivity].
    now rewrite app_assoc.
Qed.

(** Decoding a concatenation of frame sequences is decoding them one after
    the other with the state carried over. *)
Lemma decode_frames_app max_sym frames1 frames2 st tokens :
  decode_frames run max_sym (frames1 ++ frames2) st tokens =
  bind (decode_frames run max_sym frames1 st tokens)
       (fun r => decode_frames run max_sym frames2 (fst r) (snd r)).
Proof.
  unfold decode_frames. rewrite for_each_app.
  destruct (for_each frames1 (st, tokens) _) as [[s t]|e]; reflexivity.
Qed.

End DecoderProofs.

(** ** Claims about the decode loop *)

(** C2. Blank rollback: when the argmax of a decoder-joint call is
    [BLANK_ID], the loop body leaves the decoder state exactly as it was
    before the call ([state1], [state2] restored from the snapshot, the
    returned states dropped, [last_token] and the token list untouched) and
    the loop over symbols ends for this frame, whatever bound remains. *)
Theorem blank_restores_snapshot {R : Runtime} (run : DecoderCall)
    (enc_frame : Frame) (st : DecoderState) (tokens : list Z) (n : nat) :
  prediction run enc_frame st = Ok BLANK_ID ->
  sym_step run enc_frame st tokens = Ok (Break, st, tokens) /\
  sym_loop run (S n) enc_frame st tokens = Ok (st, tokens).
Proof.
  intros E. split.
  - now apply sym_step_blank.
  - cbn [sym_loop]. rewrite sym_step_blank by exact E. reflexivity.
Qed.

Lemma blank_restores_snapshot_witness :
  let R := stub_runtime [0] always_blank in
  let st := {| state1 := 3; state2 := 4; last_token := 9 |} in
  sym_step verify_streaming_call 0 st [9] = Ok (Break, st, [9]) /\
  sym_loop verify_streaming_call 10 0 st [9] = Ok (st, [9]).
Proof.
  intros R st.
  apply (@blank_restores_snapshot R verify_streaming_call 0 st [9] 9%nat).
  vm_compute. reflexivity.
Defined.

Lemma decode_frames_emits {R : Runtime} (run : DecoderCall) max_sym frames :
  forall st tokens st' tokens',
    decode_frames run max_sym frames st tokens = Ok (st', tokens') ->
    exists new, tokens' = tokens ++ new /\
                (length new <= Z.to_nat max_sym * length frames)%nat.
Proof.
  unfold decode_frames.
  induction frames as [|f frames IH]; intros st tokens st' tokens'; simpl.
  - intros [= <- <-]. exists []. rewrite app_nil_r. split; [reflexivity|simpl; lia].
  - intros H. apply bind_Ok in H as ([s t] & E & H). simpl in E.
    apply sym_loop_emits in E as (new1 & -> & H1).
    apply IH in H as (new2 & -> & H2).
    exists (new1 ++ new2). rewrite app_assoc, length_app. split; [reflexivity|lia].
Qed.

(** C3. Bounded emission: with bound [k], one encoded frame adds at most
    [k] tokens; if the [k] decoder-joint calls made for the frame all
    predict a non-blank id, the loop returns normally after exactly [k]
    emissions; a whole [greedy_decode_full] run over [T] frames therefore
    emits at most [k * T] tokens. *)
Theorem emission_is_bounded {R : Runtime} (run : DecoderCall) (k : nat)
    (enc_frame : Frame) (st : DecoderState) (tokens : list Z) :
  (forall st' tokens',
      sym_loop run k enc_frame st tokens = Ok (st', tokens') ->
      exists new, tokens' = tokens ++ new /\ (length new <= k)%nat) /\
  (all_nonblank run k enc_frame st ->
   exists st' new,
     sym_loop run k enc_frame st tokens = Ok (st', tokens ++ new) /\
     length new = k) /\
  (forall enc max_sym toks,
      greedy_decode_full enc max_sym = Ok toks ->
      (length toks <= Z.to_nat max_sym * length enc)%nat).
Proof.
  split; [|split].
  - intros st' tokens'. apply sym_loop_emits.
  - intros H. destruct (sym_loop_exhausts run k enc_frame st tokens H)
      as (st' & new & E & Hlen & _). eauto.
  - intros enc max_sym toks H. unfold greedy_decode_full in H.
    apply bind_Ok in H as ([s t] & E & [= <-]).
    apply decode_frames_emits in E as (new & -> & Hlen). exact Hlen.
Qed.

Lemma emission_is_bounded_witness :
  let R := stub_runtime [0] never_blank in
  exists st' new,
    sym_loop debug_call 3 0 init_decoder [] = Ok (st', [] ++ new) /\
    length new = 3%nat.
Proof.
  intros R.
  apply (proj1 (proj2 (@emission_is_bounded R debug_call 3 0 init_decoder []))).
  cbn [all_nonblank].
  exists 7. split; [vm_compute; reflexivity|]. split; [discriminate|].
  exists 7. split; [vm_compute; reflexivity|]. split; [discriminate|].
  exists 7. split; [vm_compute; reflexivity|]. split; [discriminate|].
  exact I.
Defined.

(** C10. Every id the greedy decoder appends lies in
    [0, VOCAB_SIZE - 1) and is not the blank id, and [last_token] is the
    blank id as long as nothing was emitted and the latest emitted id
    afterwards: this holds initially, is kept by every pass through the
    loop body, and so holds after decoding any frames on top of what the
    stream emitted before. *)
Theorem emitted_tokens_are_vocabulary {R : Runtime} (run : DecoderCall) :
  decoder_inv init_decoder [] /\
  (forall enc_frame st tokens fl st' tokens',
      decoder_inv st tokens ->
      sym_step run enc_frame st tokens = Ok (fl, st', tokens') ->
      decoder_inv st' tokens') /\
  (forall max_sym frames st before st' new,
      decoder_inv st before ->
      decode_frames run max_sym frames st [] = Ok (st', new) ->
      decoder_inv st' (before ++ new)).
Proof.
  split; [|split].
  - split; [constructor | reflexivity].
  - intros enc_frame st tokens fl st' tokens' Hinv H.
    apply (sym_loop_inv run 1 enc_frame st tokens st' tokens' Hinv).
    cbn [sym_loop]. rewrite H. destruct fl; reflexivity.
  - intros max_sym frames st before st' new Hinv H.
    apply (decode_frames_inv run max_sym frames st before); [exact Hinv|].
    rewrite decode_frames_prefix, H. reflexivity.
Qed.

Lemma emitted_tokens_are_vocabulary_witness :
  let R := stub_runtime [0] once_after_blank in
  decoder_inv {| state1 := 1; state2 := 1; last_token := 5 |} ([] ++ [5]).
Proof.
  intros R.
  refine (proj2 (proj2 (@emitted_tokens_are_vocabulary R verify_streaming_call))
            MAX_SYMBOLS_PER_STEP [0; 0] init_decoder [] _ [5] _ _).
  - split; [constructor | reflexivity].
  - vm_compute. reflexivity.
Defined.

(** ** The triangular filters *)

Lemma py_range2_nil lo hi : hi <= lo -> py_range2 lo hi = [].
Proof.
  intros H. unfold py_range2. replace (Z.to_nat (hi - lo)) with O by lia. reflexivity.
Qed.

Lemma py_range2_cons lo hi : lo < hi -> py_range2 lo hi = lo :: py_range2 (lo + 1) hi.
Proof.
  intros H. unfold py_range2.
  replace (Z.to_nat (hi - lo)) with (S (Z.to_nat (hi - (lo + 1)))) by lia.
  cbn [seq map]. f_equal; [lia|].
  rewrite <- seq_shift, map_map. apply map_ext. intros k. lia.
Qed.

Lemma in_py_range2 lo hi b : In b (py_range2 lo hi) <-> lo <= b < hi.
Proof.
  unfold py_range2. rewrite in_map_iff. split.
  - intros (k & <- & Hk). apply in_seq in Hk. lia.
  - intros H. exists (Z.to_nat (b - lo)). split; [lia|]. apply in_seq. lia.
Qed.

Lemma py_range2_length lo hi : length (py_range2 lo hi) = Z.to_nat (hi - lo).
Proof. unfold py_range2. now rewrite length_map, length_seq. Qed.

(** Induction over a range, from its lower end. *)
Lemma py_range2_ind (P : Z -> Z -> Prop) :
  (forall lo hi, hi <= lo -> P lo hi) ->
  (forall lo hi, lo < hi -> P (lo + 1) hi -> P lo hi) ->
  forall lo hi, P lo hi.
Proof.
  intros Hnil Hcons lo hi.
  remember (Z.to_nat (hi - lo)) as n eqn:En. revert lo En.
  induction n as [|n IH]; intros lo En.
  - apply Hnil. lia.
  - apply Hcons; [lia|]. apply IH. lia.
Qed.

Lemma py_truediv_ok (a : Q) (d : Z) :
  d <> 0 -> py_truediv a (inject_Z d) = Ok (a / inject_Z d)%Q.
Proof.
  intros Hd. unfold py_truediv.
  destruct (Qeq_bool (inject_Z d) 0) eqn:E; [|reflexivity].
  apply Qeq_bool_eq in E.
  apply (proj1 (inject_Z_injective d 0)) in E. contradiction.
Qed.

Lemma py_truediv_zero (a : Q) : py_truediv a (inject_Z 0) = Err ZeroDivisionError.
Proof. reflexivity. Qed.

Lemma Zdiv_Q_pos (x d : Z) : 0 < x -> 0 < d -> (0 < inject_Z x / inject_Z d)%Q.
Proof.
  intros Hx Hd. apply Qlt_shift_div_l.
  - change 0%Q with (inject_Z 0). rewrite <- Zlt_Qlt. exact Hd.
  - rewrite Qmult_0_l. change 0%Q with (inject_Z 0). rewrite <- Zlt_Qlt. exact Hx.
Qed.

Lemma Zdiv_Q_le_1 (x d : Z) : x <= d -> 0 < d -> (inject_Z x / inject_Z d <= 1)%Q.
Proof.
  intros Hx Hd. apply Qle_shift_div_r.
  - change 0%Q with (inject_Z 0). rewrite <- Zlt_Qlt. exact Hd.
  - rewrite Qmult_1_l. rewrite <- Zle_Qle. exact Hx.
Qed.

Lemma Qgtb_pos (w : Q) : (0 < w)%Q -> Qgtb w 0 = true.
Proof.
  intros H. unfold Qgtb. destruct (Qle_bool w 0) eqn:E; [|reflexivity].
  apply Qle_bool_imp_le in E. lra.
Qed.

(** A slope loop over bins whose numerators are positive keeps every bin. *)
Lemma slope_loop (num : Z -> Z) (d : Z) (bs : list Z) :
  0 < d -> (forall b, In b bs -> 0 < num b) ->
  forall filt : FilterSpec,
  for_each bs filt (fun b filt =>
    weight <- py_truediv (inject_Z (num b)) (inject_Z d) ;;
    if Qgtb weight 0 then Ok (filt ++ [(b, weight)]) else Ok filt) =
  Ok (filt ++ map (fun b => (b, (inject_Z (num b) / inject_Z d)%Q)) bs).
Proof.
  intros Hd. induction bs as [|b bs IH]; intros Hnum filt; cbn [for_each map].
  - now rewrite app_nil_r.
  - rewrite py_truediv_ok by lia. cbn [bind].
    rewrite Qgtb_pos by (apply Zdiv_Q_pos; [apply Hnum; left; reflexivity | exact Hd]).
    cbn [bind].
    rewrite IH by (intros b' Hb'; apply Hnum; right; exact Hb').
    now rewrite <- app_assoc.
Qed.

Lemma rising_side_spec left center (filt : FilterSpec) :
  rising_side left center filt = Ok (filt ++ rising_entries left center).
Proof.
  unfold rising_side, rising_entries.
  destruct (Z.gtb_spec center left) as [H|H].
  - rewrite py_range2_cons by lia. cbn [for_each].
    rewrite py_truediv_ok by lia. cbn [bind].
    replace (left - left) with 0 by lia.
    replace (Qgtb (inject_Z 0 / inject_Z (center - left)) 0) with false by reflexivity.
    apply (slope_loop (fun b => b - left) (center - left)); [lia|].
    intros b Hb. apply in_py_range2 in Hb. lia.
  - rewrite py_range2_nil by lia. now rewrite app_nil_r.
Qed.

Lemma falling_side_spec center right (filt : FilterSpec) :
  falling_side center right filt = Ok (filt ++ falling_entries center right).
Proof.
  unfold falling_side, falling_entries.
  destruct (Z.gtb_spec right center) as [H|H].
  - apply (slope_loop (fun b => right - b) (right - center)); [lia|].
    intros b Hb. apply in_py_range2 in Hb. lia.
  - rewrite py_range2_nil by lia. now rewrite app_nil_r.
Qed.

Lemma band_filter_spec left center right :
  band_filter left center right = Ok (triangle left center right).
Proof.
  unfold band_filter. rewrite rising_side_spec. cbn [bind app].
  rewrite falling_side_spec. reflexivity.
Qed.

Lemma filter_weight_app (f g : FilterSpec) b :
  (filter_weight (f ++ g) b == filter_weight f b + filter_weight g b)%Q.
Proof.
  induction f as [|[b' w] f IH]; cbn [app filter_weight].
  - lra.
  - rewrite IH. lra.
Qed.

Lemma filter_weight_entries (w : Z -> Q) lo hi b :
  (filter_weight (map (fun x => (x, w x)) (py_range2 lo hi)) b ==
   if (lo <=? b) && (b <? hi) then w b else 0)%Q.
Proof.
  revert lo hi. apply (py_range2_ind (fun lo hi =>
    (filter_weight (map (fun x => (x, w x)) (py_range2 lo hi)) b ==
     if (lo <=? b) && (b <? hi) then w b else 0)%Q)).
  - intros lo hi H. rewrite py_range2_nil by exact H. cbn [map filter_weight].
    destruct (Z.leb_spec lo b), (Z.ltb_spec b hi); cbn [andb]; try reflexivity. lia.
  - intros lo hi H IH. rewrite py_range2_cons by exact H. cbn [map filter_weight].
    rewrite IH.
    destruct (Z.eqb_spec lo b) as [->|Hne].
    + destruct (Z.leb_spec (b + 1) b), (Z.leb_spec b b), (Z.ltb_spec b hi);
        cbn [andb]; try lia; lra.
    + destruct (Z.leb_spec (lo + 1) b), (Z.leb_spec lo b), (Z.ltb_spec b hi);
        cbn [andb]; try lia; lra.
Qed.

Lemma rising_entries_weight left center b :
  (filter_weight (rising_entries left center) b == rise left center b)%Q.
Proof.
  unfold rising_entries, rise. rewrite filter_weight_entries.
  destruct (Z.leb_spec (left + 1) b), (Z.leb_spec left b), (Z.ltb_spec b center);
    cbn [andb]; try lia; try reflexivity.
  assert (b = left) as -> by lia. unfold rising_weight.
  replace (left - left) with 0 by lia. unfold Qdiv. now rewrite Qmult_0_l.
Qed.

Lemma falling_entries_weight center right b :
  (filter_weight (falling_entries center right) b == fall center right b)%Q.
Proof. unfold falling_entries, fall. apply filter_weight_entries. Qed.

Lemma triangle_weight left center right b :
  (filter_weight (triangle left center right) b ==
   rise left center b + fall center right b)%Q.
Proof.
  unfold triangle.
  now rewrite filter_weight_app, rising_entries_weight, falling_entries_weight.
Qed.

Lemma rise_plus_fall left center b :
  left <= b < center -> (rise left center b + fall left center b == 1)%Q.
Proof.
  intros H. unfold rise, fall.
  destruct (Z.leb_spec left b), (Z.ltb_spec b center); cbn [andb]; try lia.
  unfold rising_weight, falling_weight.
  assert (Hd : ~ (inject_Z (center - left) == 0)%Q).
  { intros E. apply (proj1 (inject_Z_injective _ 0)) in E. lia. }
  replace (center - left) with ((b - left) + (center - b)) in * by lia.
  rewrite inject_Z_plus in *. field. exact Hd.
Qed.

Lemma rise_outside left center b :
  ~ (left <= b < center) -> rise left center b = 0%Q.
Proof.
  intros H. unfold rise.
  destruct (Z.leb_spec left b), (Z.ltb_spec b center); cbn [andb]; try reflexivity. lia.
Qed.

Lemma fall_outside center right b :
  ~ (center <= b < right) -> fall center right b = 0%Q.
Proof.
  intros H. unfold fall.
  destruct (Z.leb_spec center b), (Z.ltb_spec b right); cbn [andb]; try reflexivity. lia.
Qed.

Lemma fall_bounds center right b : (0 <= fall center right b <= 1)%Q.
Proof.
  unfold fall.
  destruct (Z.leb_spec center b), (Z.ltb_spec b right); cbn [andb]; try lra.
  unfold falling_weight. split.
  - apply Qlt_le_weak, Zdiv_Q_pos; lia.
  - apply Zdiv_Q_le_1; lia.
Qed.

(** Every stored entry carries a weight in (0, 1]. *)
Lemma triangle_entries left center right b w :
  In (b, w) (triangle left center right) ->
  (left < b < center /\ w = rising_weight left center b) \/
  (center <= b < right /\ w = falling_weight center right b).
Proof.
  unfold triangle, rising_entries, falling_entries.
  rewrite in_app_iff, !in_map_iff.
  intros [(x & [= -> <-] & Hx)|(x & [= -> <-] & Hx)]; apply in_py_range2 in Hx.
  - left. split; [lia|reflexivity].
  - right. split; [lia|reflexivity].
Qed.

Lemma triangle_entry_bounds left center right b w :
  In (b, w) (triangle left center right) -> (0 < w <= 1)%Q.
Proof.
  intros H. apply triangle_entries in H as [(Hb & ->)|(Hb & ->)];
    unfold rising_weight, falling_weight;
    (split; [apply Zdiv_Q_pos | apply Zdiv_Q_le_1]); lia.
Qed.

(** Below the first boundary of a nondecreasing list nothing contributes. *)
Lemma bands_of_below (p : list Z) b :
  StronglySorted Z.le p -> (forall x, In x p -> b < x) ->
  (bin_total (bands_of p) b == 0)%Q.
Proof.
  induction p as [|l p IH]; intros Hs Hb; [reflexivity|].
  destruct p as [|c [|r rest]]; try reflexivity.
  cbn [bands_of bin_total].
  apply StronglySorted_inv in Hs as (Hs & _).
  rewrite IH; [|exact Hs|intros x Hx; apply Hb; right; exact Hx].
  rewrite triangle_weight.
  rewrite rise_outside, fall_outside.
  - lra.
  - pose proof (Hb c (or_intror (or_introl eq_refl))). lia.
  - pose proof (Hb l (or_introl eq_refl)). lia.
Qed.

(** For nondecreasing boundaries the bands overlap only pairwise, and where
    two overlap their weights add up to one. *)
Lemma bands_of_total_le_1 (p : list Z) b :
  StronglySorted Z.le p ->
  match p with
  | l :: c :: _ => (fall l c b + bin_total (bands_of p) b <= 1)%Q
  | _ => (bin_total (bands_of p) b <= 1)%Q
  end.
Proof.
  induction p as [|l p IH]; intros Hs; [cbn; lra|].
  destruct p as [|c p']; [cbn; lra|].
  apply StronglySorted_inv in Hs as (Hs & Hl).
  specialize (IH Hs).
  destruct p' as [|r rest].
  - cbn [bands_of bin_total]. pose proof (fall_bounds l c b). lra.
  - cbn [bands_of bin_total]. cbn [bands_of] in IH.
    rewrite triangle_weight.
    destruct (Z.leb_spec l b) as [Hlb|Hlb]; [destruct (Z.ltb_spec b c) as [Hbc|Hbc]|].
    + pose proof (rise_plus_fall l c b (conj Hlb Hbc)) as E1.
      rewrite (fall_outside c r b) by lia.
      assert (E2 : (bin_total (bands_of (c :: r :: rest)) b == 0)%Q).
      { apply bands_of_below; [exact Hs|].
        apply StronglySorted_inv in Hs as (_ & Hc).
        intros x [<-|Hx]; [lia|].
        rewrite Forall_forall in Hc. specialize (Hc x Hx). lia. }
      cbn [bands_of] in E2. lra.
    + rewrite (rise_outside l c b), (fall_outside l c b) by lia. lra.
    + rewrite (rise_outside l c b), (fall_outside l c b) by lia. lra.
Qed.

(** For nonincreasing boundaries every band is empty. *)
Lemma bands_of_descending (p : list Z) b :
  StronglySorted Z.ge p -> (bin_total (bands_of p) b == 0)%Q.
Proof.
  induction p as [|l p IH]; intros Hs; [reflexivity|].
  destruct p as [|c [|r rest]]; try reflexivity.
  cbn [bands_of bin_total].
  apply StronglySorted_inv in Hs as (Hs & Hl).
  rewrite IH by exact Hs. rewrite triangle_weight.
  pose proof (Forall_inv Hl) as Hlc.
  apply StronglySorted_inv in Hs as (_ & Hc). pose proof (Forall_inv Hc) as Hcr.
  rewrite rise_outside, fall_outside by lia. lra.
Qed.

(** ** The filterbank as a whole *)

Section FilterbankProofs.

Context {M : MathLib}.

Lemma for_each_map {A B} (g : A -> B) (xs : list A) body :
  (forall x acc, In x xs -> body x acc = Ok (acc ++ [g x])) ->
  forall acc, for_each xs acc body = Ok (acc ++ map g xs).
Proof.
  induction xs as [|x xs IH]; intros Hbody acc; cbn [for_each map].
  - now rewrite app_nil_r.
  - rewrite Hbody by (left; reflexivity). cbn [bind].
    rewrite IH by (intros y a Hy; apply Hbody; right; exact Hy).
    now rewrite <- app_assoc.
Qed.

Lemma py_index_ok {A} (xs : list A) (i : Z) (d : A) :
  0 <= i < Z.of_nat (length xs) ->
  py_index xs i = Ok (nth (Z.to_nat i) xs d).
Proof.
  intros H. unfold py_index.
  destruct (Z.ltb_spec i 0); [lia|].
  destruct (Z.leb_spec 0 i); [|lia].
  destruct (Z.ltb_spec i (Z.of_nat (length xs))); [|lia]. cbn [andb].
  destruct (nth_error xs (Z.to_nat i)) eqn:E.
  - now rewrite (nth_error_nth _ _ d E).
  - apply nth_error_None in E. lia.
Qed.

Lemma bands_of_by_index (p : list Z) :
  bands_of p = map (band_at p) (seq 0 (length p - 2)).
Proof.
  induction p as [|l p IH]; [reflexivity|].
  destruct p as [|c [|r rest]]; try reflexivity.
  change (bands_of (l :: c :: r :: rest))
    with (triangle l c r :: bands_of (c :: r :: rest)).
  rewrite IH.
  change (length (l :: c :: r :: rest) - 2)%nat with (S (length rest)).
  change (length (c :: r :: rest) - 2)%nat with (length rest - 0)%nat.
  rewrite Nat.sub_0_r. cbn [seq map]. f_equal.
  rewrite <- seq_shift, map_map. reflexivity.
Qed.

Lemma py_range_seq n : py_range n = map Z.of_nat (seq 0 (Z.to_nat n)).
Proof.
  unfold py_range, py_range2. rewrite Z.sub_0_r. apply map_ext. intros; lia.
Qed.

(** The third loop of [create_mel_filterbank]. *)
Lemma filters_loop (p : list Z) (n : Z) :
  Z.of_nat (length p) = n + 2 ->
  for_each (py_range n) [] (fun i filters =>
    left <- py_index p i ;;
    center <- py_index p (i + 1) ;;
    right <- py_index p (i + 2) ;;
    filt <- band_filter left center right ;;
    Ok (filters ++ [filt])) = Ok (bands_of p).
Proof.
  intros Hlen.
  rewrite (for_each_map (fun i => band_at p (Z.to_nat i))).
  - cbn [app]. rewrite bands_of_by_index, py_range_seq, map_map.
    replace (length p - 2)%nat with (Z.to_nat n) by lia.
    f_equal. apply map_ext. intros k. now rewrite Nat2Z.id.
  - intros i acc Hi. apply in_py_range2 in Hi.
    rewrite (py_index_ok p i 0), (py_index_ok p (i + 1) 0), (py_index_ok p (i + 2) 0)
      by lia.
    cbn [bind]. rewrite band_filter_spec. cbn [bind]. unfold band_at.
    replace (Z.to_nat (i + 1)) with (S (Z.to_nat i)) by lia.
    replace (Z.to_nat (i + 2)) with (S (S (Z.to_nat i))) by lia.
    reflexivity.
Qed.

Lemma hz_to_bin_ok freq fft_size sample_rate :
  sample_rate <> 0 ->
  hz_to_bin freq fft_size sample_rate = Ok (bin_of freq fft_size sample_rate).
Proof.
  intros H. unfold hz_to_bin, bin_of. now rewrite py_truediv_ok by exact H.
Qed.

(** What [create_mel_filterbank] returns, when it returns. *)
Lemma create_mel_filterbank_Ok sample_rate fft_size num_bins filters :
  create_mel_filterbank sample_rate fft_size num_bins = Ok filters ->
  (num_bins < -1 /\ filters = []) \/
  (0 <= num_bins /\ sample_rate <> 0 /\
   exists mel_low mel_high,
     hz_to_mel 0 = Ok mel_low /\
     hz_to_mel (inject_Z sample_rate / 2)%Q = Ok mel_high /\
     filters =
       bands_of (bin_points_of mel_low mel_high sample_rate fft_size num_bins)).
Proof.
  unfold create_mel_filterbank. intros H.
  apply bind_Ok in H as (mel_low & Elow & H).
  apply bind_Ok in H as (mel_high & Ehigh & H).
  destruct (Z_lt_le_dec num_bins (-1)) as [Hn|Hn].
  - left. split; [exact Hn|].
    unfold py_range in H. rewrite (py_range2_nil 0 (num_bins + 2)) in H by lia.
    rewrite (py_range2_nil 0 num_bins) in H by lia.
    cbn in H. now inversion H.
  - destruct (Z.eq_dec num_bins (-1)) as [->|Hn1].
    { exfalso. apply bind_Ok in H as (mp & E & _). cbn in E. discriminate. }
    right. split; [lia|].
    rewrite (for_each_map (mel_point mel_low mel_high num_bins)) in H.
    2:{ intros i acc _. now rewrite py_truediv_ok by lia. }
    cbn [bind app] in H.
    destruct (Z.eq_dec sample_rate 0) as [->|Hsr].
    { exfalso. apply bind_Ok in H as (bp & E & _).
      unfold py_range in E. rewrite py_range2_cons in E by lia.
      cbn in E. discriminate. }
    split; [exact Hsr|]. exists mel_low, mel_high.
    split; [exact Elow|]. split; [exact Ehigh|].
    rewrite (for_each_map (fun f => bin_of f fft_size sample_rate)) in H.
    2:{ intros f acc _. now rewrite hz_to_bin_ok by exact Hsr. }
    cbn [bind app] in H. rewrite map_map in H.
    rewrite filters_loop in H.
    + inversion H. reflexivity.
    + rewrite length_map. unfold py_range. rewrite py_range2_length. lia.
Qed.

Lemma hz_to_mel_ok (hz : Q) :
  (-700 < hz)%Q -> hz_to_mel hz = Ok (2595 * log10 (1 + hz / 700))%Q.
Proof.
  intros H. unfold hz_to_mel, math_log10.
  destruct (Qle_bool (1 + hz / 700) 0) eqn:E; [|reflexivity].
  apply Qle_bool_imp_le in E. exfalso.
  assert (hz / 700 == hz * (1 # 700))%Q as E' by (unfold Qdiv; reflexivity).
  rewrite E' in E. lra.
Qed.

(** For a positive sample rate and a band count [>= 0] the construction
    returns. *)
Lemma create_mel_filterbank_total sample_rate fft_size num_bins :
  0 < sample_rate -> 0 <= num_bins ->
  exists mel_low mel_high,
    hz_to_mel 0 = Ok mel_low /\
    hz_to_mel (inject_Z sample_rate / 2)%Q = Ok mel_high /\
    create_mel_filterbank sample_rate fft_size num_bins =
      Ok (bands_of (bin_points_of mel_low mel_high sample_rate fft_size num_bins)).
Proof.
  intros Hsr Hn.
  assert (Hq : (0 < inject_Z sample_rate)%Q).
  { change 0%Q with (inject_Z 0). now rewrite <- Zlt_Qlt. }
  assert (Hny : (-700 < inject_Z sample_rate / 2)%Q).
  { assert (inject_Z sample_rate / 2 == inject_Z sample_rate * (1 # 2))%Q as E
        by (unfold Qdiv; reflexivity).
    rewrite E. lra. }
  assert (H0 : (-700 < 0)%Q) by lra.
  exists (2595 * log10 (1 + 0 / 700))%Q,
         (2595 * log10 (1 + (inject_Z sample_rate / 2) / 700))%Q.
  split; [apply hz_to_mel_ok; exact H0|].
  split; [apply hz_to_mel_ok; exact Hny|].
  unfold create_mel_filterbank.
  rewrite (hz_to_mel_ok 0 H0), (hz_to_mel_ok _ Hny).
  cbn [bind].
  rewrite (for_each_map (mel_point (2595 * log10 (1 + 0 / 700))%Q
             (2595 * log10 (1 + (inject_Z sample_rate / 2) / 700))%Q num_bins)).
  2:{ intros i acc _. now rewrite py_truediv_ok by lia. }
  cbn [bind app].
  rewrite (for_each_map (fun f => bin_of f fft_size sample_rate)).
  2:{ intros f acc _. now rewrite hz_to_bin_ok by lia. }
  cbn [bind app]. rewrite map_map.
  rewrite filters_loop; [reflexivity|].
  rewrite length_map. unfold py_range. rewrite py_range2_length. lia.
Qed.

End FilterbankProofs.

Section FilterbankOrder.

Context {M : MathLib}.
Hypothesis pow10_monotone : forall x y : Q, (x <= y)%Q -> (pow10 x <= pow10 y)%Q.

Lemma scale_le (k x y : Q) :
  (x <= y)%Q ->
  ((0 <= k)%Q -> (x * k <= y * k)%Q) /\ ((k <= 0)%Q -> (y * k <= x * k)%Q).
Proof.
  intros H. split; intros Hk.
  - now apply Qmult_le_compat_r.
  - assert (x * - k <= y * - k)%Q by (apply Qmult_le_compat_r; lra). lra.
Qed.

Lemma mel_to_hz_monotone (x y : Q) : (x <= y)%Q -> (mel_to_hz x <= mel_to_hz y)%Q.
Proof.
  intros H. unfold mel_to_hz.
  assert (pow10 (x / 2595) <= pow10 (y / 2595))%Q.
  { apply pow10_monotone. unfold Qdiv.
    apply (proj1 (scale_le (/ 2595) x y H)). apply Qinv_le_0_compat. lra. }
  lra.
Qed.

Lemma mel_point_step (mel_low mel_high : Q) (num_bins i j : Z) :
  i <= j ->
  let k := ((mel_high - mel_low) * / inject_Z (num_bins + 1))%Q in
  ((0 <= k)%Q -> (mel_point mel_low mel_high num_bins i <=
                  mel_point mel_low mel_high num_bins j)%Q) /\
  ((k <= 0)%Q -> (mel_point mel_low mel_high num_bins j <=
                  mel_point mel_low mel_high num_bins i)%Q).
Proof.
  intros Hij k.
  assert (Hq : (inject_Z i <= inject_Z j)%Q) by (now rewrite <- Zle_Qle).
  assert (E : forall z, (mel_low + (mel_high - mel_low) * inject_Z z
                           / inject_Z (num_bins + 1) ==
                         mel_low + inject_Z z * k)%Q).
  { intros z. unfold k, Qdiv. ring. }
  destruct (scale_le k _ _ Hq) as (Hup & Hdown).
  unfold mel_point. split; intros Hk; apply mel_to_hz_monotone; rewrite !E.
  - specialize (Hup Hk). lra.
  - specialize (Hdown Hk). lra.
Qed.

Lemma bin_of_step (fft_size sample_rate : Z) (f g : Q) :
  (f <= g)%Q ->
  let k := (inject_Z fft_size * / inject_Z sample_rate)%Q in
  ((0 <= k)%Q -> bin_of f fft_size sample_rate <= bin_of g fft_size sample_rate) /\
  ((k <= 0)%Q -> bin_of g fft_size sample_rate <= bin_of f fft_size sample_rate).
Proof.
  intros Hfg k.
  assert (E : forall z, (z * inject_Z fft_size / inject_Z sample_rate + (1 # 2) ==
                         z * k + (1 # 2))%Q).
  { intros z. unfold k, Qdiv. ring. }
  destruct (scale_le k _ _ Hfg) as (Hup & Hdown).
  unfold bin_of. split; intros Hk; apply Qfloor_resp_le; rewrite !E.
  - specialize (Hup Hk). lra.
  - specialize (Hdown Hk). lra.
Qed.

Lemma StronglySorted_map_range (Rel : Z -> Z -> Prop) (h : Z -> Z) :
  forall lo hi,
    (forall i j, lo <= i -> i <= j -> j < hi -> Rel (h i) (h j)) ->
    StronglySorted Rel (map h (py_range2 lo hi)).
Proof.
  apply (py_range2_ind (fun lo hi =>
    (forall i j, lo <= i -> i <= j -> j < hi -> Rel (h i) (h j)) ->
    StronglySorted Rel (map h (py_range2 lo hi)))).
  - intros lo hi H _. rewrite py_range2_nil by exact H. constructor.
  - intros lo hi H IH Hrel. rewrite py_range2_cons by exact H. cbn [map].
    constructor.
    + apply IH. intros i j Hi Hij Hj. apply Hrel; lia.
    + rewrite Forall_forall. intros y Hy. apply in_map_iff in Hy as (j & <- & Hj).
      apply in_py_range2 in Hj. apply Hrel; lia.
Qed.

(** The bin boundaries run in one direction. *)
Lemma bin_points_ordered (mel_low mel_high : Q) (sample_rate fft_size num_bins : Z) :
  let p := bin_points_of mel_low mel_high sample_rate fft_size num_bins in
  StronglySorted Z.le p \/ StronglySorted Z.ge p.
Proof.
  intros p. unfold p, bin_points_of, py_range.
  set (k1 := ((mel_high - mel_low) * / inject_Z (num_bins + 1))%Q).
  set (k2 := (inject_Z fft_size * / inject_Z sample_rate)%Q).
  destruct (Qlt_le_dec k1 0) as [H1|H1], (Qlt_le_dec k2 0) as [H2|H2].
  - left. apply StronglySorted_map_range. intros i j _ Hij _.
    apply (proj2 (bin_of_step fft_size sample_rate _ _
             (proj2 (mel_point_step mel_low mel_high num_bins i j Hij)
                    (Qlt_le_weak _ _ H1)))).
    apply Qlt_le_weak, H2.
  - right. apply StronglySorted_map_range. intros i j _ Hij _.
    apply Z.le_ge.
    apply (proj1 (bin_of_step fft_size sample_rate _ _
             (proj2 (mel_point_step mel_low mel_high num_bins i j Hij)
                    (Qlt_le_weak _ _ H1)))).
    exact H2.
  - right. apply StronglySorted_map_range. intros i j _ Hij _.
    apply Z.le_ge.
    apply (proj2 (bin_of_step fft_size sample_rate _ _
             (proj1 (mel_point_step mel_low mel_high num_bins i j Hij) H1))).
    apply Qlt_le_weak, H2.
  - left. apply StronglySorted_map_range. intros i j _ Hij _.
    apply (proj1 (bin_of_step fft_size sample_rate _ _
             (proj1 (mel_point_step mel_low mel_high num_bins i j Hij) H1))).
    exact H2.
Qed.

Lemma bands_of_are_triangles (p : list Z) filt :
  In filt (bands_of p) -> exists l c r, filt = triangle l c r.
Proof.
  rewrite bands_of_by_index, in_map_iff. intros (k & <- & _).
  unfold band_at. eauto.
Qed.

Lemma bin_points_total_le_1 (mel_low mel_high : Q) (sample_rate fft_size num_bins b : Z) :
  (bin_total (bands_of (bin_points_of mel_low mel_high sample_rate fft_size num_bins)) b
   <= 1)%Q.
Proof.
  destruct (bin_points_ordered mel_low mel_high sample_rate fft_size num_bins) as [H|H].
  - pose proof (bands_of_total_le_1 _ b H) as Hle.
    destruct (bin_points_of mel_low mel_high sample_rate fft_size num_bins)
      as [|l [|c rest]]; try exact Hle.
    pose proof (fall_bounds l c b). lra.
  - rewrite (bands_of_descending _ b H). lra.
Qed.

End FilterbankOrder.

Lemma bin_points_of_nth {M : MathLib} mel_low mel_high sample_rate fft_size num_bins i :
  0 <= i < num_bins + 2 ->
  nth (Z.to_nat i) (bin_points_of mel_low mel_high sample_rate fft_size num_bins) 0 =
  bin_of (mel_point mel_low mel_high num_bins i) fft_size sample_rate.
Proof.
  intros H. unfold bin_points_of. rewrite py_range_seq, map_map.
  set (f := fun k : nat => _).
  rewrite (nth_indep _ 0 (f O)) by (rewrite length_map, length_seq; lia).
  rewrite map_nth, seq_nth by lia. unfold f. cbn [Nat.add].
  now rewrite Z2Nat.id by lia.
Qed.

(** ** Claims about the filterbank *)

(** C6. Bin mapping and slopes.  (1) A Hz boundary [freq] is mapped to
    [floor(freq * fft_size / sample_rate + 1/2)], the integer [k] with
    [k <= x + 1/2 < k + 1], so halves round up.  (2) For any boundaries
    [(left, center, right)] the band construction returns without a
    division by zero; its weight at a bin [b] is
    [(b - left) / (center - left)] on [left <= b < center],
    [(right - b) / (right - center)] on [center <= b < right] and zero
    elsewhere, so a side with [center <= left] or [right <= center] adds
    nothing; the stored entries are exactly the non-zero ones.  (3) In a
    filterbank that was built, band [i] is that triangle over the images of
    the mel boundaries [i], [i+1], [i+2]. *)
Theorem filterbank_bins_and_slopes {M : MathLib} :
  (forall freq fft_size sample_rate, sample_rate <> 0 ->
     exists k, hz_to_bin freq fft_size sample_rate = Ok k /\
       let x := (freq * inject_Z fft_size / inject_Z sample_rate)%Q in
       k = Qfloor (x + (1 # 2)) /\
       (inject_Z k <= x + (1 # 2))%Q /\ (x + (1 # 2) < inject_Z k + 1)%Q) /\
  (forall left center right,
     exists filt, band_filter left center right = Ok filt /\
       (forall b, left <= b < center ->
                  (filter_weight filt b == rising_weight left center b)%Q) /\
       (forall b, center <= b < right ->
                  (filter_weight filt b == falling_weight center right b)%Q) /\
       (forall b, ~ (left <= b < center) -> ~ (center <= b < right) ->
                  (filter_weight filt b == 0)%Q) /\
       (forall b w, In (b, w) filt ->
                    (left < b < center /\ w = rising_weight left center b) \/
                    (center <= b < right /\ w = falling_weight center right b))) /\
  (forall sample_rate fft_size num_bins filters,
     0 <= num_bins ->
     create_mel_filterbank sample_rate fft_size num_bins = Ok filters ->
     exists mel_low mel_high,
       hz_to_mel 0 = Ok mel_low /\
       hz_to_mel (inject_Z sample_rate / 2)%Q = Ok mel_high /\
       Z.of_nat (length filters) = num_bins /\
       forall i, 0 <= i < num_bins ->
         let boundary j :=
           bin_of (mel_point mel_low mel_high num_bins j) fft_size sample_rate in
         nth (Z.to_nat i) filters [] =
         triangle (boundary i) (boundary (i + 1)) (boundary (i + 2))).
Proof.
  split; [|split].
  - intros freq fft_size sample_rate Hsr.
    exists (bin_of freq fft_size sample_rate).
    split; [now apply hz_to_bin_ok|]. cbv zeta. unfold bin_of.
    split; [reflexivity|]. split.
    + apply Qfloor_le.
    + pose proof (Qlt_floor (freq * inject_Z fft_size / inject_Z sample_rate + (1 # 2))) as H.
      rewrite inject_Z_plus in H. exact H.
  - intros left center right. exists (triangle left center right).
    split; [apply band_filter_spec|]. repeat split.
    + intros b Hb. rewrite triangle_weight.
      rewrite (fall_outside center right b) by lia. unfold rise.
      destruct (Z.leb_spec left b), (Z.ltb_spec b center); cbn [andb]; try lia. lra.
    + intros b Hb. rewrite triangle_weight.
      rewrite (rise_outside left center b) by lia. unfold fall.
      destruct (Z.leb_spec center b), (Z.ltb_spec b right); cbn [andb]; try lia. lra.
    + intros b H1 H2. rewrite triangle_weight.
      rewrite rise_outside, fall_outside by assumption. lra.
    + intros b w. apply triangle_entries.
  - intros sample_rate fft_size num_bins filters Hn H.
    apply create_mel_filterbank_Ok in H as [(Hneg & _)|(_ & Hsr & lo & hi & Elo & Ehi & ->)];
      [lia|].
    exists lo, hi. split; [exact Elo|]. split; [exact Ehi|].
    assert (Hlen : length (bin_points_of lo hi sample_rate fft_size num_bins)
                   = Z.to_nat (num_bins + 2)).
    { unfold bin_points_of, py_range. now rewrite length_map, py_range2_length, Z.sub_0_r. }
    rewrite bands_of_by_index, Hlen. split.
    + rewrite length_map, length_seq. lia.
    + intros i Hi. cbv zeta.
      rewrite (nth_indep _ [] (band_at (bin_points_of lo hi sample_rate fft_size num_bins) O))
        by (rewrite length_map, length_seq; lia).
      rewrite map_nth, seq_nth by lia. cbn [Nat.add]. unfold band_at.
      rewrite <- !bin_points_of_nth by lia.
      replace (Z.to_nat (i + 1)) with (S (Z.to_nat i)) by lia.
      replace (Z.to_nat (i + 2)) with (S (S (Z.to_nat i))) by lia.
      reflexivity.
Qed.

Lemma filterbank_bins_and_slopes_witness :
  let M := linear_math in
  exists filters mel_low mel_high,
    create_mel_filterbank 16000 512 2 = Ok filters /\
    hz_to_mel 0 = Ok mel_low /\
    hz_to_mel (inject_Z 16000 / 2)%Q = Ok mel_high /\
    Z.of_nat (length filters) = 2 /\
    forall i, 0 <= i < 2 ->
      let boundary j := bin_of (mel_point mel_low mel_high 2 j) 512 16000 in
      nth (Z.to_nat i) filters [] =
      triangle (boundary i) (boundary (i + 1)) (boundary (i + 2)).
Proof.
  intros M.
  destruct (create_mel_filterbank 16000 512 2) as [filters|e] eqn:E;
    [|vm_compute in E; discriminate].
  destruct (proj2 (proj2 (@filterbank_bins_and_slopes M)) 16000 512 2 filters
              ltac:(lia) E) as (lo & hi & H).
  exists filters, lo, hi. split; [reflexivity | exact H].
Defined.

(** C7. Weights of a built filterbank.  For every sample rate, FFT size
    and band count for which [create_mel_filterbank] returns, every stored
    [(bin, weight)] pair has [0 < weight <= 1], and for every FFT bin the
    weights of that bin summed over all bands are at most 1; the
    construction does return for every positive sample rate and every band
    count [>= 0].  ([10.0 ** x] is assumed nondecreasing in [x].) *)
Theorem filterbank_weights_bounded {M : MathLib}
    (pow10_monotone : forall x y : Q, (x <= y)%Q -> (pow10 x <= pow10 y)%Q)
    (sample_rate fft_size num_bins : Z) :
  (forall filters,
     create_mel_filterbank sample_rate fft_size num_bins = Ok filters ->
     (forall filt b w, In filt filters -> In (b, w) filt -> (0 < w <= 1)%Q) /\
     (forall b, (bin_total filters b <= 1)%Q)) /\
  (0 < sample_rate -> 0 <= num_bins ->
   exists filters, create_mel_filterbank sample_rate fft_size num_bins = Ok filters).
Proof.
  split.
  - intros filters H.
    apply create_mel_filterbank_Ok in H as [(_ & ->)|(_ & _ & lo & hi & _ & _ & ->)].
    + split; [intros filt b w []|]. intros b. cbn. lra.
    + split.
      * intros filt b w Hf Hw. apply bands_of_are_triangles in Hf as (l & c & r & ->).
        eapply triangle_entry_bounds; exact Hw.
      * intros b. now apply bin_points_total_le_1.
  - intros Hsr Hn.
    destruct (create_mel_filterbank_total sample_rate fft_size num_bins Hsr Hn)
      as (lo & hi & _ & _ & E).
    eauto.
Qed.

Lemma linear_math_pow10_monotone :
  forall x y : Q, (x <= y)%Q -> (@pow10 linear_math x <= @pow10 linear_math y)%Q.
Proof. intros x y H. cbn. lra. Qed.

Lemma filterbank_weights_bounded_witness :
  let M := linear_math in
  exists filters,
    create_mel_filterbank 16000 512 128 = Ok filters /\
    (forall filt b w, In filt filters -> In (b, w) filt -> (0 < w <= 1)%Q) /\
    (forall b, (bin_total filters b <= 1)%Q).
Proof.
  intros M.
  destruct (@filterbank_weights_bounded M linear_math_pow10_monotone 16000 512 128)
    as (Hpart & Htotal).
  destruct (Htotal ltac:(lia) ltac:(lia)) as (filters & E).
  exists filters. split; [exact E | exact (Hpart filters E)].
Defined.

(** ** Feature extraction *)

Lemma set_nth_length {A} (xs : list A) k v : length (set_nth xs k v) = length xs.
Proof.
  revert k; induction xs as [|x xs IH]; intros [|k]; cbn [set_nth length]; auto.
Qed.

Lemma py_setitem_ok {A} (xs : list A) (i : Z) (v : A) :
  0 <= i < Z.of_nat (length xs) ->
  py_setitem xs i v = Ok (set_nth xs (Z.to_nat i) v).
Proof.
  intros H. unfold py_setitem.
  destruct (Z.ltb_spec i 0); [lia|].
  destruct (Z.leb_spec 0 i); [|lia].
  destruct (Z.ltb_spec i (Z.of_nat (length xs))); [|lia]. reflexivity.
Qed.

Lemma np_zeros_ok (n : Z) : 0 <= n -> np_zeros n = Ok (repeat 0%Q (Z.to_nat n)).
Proof. intros H. unfold np_zeros. destruct (Z.ltb_spec n 0); [lia|reflexivity]. Qed.

Lemma py_slice_length {A} (xs : list A) (a b : Z) :
  0 <= a <= b -> b <= Z.of_nat (length xs) ->
  length (py_slice xs a b) = Z.to_nat (b - a).
Proof.
  intros Hab Hb. unfold py_slice, clip_bound.
  destruct (Z.ltb_spec a 0); [lia|]. destruct (Z.ltb_spec b 0); [lia|].
  rewrite length_firstn, length_skipn. lia.
Qed.

Lemma np_mul_ok (a b : list Q) :
  length a = length b ->
  exists c, np_mul a b = Ok c /\ length c = length a.
Proof.
  intros H. unfold np_mul. rewrite H, Nat.eqb_refl.
  eexists. split; [reflexivity|]. rewrite length_map, length_combine. lia.
Qed.

Lemma np_assign_prefix_ok (dst src : list Q) (stop : Z) :
  0 <= stop <= Z.of_nat (length dst) -> length src = Z.to_nat stop ->
  exists r, np_assign_prefix dst stop src = Ok r /\ length r = length dst.
Proof.
  intros Hs Hl. unfold np_assign_prefix, clip_bound.
  destruct (Z.ltb_spec stop 0); [lia|].
  rewrite Z.min_l by lia. rewrite Hl, Nat.eqb_refl.
  eexists. split; [reflexivity|]. rewrite length_app, length_skipn. lia.
Qed.

Section FeatureProofs.

Context {M : MathLib} {HM : MathLibOK M}.

Lemma preemphasis_ok (pcm : list Q) :
  pcm <> [] ->
  exists signal, preemphasis pcm = Ok signal /\ length signal = length pcm.
Proof.
  intros Hne. unfold preemphasis.
  assert (Hlen : 0 < Z.of_nat (length pcm)) by (destruct pcm; [contradiction|cbn [length]; lia]).
  rewrite np_zeros_ok by lia. cbn [bind].
  rewrite (py_index_ok pcm 0 0%Q) by lia. cbn [bind].
  rewrite py_setitem_ok by (rewrite repeat_length; lia). cbn [bind].
  apply (for_each_total (fun s : list Q => length s = length pcm)).
  - intros i acc Hi Hacc. apply in_py_range2 in Hi.
    rewrite (py_index_ok pcm i 0%Q), (py_index_ok pcm (i - 1) 0%Q) by lia.
    cbn [bind]. rewrite py_setitem_ok by lia.
    eexists. split; [reflexivity|]. now rewrite set_nth_length.
  - rewrite set_nth_length, repeat_length. lia.
Qed.

Lemma hann_window_ok (window_size : Z) :
  exists hann, hann_window window_size = Ok hann /\
               length hann = Z.to_nat window_size.
Proof.
  unfold hann_window.
  rewrite (for_each_map (fun i =>
    ((1 # 2) - (1 # 2) * cos (2 * pi * inject_Z i / inject_Z window_size))%Q)).
  - eexists. split; [reflexivity|]. cbn [app].
    unfold py_range. rewrite length_map, py_range2_length. lia.
  - intros i acc Hi. apply in_py_range2 in Hi.
    now rewrite py_truediv_ok by lia.
Qed.

End FeatureProofs.

Section BinRange.

Context {M : MathLib} {HM : MathLibOK M}.

Lemma pow10_proper (x y : Q) : (x == y)%Q -> (pow10 x == pow10 y)%Q.
Proof.
  intros E. apply Qle_antisym; apply pow10_nondecreasing; rewrite E; apply Qle_refl.
Qed.

Lemma mel_to_hz_proper (x y : Q) : (x == y)%Q -> (mel_to_hz x == mel_to_hz y)%Q.
Proof.
  intros E. unfold mel_to_hz.
  assert (pow10 (x / 2595) == pow10 (y / 2595))%Q as ->
      by (apply pow10_proper; now rewrite E).
  reflexivity.
Qed.

(** [mel_to_hz] undoes [hz_to_mel]. *)
Lemma mel_to_hz_of_mel (hz : Q) :
  (-700 < hz)%Q -> (mel_to_hz (2595 * log10 (1 + hz / 700)) == hz)%Q.
Proof.
  intros H. unfold mel_to_hz.
  assert (E : (hz / 700 == hz * (1 # 700))%Q) by (unfold Qdiv; reflexivity).
  assert (pow10 (2595 * log10 (1 + hz / 700) / 2595) == 1 + hz / 700)%Q as ->.
  { rewrite (pow10_proper _ (log10 (1 + hz / 700))) by (field).
    apply pow10_log10. rewrite E. lra. }
  rewrite E. lra.
Qed.

Lemma mel_scale_ascends (hz : Q) :
  (0 < hz)%Q -> (2595 * log10 (1 + 0 / 700) <= 2595 * log10 (1 + hz / 700))%Q.
Proof.
  intros H.
  assert (E : (hz / 700 == hz * (1 # 700))%Q) by (unfold Qdiv; reflexivity).
  assert (E0 : (0 / 700 == 0)%Q) by reflexivity.
  destruct (Qlt_le_dec (log10 (1 + hz / 700)) (log10 (1 + 0 / 700))) as [Hlt|Hle];
    [|lra].
  exfalso.
  pose proof (pow10_nondecreasing _ _ (Qlt_le_weak _ _ Hlt)) as Hp.
  rewrite !pow10_log10 in Hp.
  - rewrite E, E0 in Hp. lra.
  - reflexivity.
  - rewrite E. lra.
Qed.

Variables (sample_rate num_bins : Z).
Hypothesis sample_rate_pos : 0 < sample_rate.
Hypothesis num_bins_nonneg : 0 <= num_bins.

Let nyquist : Q := (inject_Z sample_rate / 2)%Q.
Let mel_low : Q := (2595 * log10 (1 + 0 / 700))%Q.
Let mel_high : Q := (2595 * log10 (1 + nyquist / 700))%Q.

Lemma nyquist_pos : (0 < nyquist)%Q.
Proof.
  unfold nyquist.
  assert (0 < inject_Z sample_rate)%Q
    by (change 0%Q with (inject_Z 0); now rewrite <- Zlt_Qlt).
  apply Qlt_shift_div_l; lra.
Qed.

Lemma mel_point_first : (mel_point mel_low mel_high num_bins 0 == 0)%Q.
Proof.
  unfold mel_point.
  rewrite (mel_to_hz_proper _ mel_low).
  - unfold mel_low. apply mel_to_hz_of_mel. lra.
  - unfold Qdiv. change (inject_Z 0) with 0%Q. ring.
Qed.

Lemma mel_point_last :
  (mel_point mel_low mel_high num_bins (num_bins + 1) == nyquist)%Q.
Proof.
  unfold mel_point.
  rewrite (mel_to_hz_proper _ mel_high).
  - unfold mel_high. apply mel_to_hz_of_mel. pose proof nyquist_pos. lra.
  - field. intros E. apply (proj1 (inject_Z_injective _ 0)) in E. lia.
Qed.

Lemma mel_point_between (i : Z) :
  0 <= i <= num_bins + 1 ->
  (0 <= mel_point mel_low mel_high num_bins i <= nyquist)%Q.
Proof.
  intros Hi.
  assert (Hk : (0 <= (mel_high - mel_low) * / inject_Z (num_bins + 1))%Q).
  { apply Qmult_le_0_compat.
    - pose proof (mel_scale_ascends nyquist nyquist_pos). fold mel_low mel_high in H. lra.
    - apply Qinv_le_0_compat. change 0%Q with (inject_Z 0). rewrite <- Zle_Qle. lia. }
  split.
  - rewrite <- mel_point_first.
    apply (proj1 (mel_point_step pow10_nondecreasing mel_low mel_high num_bins 0 i
                    (proj1 Hi)) Hk).
  - rewrite <- mel_point_last.
    apply (proj1 (mel_point_step pow10_nondecreasing mel_low mel_high num_bins i
                    (num_bins + 1) (proj2 Hi)) Hk).
Qed.

Lemma bin_of_between (f : Q) :
  (0 <= f <= nyquist)%Q -> 0 <= bin_of f FFT_SIZE sample_rate <= 256.
Proof.
  intros (H0 & H1).
  assert (Hsr : (0 < inject_Z sample_rate)%Q)
    by (change 0%Q with (inject_Z 0); now rewrite <- Zlt_Qlt).
  assert (Hk : (0 <= inject_Z FFT_SIZE * / inject_Z sample_rate)%Q).
  { apply Qmult_le_0_compat; [unfold FFT_SIZE; compute; discriminate|].
    apply Qinv_le_0_compat. lra. }
  pose proof (proj1 (bin_of_step FFT_SIZE sample_rate 0 f H0) Hk) as Hlo.
  pose proof (proj1 (bin_of_step FFT_SIZE sample_rate f nyquist H1) Hk) as Hhi.
  assert (E0 : bin_of 0 FFT_SIZE sample_rate = 0).
  { unfold bin_of. rewrite (Qfloor_comp _ (1 # 2)); [reflexivity|].
    unfold Qdiv. ring. }
  assert (E1 : bin_of nyquist FFT_SIZE sample_rate = 256).
  { unfold bin_of, nyquist. rewrite (Qfloor_comp _ (513 # 2)); [reflexivity|].
    unfold FFT_SIZE. change (inject_Z 512) with 512%Q. field. lra. }
  lia.
Qed.

Lemma bin_points_in_range (x : Z) :
  In x (bin_points_of mel_low mel_high sample_rate FFT_SIZE num_bins) ->
  0 <= x <= 256.
Proof.
  unfold bin_points_of. rewrite in_map_iff. intros (i & <- & Hi).
  apply in_py_range2 in Hi.
  apply bin_of_between, mel_point_between. lia.
Qed.

(** Every stored entry of the filterbank addresses a bin of the
    257-entry power spectrum and has a positive weight. *)
Lemma filterbank_entries_in_range filt b w :
  In filt (bands_of (bin_points_of mel_low mel_high sample_rate FFT_SIZE num_bins)) ->
  In (b, w) filt -> 0 <= b < 256 /\ (0 < w)%Q.
Proof.
  rewrite bands_of_by_index, in_map_iff. intros (k & <- & _) Hw.
  assert (Hnth : forall j,
            0 <= nth j (bin_points_of mel_low mel_high sample_rate FFT_SIZE num_bins) 0
              <= 256).
  { intros j.
    destruct (nth_in_or_default j
                (bin_points_of mel_low mel_high sample_rate FFT_SIZE num_bins) 0)
      as [Hin| ->]; [now apply bin_points_in_range | lia]. }
  unfold band_at in Hw. split.
  - pose proof (Hnth k). pose proof (Hnth (S k)). pose proof (Hnth (S (S k))).
    apply triangle_entries in Hw as [(Hb & _)|(Hb & _)]; lia.
  - now apply triangle_entry_bounds in Hw.
Qed.

End BinRange.

Section FrameProofs.

Context {M : MathLib} {HM : MathLibOK M}.

Lemma mel_energy_of_ok (power : list Q) (filt : FilterSpec) :
  length power = 257%nat -> Forall (fun p => (0 <= p)%Q) power ->
  addressable filt ->
  exists e, mel_energy_of power filt = Ok e /\ (0 <= e)%Q.
Proof.
  intros Hlen Hpos Haddr. unfold mel_energy_of.
  apply (for_each_total (fun e : Q => (0 <= e)%Q)); [|lra].
  intros [b w] acc Hin Hacc. destruct (Haddr b w Hin) as (Hb & Hw).
  rewrite (py_index_ok power b 0%Q) by lia. cbn [bind].
  eexists. split; [reflexivity|].
  assert (0 <= nth (Z.to_nat b) power 0)%Q.
  { rewrite Forall_forall in Hpos. apply Hpos, nth_In. lia. }
  assert (0 <= nth (Z.to_nat b) power 0 * w)%Q by (apply Qmult_le_0_compat; lra).
  lra.
Qed.

Lemma math_log_ok (x : Q) : (0 < x)%Q -> math_log x = Ok (ln x).
Proof.
  intros H. unfold math_log. destruct (Qle_bool x 0) eqn:E; [|reflexivity].
  apply Qle_bool_imp_le in E. lra.
Qed.

Lemma frame_step_ok (signal hann : list Q) (mel_filters : list FilterSpec)
    (window_size hop_size num_frames frame_idx : Z) (features : list Q) :
  0 <= window_size <= FFT_SIZE ->
  length hann = Z.to_nat window_size ->
  Z.of_nat (length mel_filters) = NUM_MEL_BINS ->
  Forall addressable mel_filters ->
  0 <= frame_idx < num_frames ->
  0 <= frame_idx * hop_size ->
  frame_idx * hop_size + window_size <= Z.of_nat (length signal) ->
  Z.of_nat (length features) = NUM_MEL_BINS * num_frames ->
  exists features',
    frame_step signal hann mel_filters window_size hop_size num_frames
               frame_idx features = Ok features' /\
    length features' = length features.
Proof.
  intros Hws Hhann Hnf Haddr Hidx Hstart Hend Hfeat. unfold frame_step.
  destruct (np_mul_ok (py_slice signal (frame_idx * hop_size)
                                (frame_idx * hop_size + window_size)) hann)
    as (windowed & -> & Hwin).
  { rewrite py_slice_length by lia. rewrite Hhann. f_equal. lia. }
  rewrite py_slice_length in Hwin by lia.
  cbn [bind]. rewrite np_zeros_ok by (unfold FFT_SIZE; lia). cbn [bind].
  destruct (np_assign_prefix_ok (repeat 0%Q (Z.to_nat FFT_SIZE)) windowed window_size)
    as (padded & -> & Hpad).
  { rewrite repeat_length. lia. }
  { rewrite Hwin. f_equal. lia. }
  rewrite repeat_length in Hpad. cbn [bind].
  set (power := rfft_power padded).
  assert (Hplen : length power = 257%nat).
  { unfold power. rewrite rfft_power_length, Hpad. reflexivity. }
  assert (Hppos : Forall (fun p => (0 <= p)%Q) power) by apply rfft_power_nonneg.
  apply (for_each_total (fun f : list Q => length f = length features));
    [|reflexivity].
  intros [bin_idx filt] acc Hin Hacc.
  pose proof (in_combine_l _ _ _ _ Hin) as Hbin.
  pose proof (in_combine_r _ _ _ _ Hin) as Hfilt.
  apply in_py_range2 in Hbin.
  rewrite Forall_forall in Haddr.
  destruct (mel_energy_of_ok power filt Hplen Hppos (Haddr filt Hfilt))
    as (e & -> & He).
  cbn [bind]. rewrite math_log_ok by lra. cbn [bind].
  rewrite py_setitem_ok.
  - eexists. split; [reflexivity|]. now rewrite set_nth_length.
  - rewrite Hacc, Hfeat. unfold NUM_MEL_BINS in *. nia.
Qed.

(** Feature extraction returns whenever the input holds at least one
    window (for a hop of at least one sample and a window that fits the
    FFT). *)
Lemma compute_features_total (pcm : list Q) (sample_rate : Z) :
  0 < hop_size_of sample_rate ->
  window_size_of sample_rate <= FFT_SIZE ->
  window_size_of sample_rate <= Z.of_nat (length pcm) ->
  exists features,
    compute_features_rust_style pcm sample_rate =
      Ok (features,
          (Z.of_nat (length pcm) - window_size_of sample_rate)
            / hop_size_of sample_rate + 1) /\
    Z.of_nat (length features) =
      NUM_MEL_BINS * ((Z.of_nat (length pcm) - window_size_of sample_rate)
                        / hop_size_of sample_rate + 1).
Proof.
  intros Hhop Hfft Hlen.
  assert (Hsr : 0 < sample_rate).
  { unfold hop_size_of, HOP_SIZE_MS in Hhop.
    destruct (Z_lt_le_dec 0 sample_rate) as [H|H]; [exact H|].
    assert (10 * sample_rate / 1000 <= 0) by (apply Z.div_le_upper_bound; lia). lia. }
  assert (Hws : 0 < window_size_of sample_rate).
  { unfold window_size_of, WINDOW_SIZE_MS. unfold hop_size_of, HOP_SIZE_MS in Hhop.
    assert (10 * sample_rate / 1000 <= 25 * sample_rate / 1000)
      by (apply Z.div_le_mono; lia). lia. }
  unfold compute_features_rust_style.
  destruct (Z.ltb_spec (Z.of_nat (length pcm)) (window_size_of sample_rate)); [lia|].
  destruct (preemphasis_ok pcm) as (signal & -> & Hsig).
  { intros ->. cbn [length] in Hlen. lia. }
  cbn [bind].
  destruct (hann_window_ok (window_size_of sample_rate)) as (hann & -> & Hhann).
  cbn [bind].
  destruct (create_mel_filterbank_total sample_rate FFT_SIZE NUM_MEL_BINS Hsr)
    as (lo & hi & Elo & Ehi & ->); [unfold NUM_MEL_BINS; lia|].
  cbn [bind].
  destruct (Z.eqb_spec (hop_size_of sample_rate) 0); [lia|].
  rewrite Hsig.
  set (nf := (Z.of_nat (length pcm) - window_size_of sample_rate)
               / hop_size_of sample_rate + 1).
  assert (Hq : 0 <= (Z.of_nat (length pcm) - window_size_of sample_rate)
                      / hop_size_of sample_rate)
    by (apply Z.div_pos; lia).
  assert (Hlast : hop_size_of sample_rate *
                  ((Z.of_nat (length pcm) - window_size_of sample_rate)
                     / hop_size_of sample_rate)
                  <= Z.of_nat (length pcm) - window_size_of sample_rate)
    by (apply Z.mul_div_le; lia).
  rewrite np_zeros_ok by (unfold NUM_MEL_BINS, nf; lia). cbn [bind].
  rewrite hz_to_mel_ok in Elo by lra. inversion Elo; subst lo; clear Elo.
  rewrite hz_to_mel_ok in Ehi.
  2:{ pose proof (nyquist_pos sample_rate Hsr). lra. }
  inversion Ehi; subst hi; clear Ehi.
  destruct (for_each_total
              (fun f : list Q => Z.of_nat (length f) = NUM_MEL_BINS * nf)
              (py_range nf)
              (frame_step signal hann
                 (bands_of (bin_points_of (2595 * log10 (1 + 0 / 700))%Q
                    (2595 * log10 (1 + inject_Z sample_rate / 2 / 700))%Q
                    sample_rate FFT_SIZE NUM_MEL_BINS))
                 (window_size_of sample_rate) (hop_size_of sample_rate) nf))
    with (acc := repeat 0%Q (Z.to_nat (NUM_MEL_BINS * nf)))
    as (features & -> & Hfeat).
  - intros frame_idx acc Hin Hacc. apply in_py_range2 in Hin.
    assert (Hstart : 0 <= frame_idx * hop_size_of sample_rate) by nia.
    assert (Hend : frame_idx * hop_size_of sample_rate + window_size_of sample_rate
                   <= Z.of_nat (length signal))
      by (rewrite Hsig; unfold nf in Hin; nia).
    destruct (frame_step_ok signal hann
                (bands_of (bin_points_of (2595 * log10 (1 + 0 / 700))%Q
                   (2595 * log10 (1 + inject_Z sample_rate / 2 / 700))%Q
                   sample_rate FFT_SIZE NUM_MEL_BINS))
                (window_size_of sample_rate) (hop_size_of sample_rate) nf
                frame_idx acc) as (f' & E & Hf'); try assumption; try lia.
    + rewrite bands_of_by_index, length_map, length_seq.
      unfold bin_points_of, py_range.
      rewrite length_map, py_range2_length. unfold NUM_MEL_BINS. lia.
    + rewrite Forall_forall. intros filt Hfilt b w Hbw.
      eapply (filterbank_entries_in_range sample_rate NUM_MEL_BINS Hsr);
        [unfold NUM_MEL_BINS; lia | exact Hfilt | exact Hbw].
    + exists f'. split; [exact E|]. now rewrite Hf'.
  - rewrite repeat_length. unfold NUM_MEL_BINS, nf. lia.
  - cbn [bind]. exists features. split; [reflexivity | exact Hfeat].
Qed.

End FrameProofs.

Lemma linear_math_ok : MathLibOK linear_math.
Proof.
  constructor; cbn.
  - intros x y H. lra.
  - intros x _. ring.
  - intros v. apply repeat_length.
  - intros v. apply Forall_forall. intros p Hp. apply repeat_spec in Hp. subst p. lra.
Qed.

(** ** Claims about feature extraction *)

(** C4. Frame count.  For an input of [len >= window_size] samples (hop of
    at least one sample, window no longer than the FFT) feature extraction
    returns [num_frames = (len - window_size) / hop_size + 1] with floor
    division, and [NUM_MEL_BINS * num_frames] feature values; the last frame
    ends inside the input and one more frame would not fit.  At 16 kHz
    (window 400, hop 160) 16000 samples give 98 frames, and an input of
    exactly one window gives one frame. *)
Theorem frame_count_formula {M : MathLib} (HM : MathLibOK M)
    (pcm : list Q) (sample_rate : Z) :
  let len := Z.of_nat (length pcm) in
  let window_size := window_size_of sample_rate in
  let hop_size := hop_size_of sample_rate in
  let num_frames := (len - window_size) / hop_size + 1 in
  0 < hop_size -> window_size <= FFT_SIZE -> window_size <= len ->
  (exists features,
     compute_features_rust_style pcm sample_rate = Ok (features, num_frames) /\
     Z.of_nat (length features) = NUM_MEL_BINS * num_frames) /\
  (num_frames - 1) * hop_size + window_size <= len /\
  len < num_frames * hop_size + window_size /\
  (sample_rate = 16000 -> len = 16000 -> num_frames = 98) /\
  (len = window_size -> num_frames = 1).
Proof.
  intros len window_size hop_size num_frames Hhop Hfft Hlen.
  split; [apply compute_features_total; assumption|].
  pose proof (Z.mul_div_le (len - window_size) hop_size Hhop) as Hlo.
  pose proof (Z.mul_succ_div_gt (len - window_size) hop_size Hhop) as Hhi.
  unfold num_frames. repeat split.
  - lia.
  - lia.
  - intros Hsr Hl. unfold window_size, hop_size. rewrite Hsr, Hl. reflexivity.
  - intros Hl. rewrite Hl, Z.sub_diag, Z.div_0_l by lia. reflexivity.
Qed.

Lemma frame_count_formula_witness :
  let M := linear_math in
  let pcm := repeat 0%Q (Z.to_nat 16000) in
  (exists features,
     compute_features_rust_style pcm 16000 = Ok (features, 98) /\
     Z.of_nat (length features) = 128 * 98) /\
  (98 - 1) * 160 + 400 <= 16000 /\ 16000 < 98 * 160 + 400.
Proof.
  intros M pcm.
  assert (Hlen : Z.of_nat (length pcm) = 16000)
    by (unfold pcm; rewrite repeat_length; reflexivity).
  pose proof (@frame_count_formula M linear_math_ok pcm 16000) as H.
  cbv zeta in H. rewrite Hlen in H.
  change (window_size_of 16000) with 400 in H.
  change (hop_size_of 16000) with 160 in H.
  change ((16000 - 400) / 160 + 1) with 98 in H.
  destruct (H ltac:(lia) ltac:(unfold FFT_SIZE; lia) ltac:(lia)) as (H1 & H2 & H3 & _).
  split; [exact H1|]. split; [exact H2 | exact H3].
Defined.

(** C9. Too-short input.  Feature extraction raises the "Audio too short"
    error exactly when the input has fewer than [window_size] samples, and
    then returns no features; for every input of at least [window_size]
    samples it returns features (hop of at least one sample, window no
    longer than the FFT, as at 16 kHz). *)
Theorem insufficient_audio_iff {M : MathLib} (HM : MathLibOK M)
    (pcm : list Q) (sample_rate : Z) :
  let len := Z.of_nat (length pcm) in
  let window_size := window_size_of sample_rate in
  0 < hop_size_of sample_rate -> window_size <= FFT_SIZE ->
  ((exists have need,
      compute_features_rust_style pcm sample_rate = Err (InsufficientAudio have need))
   <-> len < window_size) /\
  (len < window_size ->
   compute_features_rust_style pcm sample_rate =
     Err (InsufficientAudio len window_size)) /\
  (window_size <= len ->
   exists features num_frames,
     compute_features_rust_style pcm sample_rate = Ok (features, num_frames)).
Proof.
  intros len window_size Hhop Hfft.
  assert (Hshort : len < window_size ->
                   compute_features_rust_style pcm sample_rate =
                   Err (InsufficientAudio len window_size)).
  { intros H. unfold compute_features_rust_style. fold len window_size.
    destruct (Z.ltb_spec len window_size); [reflexivity|lia]. }
  assert (Hlong : window_size <= len ->
                  exists features num_frames,
                    compute_features_rust_style pcm sample_rate =
                    Ok (features, num_frames)).
  { intros H.
    destruct (compute_features_total pcm sample_rate Hhop Hfft H) as (f & E & _).
    eauto. }
  split; [|split; assumption].
  split.
  - intros (have & need & E).
    destruct (Z_lt_le_dec len window_size) as [H|H]; [exact H|].
    destruct (Hlong H) as (f & nf & E'). rewrite E' in E. discriminate.
  - intros H. exists len, window_size. now apply Hshort.
Qed.

Lemma insufficient_audio_iff_witness :
  let M := linear_math in
  compute_features_rust_style (repeat 0%Q 399) 16000 = Err (InsufficientAudio 399 400) /\
  exists features num_frames,
    compute_features_rust_style (repeat 0%Q 400) 16000 = Ok (features, num_frames).
Proof.
  intros M. split.
  - apply (proj1 (proj2 (@insufficient_audio_iff M linear_math_ok (repeat 0%Q 399) 16000
                           ltac:(reflexivity) ltac:(discriminate)))).
    reflexivity.
  - apply (proj2 (proj2 (@insufficient_audio_iff M linear_math_ok (repeat 0%Q 400) 16000
                           ltac:(reflexivity) ltac:(discriminate)))).
    discriminate.
Defined.

(** ** Orchestration *)

Section DecoderTotality.

Context {R : Runtime}.
Variable run : DecoderCall.
Hypothesis run_nonempty : forall f t s1 s2, logits (run f t s1 s2) <> [].

Lemma prediction_total enc_frame st : exists p, prediction run enc_frame st = Ok p.
Proof.
  unfold prediction.
  pose proof (run_nonempty enc_frame (last_token st) (state1 st) (state2 st)) as H.
  destruct (logits (run enc_frame (last_token st) (state1 st) (state2 st)))
    as [|x xs]; [contradiction|].
  unfold py_slice, clip_bound, VOCAB_SIZE. cbn [length].
  destruct (Z.ltb_spec 0 0); [lia|]. destruct (Z.ltb_spec 1025 0); [lia|].
  replace (Z.to_nat (Z.min 1025 (Z.of_nat (S (length xs))) -
                     Z.min 0 (Z.of_nat (S (length xs)))))
    with (S (Z.to_nat (Z.min 1025 (Z.of_nat (S (length xs))) - 1))) by lia.
  replace (Z.to_nat (Z.min 0 (Z.of_nat (S (length xs))))) with O by lia.
  cbn [skipn firstn np_argmax]. eauto.
Qed.

Lemma sym_loop_total n : forall enc_frame st tokens,
  exists r, sym_loop run n enc_frame st tokens = Ok r.
Proof.
  induction n as [|n IH]; intros enc_frame st tokens; cbn [sym_loop]; [eauto|].
  destruct (prediction_total enc_frame st) as (p & E).
  destruct (Z.eq_dec p BLANK_ID) as [->|Hp].
  - rewrite sym_step_blank by exact E. cbn [bind]. eauto.
  - rewrite (sym_step_nonblank run _ _ _ _ E Hp). cbn [bind]. apply IH.
Qed.

Lemma decode_frames_total max_sym frames : forall st tokens,
  exists r, decode_frames run max_sym frames st tokens = Ok r.
Proof.
  unfold decode_frames.
  induction frames as [|f frames IH]; intros st tokens; cbn [for_each fst snd];
    [eauto|].
  destruct (sym_loop_total (Z.to_nat max_sym) f st tokens) as ([s t] & ->).
  cbn [bind fst snd]. apply IH.
Qed.

End DecoderTotality.

Section OrchestratorProofs.

Context {M : MathLib} {R : Runtime}.

Lemma chunk_loop_step fuel report min_len chunk_samples pcm offset w :
  chunk_loop (S fuel) report min_len chunk_samples pcm offset w =
  if offset <? Z.of_nat (length pcm) then
    if guard_hit min_len (Z.of_nat (length (raw_chunk chunk_samples pcm offset)))
    then Ok w
    else w' <- process_chunk report (chunk_at chunk_samples pcm offset) w ;;
         chunk_loop fuel report min_len chunk_samples pcm (offset + chunk_samples) w'
  else Ok w.
Proof. reflexivity. Qed.

Lemma raw_chunk_length chunk_samples pcm offset :
  0 < chunk_samples -> 0 <= offset < Z.of_nat (length pcm) ->
  Z.of_nat (length (raw_chunk chunk_samples pcm offset)) =
  Z.min chunk_samples (Z.of_nat (length pcm) - offset).
Proof.
  intros Hcs Hoff. unfold raw_chunk. rewrite py_slice_length by lia. lia.
Qed.

Lemma chunk_at_length chunk_samples pcm offset :
  0 < chunk_samples -> 0 <= offset < Z.of_nat (length pcm) ->
  Z.of_nat (length (chunk_at chunk_samples pcm offset)) = chunk_samples.
Proof.
  intros Hcs Hoff. unfold chunk_at.
  pose proof (raw_chunk_length chunk_samples pcm offset Hcs Hoff) as Hraw.
  destruct (Z.ltb_spec (Z.of_nat (length (raw_chunk chunk_samples pcm offset)))
                       chunk_samples).
  - unfold np_pad_right. rewrite length_app, repeat_length. lia.
  - lia.
Qed.

(** What one successful [process_chunk] does to the world. *)
Lemma process_chunk_Ok report chunk w w' :
  process_chunk report chunk w = Ok w' ->
  exists features num_frames toks,
    compute_features_rust_style (map inject_Z chunk) REQUIRED_SAMPLE_RATE
      = Ok (features, num_frames) /\
    let o := enc_sess_run features num_frames
               (cache_channel w) (cache_time w) (cache_channel_len w) in
    world_cache w' = {| last_channel := cache_last_channel_next o;
                        last_time := cache_last_time_next o;
                        valid_length := cache_last_channel_next_len o |} /\
    enc_calls w' = enc_calls w ++
      [{| cache_in := world_cache w; cache_out := world_cache w';
          frames_out := outputs o |}] /\
    decode_frames verify_streaming_call MAX_SYMBOLS_PER_STEP (outputs o) (dec w) []
      = Ok (dec w', toks) /\
    emitted w' = emitted w ++ toks /\
    fed w' = fed w ++ [chunk].
Proof.
  unfold process_chunk. intros H.
  apply bind_Ok in H as ([features num_frames] & Ef & H). cbn [fst snd] in H.
  apply bind_Ok in H as (_ & _ & H).
  apply bind_Ok in H as (audio & Ea & H).
  unfold np_reshape2 in Ea.
  destruct (Z.of_nat (length features) =? NUM_MEL_BINS * num_frames);
    [|discriminate].
  inversion Ea; subst audio; clear Ea.
  apply bind_Ok in H as (_ & _ & H).
  apply bind_Ok in H as (_ & _ & H).
  apply bind_Ok in H as ([st toks] & Ed & H). cbn [fst snd] in H.
  inversion H; subst w'; clear H.
  exists features, num_frames, toks. cbn.
  repeat split; try reflexivity; assumption.
Qed.

(** A first pass that returned went through its reports: the encoder gave
    at least one frame. *)
Lemma process_chunk_reported chunk w w' :
  process_chunk true chunk w = Ok w' ->
  exists call, enc_calls w' = enc_calls w ++ [call] /\ frames_out call <> [].
Proof.
  unfold process_chunk. intros H.
  apply bind_Ok in H as ([features num_frames] & Ef & H). cbn [fst snd] in H.
  apply bind_Ok in H as (_ & _ & H).
  apply bind_Ok in H as (audio & Ea & H).
  apply bind_Ok in H as (u & Er & H).
  apply bind_Ok in H as (_ & _ & H).
  apply bind_Ok in H as ([st toks] & Ed & H). cbn [fst snd] in H.
  inversion H; subst w'; clear H. cbn [enc_calls].
  eexists. split; [reflexivity|]. cbn [frames_out].
  intros E. rewrite E in Er. discriminate.
Qed.

Lemma first_call_report_total (HR : RuntimeOK R) encoder_out st :
  first_call_report encoder_out st = Ok tt.
Proof.
  unfold first_call_report. destruct encoder_out as [|f fs]; [reflexivity|].
  pose proof (dec_logits_nonempty f (last_token st) (state1 st) (state2 st)) as H.
  destruct (logits (dec_sess_run f (last_token st) (state1 st) (state2 st)))
    as [|x xs]; [contradiction|].
  unfold py_slice, clip_bound, VOCAB_SIZE. cbn [length].
  destruct (Z.ltb_spec 0 0); [lia|]. destruct (Z.ltb_spec 1025 0); [lia|].
  replace (Z.to_nat (Z.min 1025 (Z.of_nat (S (length xs))) -
                     Z.min 0 (Z.of_nat (S (length xs)))))
    with (S (Z.to_nat (Z.min 1025 (Z.of_nat (S (length xs))) - 1))) by lia.
  replace (Z.to_nat (Z.min 0 (Z.of_nat (S (length xs))))) with O by lia.
  reflexivity.
Qed.

Context {HM : MathLibOK M} {HR : RuntimeOK R}.

Lemma process_chunk_total report chunk w :
  400 <= Z.of_nat (length chunk) ->
  (report = true -> EncoderOK R) ->
  exists w', process_chunk report chunk w = Ok w'.
Proof.
  intros Hlen Hrep. unfold process_chunk.
  destruct (compute_features_total (map inject_Z chunk) REQUIRED_SAMPLE_RATE)
    as (features & -> & Hfeat).
  - reflexivity.
  - discriminate.
  - rewrite length_map. exact Hlen.
  - cbn [bind fst snd].
    assert (Hf : (if report then np_reduce features else Ok tt) = Ok tt).
    { destruct report; [|reflexivity].
      destruct features as [|x xs]; [|reflexivity].
      exfalso. cbn [length] in Hfeat. rewrite length_map in Hfeat.
      change (window_size_of REQUIRED_SAMPLE_RATE) with 400 in Hfeat.
      change (hop_size_of REQUIRED_SAMPLE_RATE) with 160 in Hfeat.
      assert (0 <= (Z.of_nat (length chunk) - 400) / 160)
        by (apply Z.div_pos; lia).
      unfold NUM_MEL_BINS in Hfeat. lia. }
    rewrite Hf. cbn [bind]. unfold np_reshape2.
    rewrite Hfeat, Z.eqb_refl. cbn [bind].
    match goal with
    | |- context [np_reduce ?o] =>
        assert (Ho : (if report then np_reduce o else Ok tt) = Ok tt)
    end.
    { destruct report; [|reflexivity].
      pose proof (@enc_frames_nonempty R (Hrep eq_refl)) as Hne.
      match goal with
      | |- np_reduce ?o = _ => destruct o eqn:Eo; [|reflexivity]
      end.
      exfalso. eapply Hne. exact Eo. }
    rewrite Ho. cbn [bind].
    match goal with
    | |- context [first_call_report ?o ?st] =>
        assert (Hr : (if report then first_call_report o st else Ok tt) = Ok tt)
          by (destruct report; [apply (first_call_report_total HR)|reflexivity])
    end.
    rewrite Hr. cbn [bind].
    match goal with
    | |- context [decode_frames ?r ?k ?fs ?s ?t] =>
        destruct (decode_frames_total r dec_logits_nonempty k fs s t) as (x & ->)
    end.
    cbn [bind]. eauto.
Qed.

End OrchestratorProofs.

Section LoopProofs.

Context {M : MathLib} {R : Runtime}.

Variables (report : bool) (min_len : option Z) (chunk_samples : Z) (pcm : list Z).
Hypothesis chunk_samples_pos : 0 < chunk_samples.

Let len : Z := Z.of_nat (length pcm).

(** An invariant kept by every processed chunk holds when the loop
    returns. *)
Lemma chunk_loop_partial (I : Z -> World -> Prop) :
  (forall offset w w',
      0 <= offset < len ->
      guard_hit min_len (Z.of_nat (length (raw_chunk chunk_samples pcm offset))) = false ->
      I offset w ->
      process_chunk report (chunk_at chunk_samples pcm offset) w = Ok w' ->
      I (offset + chunk_samples) w') ->
  forall fuel offset w w',
    0 <= offset -> I offset w ->
    chunk_loop fuel report min_len chunk_samples pcm offset w = Ok w' ->
    exists offset', offset <= offset' /\ I offset' w' /\
                    loop_exit min_len chunk_samples pcm offset'.
Proof.
  intros Hstep. induction fuel as [|fuel IH]; intros offset w w' Hoff Hinv H.
  - discriminate.
  - rewrite chunk_loop_step in H. fold len in H.
    destruct (Z.ltb_spec offset len) as [Hlt|Hge].
    + destruct (guard_hit min_len _) eqn:G.
      * inversion H; subst w'. exists offset. unfold loop_exit. fold len. auto with zarith.
      * apply bind_Ok in H as (w1 & E & H).
        destruct (IH (offset + chunk_samples) w1 w') as (o' & Ho & Hi & He);
          [lia | eapply (Hstep offset w w1); eauto; lia | exact H |].
        exists o'. split; [lia|]. auto.
    + inversion H; subst w'. exists offset. unfold loop_exit. fold len. auto with zarith.
Qed.

(** With enough fuel the loop returns, provided every chunk it reaches is
    processed without an exception. *)
Lemma chunk_loop_total :
  (forall offset w,
      0 <= offset < len ->
      guard_hit min_len (Z.of_nat (length (raw_chunk chunk_samples pcm offset))) = false ->
      exists w', process_chunk report (chunk_at chunk_samples pcm offset) w = Ok w') ->
  forall fuel offset w,
    0 <= offset -> (Z.to_nat (len - offset) < fuel)%nat ->
    exists w', chunk_loop fuel report min_len chunk_samples pcm offset w = Ok w'.
Proof.
  intros Hstep. induction fuel as [|fuel IH]; intros offset w Hoff Hfuel; [lia|].
  rewrite chunk_loop_step. fold len.
  destruct (Z.ltb_spec offset len) as [Hlt|Hge]; [|eauto].
  destruct (guard_hit min_len _) eqn:G; [eauto|].
  destruct (Hstep offset w (conj Hoff Hlt) G) as (w1 & ->). cbn [bind].
  apply IH; lia.
Qed.

End LoopProofs.

(** ** Claims about the orchestration *)

Section CacheThreading.

Context {M : MathLib} {R : Runtime}.







End CacheThreading.

Section StreamProofs.

Context {M : MathLib} {R : Runtime}.

Lemma concat_snoc {A} (l : list (list A)) (x : list A) :
  concat (l ++ [x]) = concat l ++ x.
Proof. rewrite concat_app. cbn [concat]. now rewrite app_nil_r. Qed.

Lemma firstn_add {A} (a b : nat) (l : list A) :
  firstn a l ++ firstn b (skipn a l) = firstn (a + b) l.
Proof.
  revert l. induction a as [|a IH]; intros l; [reflexivity|].
  destruct l as [|x l]; cbn [firstn skipn Nat.add app].
  - now rewrite firstn_nil.
  - now rewrite IH.
Qed.

(** The samples fed so far, after the iteration at [offset]. *)
Lemma fed_prefix_step chunk_samples (pcm : list Z) offset :
  0 < chunk_samples -> 0 <= offset < Z.of_nat (length pcm) ->
  firstn (Z.to_nat offset) pcm ++ chunk_at chunk_samples pcm offset =
  firstn (Z.to_nat (offset + chunk_samples)) pcm ++
  repeat 0 (Z.to_nat (offset + chunk_samples - Z.of_nat (length pcm))).
Proof.
  intros Hcs Hoff. unfold chunk_at.
  pose proof (raw_chunk_length chunk_samples pcm offset Hcs Hoff) as Hraw.
  rewrite Hraw. unfold raw_chunk, py_slice, clip_bound.
  destruct (Z.ltb_spec offset 0); [lia|].
  destruct (Z.ltb_spec (Z.min (offset + chunk_samples) (Z.of_nat (length pcm))) 0);
    [lia|].
  destruct (Z.ltb_spec (Z.min chunk_samples (Z.of_nat (length pcm) - offset))
                       chunk_samples) as [Hshort|Hfull].
  - unfold np_pad_right.
    rewrite (firstn_all2 (n := Z.to_nat (offset + chunk_samples))) by lia.
    replace (Z.to_nat (Z.min offset (Z.of_nat (length pcm)))) with (Z.to_nat offset)
      by lia.
    rewrite (firstn_all2 (skipn (Z.to_nat offset) pcm))
      by (rewrite length_skipn; lia).
    rewrite app_assoc, firstn_skipn. f_equal. f_equal. lia.
  - replace (Z.to_nat (offset + chunk_samples - Z.of_nat (length pcm))) with O by lia.
    cbn [repeat]. rewrite app_nil_r.
    replace (Z.to_nat (Z.min offset (Z.of_nat (length pcm)))) with (Z.to_nat offset)
      by lia.
    rewrite firstn_add. f_equal. lia.
Qed.

Lemma fed_inv_step report min_len chunk_samples pcm offset w w' :
  0 < chunk_samples -> 0 <= offset < Z.of_nat (length pcm) ->
  guard_hit min_len (Z.of_nat (length (raw_chunk chunk_samples pcm offset))) = false ->
  fed_inv min_len chunk_samples pcm offset w ->
  process_chunk report (chunk_at chunk_samples pcm offset) w = Ok w' ->
  fed_inv min_len chunk_samples pcm (offset + chunk_samples) w'.
Proof.
  intros Hcs Hoff Hg (Hc & Hl & Hm & _) H.
  apply process_chunk_Ok in H as (_ & _ & _ & _ & _ & _ & _ & _ & Hfed).
  unfold fed_inv. rewrite Hfed. split; [|split; [|split]].
  - rewrite concat_snoc, Hc.
    replace (Z.to_nat (offset - Z.of_nat (length pcm))) with O by lia.
    cbn [repeat]. rewrite app_nil_r. now apply fed_prefix_step.
  - apply Forall_app. split; [exact Hl|]. constructor; [|constructor].
    now apply chunk_at_length.
  - rewrite <- (Z.mul_1_l chunk_samples) at 1. rewrite Z.mod_add by lia. exact Hm.
  - intros m -> Hpast. cbn [guard_hit] in Hg.
    rewrite raw_chunk_length in Hg by assumption.
    apply Z.ltb_ge in Hg. lia.
Qed.

Lemma fed_inv_init min_len chunk_samples pcm :
  0 < chunk_samples -> fed_inv min_len chunk_samples pcm 0 init_world.
Proof.
  intros H. unfold fed_inv. cbn [fed init_world concat firstn Z.to_nat].
  split; [|split; [|split]].
  - replace (Z.to_nat (0 - Z.of_nat (length pcm))) with O by lia. reflexivity.
  - constructor.
  - now apply Z.mod_0_l, Z.neq_sym, Z.lt_neq.
  - intros m _ Hneg. lia.
Qed.

Lemma continuous_inv_init : continuous_inv init_world.
Proof. reflexivity. Qed.

Lemma continuous_inv_step report chunk w w' :
  continuous_inv w -> process_chunk report chunk w = Ok w' -> continuous_inv w'.
Proof.
  unfold continuous_inv. intros Hinv H.
  apply process_chunk_Ok in H
    as (features & num_frames & toks & _ & _ & He & Hd & Hem & _).
  cbv zeta in He, Hd. rewrite He, Hem, map_app. cbn [map frames_out].
  rewrite concat_snoc, decode_frames_app, Hinv. cbn [bind fst snd].
  rewrite decode_frames_prefix, Hd. reflexivity.
Qed.

End StreamProofs.

Lemma stub_runtime_ok frames policy : RuntimeOK (stub_runtime frames policy).
Proof.
  constructor; intros f t s1 s2 H; cbn in H; unfold one_hot in H;
    apply app_eq_nil in H as (_ & H); discriminate.
Qed.

Lemma stub_encoder_ok frames policy :
  frames <> [] -> EncoderOK (stub_runtime frames policy).
Proof. intros H. constructor; intros; cbn; exact H. Qed.

Lemma stub_debug_encoder_ok frames policy :
  frames <> [] -> DebugEncoderOK (stub_runtime frames policy).
Proof. intros H. constructor; intros; cbn; exact H. Qed.

Section StreamTotality.

Context {M : MathLib} {R : Runtime} {HM : MathLibOK M} {HR : RuntimeOK R}.

Lemma pass_total report min_len chunk_samples pcm :
  400 <= chunk_samples ->
  (report = true -> EncoderOK R) ->
  exists w,
    chunk_loop (S (length pcm)) report min_len chunk_samples pcm 0 init_world = Ok w.
Proof.
  intros Hcs Hrep. apply chunk_loop_total; [lia| |lia|lia].
  intros offset w Hoff _. apply process_chunk_total; [|exact Hrep].
  rewrite chunk_at_length by lia. exact Hcs.
Qed.

Lemma stream_1s_total (HE : EncoderOK R) pcm : exists w, stream_1s pcm = Ok w.
Proof. apply pass_total; [unfold REQUIRED_SAMPLE_RATE; lia|intros _; exact HE]. Qed.

Lemma stream_2500ms_total pcm : exists w, stream_2500ms pcm = Ok w.
Proof. apply pass_total; [lia|discriminate]. Qed.

End StreamTotality.

(** The decoder state of [verify_streaming.py] survives chunk boundaries:
    what a pass emits, and the state it ends in, is what one greedy decode
    from the initial state yields over the frames of all chunks taken
    together. *)
Theorem decoder_state_persists {M : MathLib} {R : Runtime} (pcm : list Z) (w : World) :
  stream_1s pcm = Ok w \/ stream_2500ms pcm = Ok w ->
  decode_frames verify_streaming_call MAX_SYMBOLS_PER_STEP
                (concat (map frames_out (enc_calls w))) init_decoder []
  = Ok (dec w, emitted w).
Proof.
  intros [H|H];
    (eapply (chunk_loop_partial _ _ _ pcm) with (I := fun _ w => continuous_inv w) in H;
     [destruct H as (_ & _ & H & _); exact H
     | unfold REQUIRED_SAMPLE_RATE; lia
     | intros offset w0 w1 _ _ Hi Hp; eapply continuous_inv_step; eauto
     | lia
     | apply continuous_inv_init]).
Qed.

(** Hence, in [verify_streaming.py], the tokens of a whole pass are
    non-blank vocabulary ids and [last_token] is the latest of them. *)
Theorem stream_tokens_are_vocabulary {M : MathLib} {R : Runtime}
    (pcm : list Z) (w : World) :
  stream_1s pcm = Ok w \/ stream_2500ms pcm = Ok w ->
  decoder_inv (dec w) (emitted w).
Proof.
  intros H. apply decoder_state_persists in H.
  eapply decode_frames_inv in H; [exact H|].
  split; [constructor | reflexivity].
Qed.

(** C1. Decoder state across chunks, [debug_features2.py] TEST 2.  Two
    one-second chunks, each encoded to one frame; the decoder stub emits
    token 5 when it is fed the blank id as last token and blank otherwise.
    Decoded as one stream (state carried over) the two frames give [5];
    the chunk loop gives [5; 5], because [greedy_decode] starts every chunk
    from zero states and [last_tok = 1024]. *)
Theorem debug_streaming_resets_decoder :
  let M := linear_math in
  let R := stub_runtime [0] once_after_blank in
  (exists w, debug_streaming (repeat 0 (Z.to_nat 32000)) = Ok w /\
             all_tokens w = [5; 5]) /\
  decode_frames debug_call 10 [0; 0] init_decoder [] =
    Ok ({| state1 := 1; state2 := 1; last_token := 5 |}, [5]).
Proof.
  intros M R. split.
  - eexists. split; [vm_compute; reflexivity | reflexivity].
  - vm_compute. reflexivity.
Qed.



(** C5, as stated, fails on the second pass of [verify_streaming.py]: a
    stream of 100 samples is left by the guard [len(chunk) < 400] without a
    single chunk reaching feature extraction. *)
Lemma short_tail_is_dropped :
  let M := linear_math in
  let R := stub_runtime [0] always_blank in
  stream_2500ms (repeat 7 100) = Ok init_world /\
  ~ stream_fully_fed (repeat 7 100) init_world.
Proof.
  intros M R. split.
  - vm_compute. reflexivity.
  - intros ((pad & H) & _). cbn in H. discriminate.
Qed.


(** The chunk loop of [debug_features2.py] has the same guard: of 16100
    samples the first 16000 are processed and the loop ends before the
    last 100. *)
Lemma debug_streaming_drops_short_tail :
  let M := linear_math in
  let R := stub_runtime [0] always_blank in
  exists w,
    debug_streaming (repeat 7 (Z.to_nat 16100)) = Ok w /\
    concat (chunks_seen w) = repeat 7 (Z.to_nat 16000).
Proof. intros M R. eexists. split; vm_compute; reflexivity. Qed.

(** ** The chunk loop of [debug_features2.py] *)

Lemma py_slice_clip {A} (xs : list A) (a b : Z) :
  0 <= a <= b ->
  py_slice xs a b = py_slice xs a (Z.min b (Z.of_nat (length xs))).
Proof.
  intros H. unfold py_slice, clip_bound.
  destruct (Z.ltb_spec a 0); [lia|]. destruct (Z.ltb_spec b 0); [lia|].
  destruct (Z.ltb_spec (Z.min b (Z.of_nat (length xs))) 0); [lia|].
  f_equal. f_equal. lia.
Qed.

Section DebugChunks.

Context {M : MathLib} {R : Runtime}.

Variables (audio : list Z) (cs ws : Z).
Hypothesis ws_range : 0 < ws <= cs.

Let len : Z := Z.of_nat (length audio).

Lemma debug_slice_is_raw_chunk (i : Z) :
  0 <= i -> py_slice audio i (i + cs) = raw_chunk cs audio i.
Proof. intros Hi. unfold raw_chunk. apply py_slice_clip. lia. Qed.

Lemma greedy_decode_total (HR : RuntimeOK R) (encoded : list Frame) :
  exists toks, greedy_decode encoded = Ok toks.
Proof.
  unfold greedy_decode.
  destruct (decode_frames_total debug_call
              (fun f => sess_dec_logits_nonempty (transpose_021 f))
              10 encoded init_decoder []) as (r & ->).
  cbn [bind]. eauto.
Qed.

Lemma debug_chunks_cons (i : Z) (rest : list Z) (w : DebugWorld) :
  0 <= i ->
  debug_chunks (i :: rest) audio cs ws w =
  if Z.of_nat (length (raw_chunk cs audio i)) <? ws then Ok w
  else
    let chunk := chunk_at cs audio i in
    let fn := compute_features_normalized chunk in
    let o := run_encoder (fst fn) (snd fn) (cache_ch w) (cache_t w) (cache_ch_len w) in
    toks <- greedy_decode (outputs o) ;;
    _ <- np_reduce (outputs o) ;;
    debug_chunks rest audio cs ws
      {| cache_ch := cache_last_channel_next o;
         cache_t := cache_last_time_next o;
         cache_ch_len := cache_last_channel_next_len o;
         all_tokens := all_tokens w ++ toks;
         chunks_seen := chunks_seen w ++ [chunk] |}.
Proof.
  intros Hi. cbn [debug_chunks]. unfold chunk_at.
  now rewrite debug_slice_is_raw_chunk by exact Hi.
Qed.

Lemma debug_offsets_in_range (a n : nat) :
  (a + S n)%nat = Z.to_nat ((len + cs - 1) / cs) ->
  0 <= Z.of_nat a * cs < len.
Proof.
  intros Han.
  assert (Hlen : 0 <= len) by (unfold len; lia).
  assert (HN : Z.of_nat a + 1 <= (len + cs - 1) / cs) by lia.
  pose proof (Z.mul_div_le (len + cs - 1) cs ltac:(lia)) as Hle.
  assert (cs * (Z.of_nat a + 1) <= cs * ((len + cs - 1) / cs))
    by (apply Z.mul_le_mono_nonneg_l; lia).
  split; [apply Z.mul_nonneg_nonneg; lia|lia].
Qed.

(** The loop keeps [debug_inv] and stops at a [debug_exit]. *)
Lemma debug_chunks_partial : forall (n a : nat) (w w' : DebugWorld),
  (a + n)%nat = Z.to_nat ((len + cs - 1) / cs) ->
  debug_inv ws cs audio (Z.of_nat a) w ->
  debug_chunks (map (fun k => Z.of_nat k * cs) (seq a n)) audio cs ws w = Ok w' ->
  exists a', debug_inv ws cs audio a' w' /\ debug_exit ws cs audio a'.
Proof.
  induction n as [|n IH]; intros a w w' Han Hinv H.
  - cbn [seq map debug_chunks] in H. injection H as <-.
    exists (Z.of_nat a). split; [exact Hinv|]. left. fold len.
    assert (Hlen : 0 <= len) by (unfold len; lia).
    assert (Ha : Z.of_nat a = (len + cs - 1) / cs).
    { rewrite Nat.add_0_r in Han. rewrite Han. apply Z2Nat.id.
      apply Z.div_pos; lia. }
    rewrite Ha.
    pose proof (Z.mod_pos_bound (len + cs - 1) cs ltac:(lia)).
    pose proof (Z.div_mod (len + cs - 1) cs ltac:(lia)). lia.
  - pose proof (debug_offsets_in_range a n Han) as Hi.
    cbn [seq map] in H. rewrite debug_chunks_cons in H by lia.
    pose proof (raw_chunk_length cs audio (Z.of_nat a * cs) ltac:(lia) Hi) as Hraw.
    fold len in Hraw.
    destruct (Z.ltb_spec (Z.of_nat (length (raw_chunk cs audio (Z.of_nat a * cs)))) ws)
      as [Hshort|Hfull].
    + injection H as <-. exists (Z.of_nat a). split; [exact Hinv|].
      right. fold len. lia.
    + cbv zeta in H.
      apply bind_Ok in H as (toks & _ & H).
      apply bind_Ok in H as (_ & _ & H).
      apply (IH (S a)) in H; [exact H|lia|].
      destruct Hinv as (Hc & Hl & Hk & _).
      unfold debug_inv. cbn [chunks_seen]. fold len in Hc |- *.
      replace (Z.of_nat (S a) * cs) with (Z.of_nat a * cs + cs) by lia.
      split; [|split; [|split]].
      * rewrite concat_snoc, Hc.
        replace (Z.to_nat (Z.of_nat a * cs - len)) with O by lia.
        cbn [repeat]. rewrite app_nil_r.
        apply fed_prefix_step; [lia|exact Hi].
      * apply Forall_app. split; [exact Hl|]. constructor; [|constructor].
        apply chunk_at_length; [lia|exact Hi].
      * rewrite length_app. cbn [length]. lia.
      * intros _. lia.
Qed.

(** The loop returns when the sessions give the reports something to
    print. *)
Lemma debug_chunks_total (HR : RuntimeOK R) (HE : DebugEncoderOK R) :
  forall (offsets : list Z) (w : DebugWorld),
    exists w', debug_chunks offsets audio cs ws w = Ok w'.
Proof.
  induction offsets as [|i rest IH]; intros w; [cbn; eauto|].
  cbn [debug_chunks].
  destruct (_ <? ws); [eauto|].
  match goal with
  | |- context [greedy_decode ?enc] =>
      destruct (greedy_decode_total HR enc) as (toks & ->);
      pose proof (sess_enc_frames_nonempty) as Hne;
      destruct enc eqn:Eenc
  end.
  - exfalso. unfold run_encoder in Eenc. eapply Hne. exact Eenc.
  - cbn [bind np_reduce]. apply IH.
Qed.

(** Where the loop leaves a stream of [len] samples whose last chunk
    holds [r = len mod cs] samples. *)
Lemma debug_outcome (a : Z) (w : DebugWorld) :
  debug_inv ws cs audio a w -> debug_exit ws cs audio a ->
  let r := len mod cs in
  a = len / cs + (if ws <=? r then 1 else 0) /\
  ((r = 0 \/ ws <= r) ->
   exists pad, concat (chunks_seen w) = audio ++ repeat 0 pad) /\
  (0 < r < ws ->
   concat (chunks_seen w) = firstn (Z.to_nat (len - r)) audio).
Proof.
  intros (Hc & Hl & Hk & Hpast) Hexit r. fold len in Hc, Hpast.
  assert (Hlen : 0 <= len) by (unfold len; lia).
  assert (Ha : 0 <= a) by lia.
  assert (Hdm : forall q r', len = cs * q + r' -> 0 <= r' < cs ->
            len / cs = q /\ r = r').
  { intros q r' Hd Hr. split.
    - symmetry. apply (Z.div_unique len cs q r'); lia.
    - unfold r. symmetry. apply (Z.mod_unique len cs q r'); lia. }
  unfold debug_exit in Hexit. fold len in Hexit.
  destruct Hexit as [Hend|(Hin & Hshort)].
  - destruct (Z.eq_dec len (a * cs)) as [Heq|Hne].
    + destruct (Hdm a 0 ltac:(lia) ltac:(lia)) as (-> & ->).
      destruct (Z.leb_spec ws 0); [lia|].
      split; [lia|]. split; [|lia]. intros _.
      exists (Z.to_nat (a * cs - len)). rewrite Hc.
      now rewrite firstn_all2 by lia.
    + specialize (Hpast ltac:(lia)).
      destruct (Hdm (a - 1) (len - a * cs + cs) ltac:(lia) ltac:(lia)) as (-> & ->).
      destruct (Z.leb_spec ws (len - a * cs + cs)); [|lia].
      split; [lia|]. split; [|lia]. intros _.
      exists (Z.to_nat (a * cs - len)). rewrite Hc.
      now rewrite firstn_all2 by lia.
  - destruct (Hdm a (len - a * cs) ltac:(lia) ltac:(lia)) as (-> & ->).
    destruct (Z.leb_spec ws (len - a * cs)); [lia|].
    split; [lia|]. split; [lia|]. intros _.
    rewrite Hc. replace (Z.to_nat (a * cs - len)) with O by lia.
    cbn [repeat]. rewrite app_nil_r. f_equal. lia.
Qed.

End DebugChunks.

Lemma debug_inv_init {R : Runtime} ws cs audio :
  debug_inv ws cs audio 0 init_debug_world.
Proof.
  unfold debug_inv. cbn [init_debug_world chunks_seen concat length].
  rewrite Z.mul_0_l. cbn [Z.to_nat firstn app Z.of_nat].
  replace (Z.to_nat (0 - Z.of_nat (length audio))) with O by lia.
  repeat split; try reflexivity; try constructor. lia.
Qed.

(** A completed run of the loop, summed up. *)
Lemma debug_streaming_outcome {M : MathLib} {R : Runtime} (audio : list Z)
    (w : DebugWorld) :
  debug_streaming audio = Ok w ->
  let len := Z.of_nat (length audio) in
  let r := len mod 16000 in
  Forall (fun c => Z.of_nat (length c) = 16000) (chunks_seen w) /\
  Z.of_nat (length (chunks_seen w)) = len / 16000 + (if 400 <=? r then 1 else 0) /\
  ((r = 0 \/ 400 <= r) ->
   exists pad, concat (chunks_seen w) = audio ++ repeat 0 pad) /\
  (0 < r < 400 ->
   concat (chunks_seen w) = firstn (Z.to_nat (len - r)) audio).
Proof.
  intros E len r. unfold debug_streaming, py_range_step in E.
  apply (debug_chunks_partial audio 16000 400 ltac:(lia)) in E;
    [|reflexivity|apply debug_inv_init].
  destruct E as (a & Hinv & Hexit).
  destruct (debug_outcome audio 16000 400 ltac:(lia) a w Hinv Hexit)
    as (Ha & Hfull & Hshort).
  destruct Hinv as (_ & Hl & Hk & _).
  split; [exact Hl|]. split; [now rewrite Hk|]. split; assumption.
Qed.

Section TrailingChunk.

Context {M : MathLib} {R : Runtime}.

Lemma fed_inv_past_end min_len cs pcm offset w :
  400 <= cs -> Z.of_nat (length pcm) <= offset ->
  fed_inv min_len cs pcm offset w -> stream_fully_fed pcm w.
Proof.
  intros Hcs Hoff (Hc & Hl & _). split.
  - exists (Z.to_nat (offset - Z.of_nat (length pcm))).
    rewrite Hc. now rewrite firstn_all2 by lia.
  - eapply Forall_impl; [|exact Hl]. cbv beta. intros c Hlen. lia.
Qed.

(** Where a pass with guard [m <= cs] leaves a stream of [len] samples
    whose last chunk holds [r = len mod cs] samples. *)
Lemma guarded_pass_outcome m cs pcm offset w :
  0 < m <= cs -> 400 <= cs -> 0 <= offset ->
  fed_inv (Some m) cs pcm offset w ->
  loop_exit (Some m) cs pcm offset ->
  let len := Z.of_nat (length pcm) in
  let r := len mod cs in
  ((r = 0 \/ m <= r) -> stream_fully_fed pcm w) /\
  (0 < r < m -> concat (fed w) = firstn (Z.to_nat (len - r)) pcm).
Proof.
  intros Hm Hcs Hpos Hinv Hexit len r.
  pose proof Hinv as (Hc & Hl & Hmod & Hpast).
  assert (Hq : offset = cs * (offset / cs)) by (apply Z.div_exact; lia).
  destruct Hexit as [Hend|(Hlt & Hg)].
  - split; [intros _; eapply fed_inv_past_end; eauto|].
    intros Hr. exfalso. fold len in Hend.
    destruct (Z.eq_dec len offset) as [E|Hne].
    + assert (r = 0); [|lia].
      unfold r. rewrite E. exact Hmod.
    + specialize (Hpast m eq_refl ltac:(fold len; lia)). fold len in Hpast.
      assert (Hr' : len - offset + cs = r).
      { unfold r. apply (Z.mod_unique len cs (offset / cs - 1)); [left|]; lia. }
      lia.
  - cbn [guard_hit] in Hg. rewrite raw_chunk_length in Hg by (fold len; lia).
    apply Z.ltb_lt in Hg. fold len in Hg, Hlt.
    assert (Hr' : len - offset = r).
    { unfold r. apply (Z.mod_unique len cs (offset / cs)); [left|]; lia. }
    split; [intros [H0|H1]; lia|].
    intros _. rewrite Hc. fold len.
    replace (Z.to_nat (offset - len)) with O by lia.
    cbn [repeat]. rewrite app_nil_r. f_equal. lia.
Qed.

End TrailingChunk.

(** C5, amended.  In [verify_streaming.py] the one-second pass never drops
    a trailing chunk: a last chunk shorter than the nominal 16000 samples
    is zero-padded to 16000 samples before feature extraction, so when the
    pass has completed, the chunks it fed are the whole stream followed by
    zeros.  The 2.5 s pass and the chunk loop of [debug_features2.py] feed
    chunks of 40000 and of 16000 samples; a last chunk of at least 400
    samples is zero-padded and fed like the others, a last chunk of fewer
    than 400 samples is skipped and the fed chunks then stop where that
    chunk begins.  In all three loops every fed chunk has the nominal
    size, so none is shorter than a feature window.  The one-second pass
    and the debug loop complete when the encoder returns at least one frame
    for every chunk and the decoder at least one logit for every call, the
    2.5 s pass when the decoder returns at least one logit for every
    call (and the mathematical library behaves as [MathLibOK] says). *)
Theorem trailing_chunk_policy {M : MathLib} {R : Runtime} (pcm : list Z) :
  let len := Z.of_nat (length pcm) in
  (forall w, stream_1s pcm = Ok w ->
     Forall (fun c => Z.of_nat (length c) = 16000) (fed w) /\
     stream_fully_fed pcm w) /\
  (forall w, stream_2500ms pcm = Ok w ->
     Forall (fun c => Z.of_nat (length c) = 40000) (fed w) /\
     let r := len mod 40000 in
     ((r = 0 \/ 400 <= r) -> stream_fully_fed pcm w) /\
     (0 < r < 400 -> concat (fed w) = firstn (Z.to_nat (len - r)) pcm)) /\
  (forall w, debug_streaming pcm = Ok w ->
     Forall (fun c => Z.of_nat (length c) = 16000) (chunks_seen w) /\
     let r := len mod 16000 in
     ((r = 0 \/ 400 <= r) -> debug_fully_fed pcm w) /\
     (0 < r < 400 ->
      concat (chunks_seen w) = firstn (Z.to_nat (len - r)) pcm)) /\
  (MathLibOK M -> RuntimeOK R ->
   (EncoderOK R -> exists w, stream_1s pcm = Ok w) /\
   (exists w, stream_2500ms pcm = Ok w)) /\
  (RuntimeOK R -> DebugEncoderOK R -> exists w, debug_streaming pcm = Ok w).
Proof.
  intros len. split; [|split; [|split; [|split]]].
  - intros w E. unfold stream_1s in E.
    eapply (chunk_loop_partial _ _ _ pcm)
      with (I := fed_inv None REQUIRED_SAMPLE_RATE pcm) in E.
    + destruct E as (offset' & _ & Hinv & [Hend|(_ & Hg)]); [|discriminate].
      split; [exact (proj1 (proj2 Hinv))|].
      eapply fed_inv_past_end; [|exact Hend|exact Hinv].
      unfold REQUIRED_SAMPLE_RATE. lia.
    + unfold REQUIRED_SAMPLE_RATE. lia.
    + intros offset w0 w1 Hoff Hg Hi Hp.
      eapply fed_inv_step; eauto. unfold REQUIRED_SAMPLE_RATE. lia.
    + lia.
    + apply fed_inv_init. unfold REQUIRED_SAMPLE_RATE. lia.
  - intros w E. unfold stream_2500ms in E.
    eapply (chunk_loop_partial _ _ _ pcm) with (I := fed_inv (Some 400) 40000 pcm) in E.
    + destruct E as (offset' & Hpos & Hinv & Hexit).
      split; [exact (proj1 (proj2 Hinv))|].
      apply (guarded_pass_outcome 400 40000 pcm offset' w); try assumption; lia.
    + lia.
    + intros offset w0 w1 Hoff Hg Hi Hp. eapply fed_inv_step; eauto. lia.
    + lia.
    + apply fed_inv_init. lia.
  - intros w E.
    destruct (debug_streaming_outcome pcm w E) as (Hl & _ & Hfull & Hshort).
    split; [exact Hl|]. cbv zeta. split; [|exact Hshort].
    intros Hr. split; [now apply Hfull|].
    eapply Forall_impl; [|exact Hl]. cbv beta. intros c Hc. lia.
  - intros HM HR. split.
    + intros HE. now apply stream_1s_total.
    + apply stream_2500ms_total.
  - intros HR HE. unfold debug_streaming. now apply debug_chunks_total.
Qed.

Lemma trailing_chunk_policy_witness :
  let M := linear_math in
  let R := stub_runtime [0] always_blank in
  let pcm := repeat 7 100 in
  (exists w, stream_1s pcm = Ok w /\ stream_fully_fed pcm w) /\
  (exists w, stream_2500ms pcm = Ok w /\
     concat (fed w) = firstn (Z.to_nat (100 - 100)) pcm).
Proof.
  intros M R pcm.
  destruct (@trailing_chunk_policy M R pcm) as (H1 & H2 & _ & Ht & _).
  destruct (Ht linear_math_ok (stub_runtime_ok _ _)) as (T1 & w2 & E2).
  destruct (T1 (stub_encoder_ok [0] _ ltac:(discriminate))) as (w1 & E1).
  split.
  - exists w1. split; [exact E1|]. exact (proj2 (H1 w1 E1)).
  - exists w2. split; [exact E2|].
    apply (proj2 (proj2 (H2 w2 E2))). vm_compute. split; reflexivity.
Defined.

(** ** Truncation and integer samples *)

Lemma py_int_between (lo hi : Z) (x : Q) :
  (inject_Z lo <= x)%Q -> (x <= inject_Z hi)%Q -> lo <= py_int x <= hi.
Proof.
  intros Hlo Hhi. unfold py_int.
  destruct (Qle_bool 0 x).
  - apply Qfloor_resp_le in Hlo, Hhi. rewrite Qfloor_Z in Hlo, Hhi. lia.
  - apply Qceiling_resp_le in Hlo, Hhi. rewrite Qceiling_Z in Hlo, Hhi. lia.
Qed.

Lemma py_int_comp (x y : Q) : (x == y)%Q -> py_int x = py_int y.
Proof.
  intros E. unfold py_int.
  rewrite (Qleb_comp 0%Q 0%Q (Qeq_refl 0%Q) x y E).
  now rewrite (Qfloor_comp x y E), (Qceiling_comp x y E).
Qed.

Lemma py_int_inject (z : Z) : py_int (inject_Z z) = z.
Proof. unfold py_int. rewrite Qfloor_Z, Qceiling_Z. now destruct (Qle_bool 0 _). Qed.

Lemma py_int_floor (x : Q) : (0 <= x)%Q -> py_int x = Qfloor x.
Proof.
  intros H. unfold py_int. destruct (Qle_bool 0 x) eqn:E; [reflexivity|].
  apply Qle_bool_iff in H. congruence.
Qed.

Lemma inject_Z_pos (z : Z) : 0 < z -> (0 < inject_Z z)%Q.
Proof. intros H. change 0%Q with (inject_Z 0). now rewrite <- Zlt_Qlt. Qed.

Lemma inject_Z_nonneg (z : Z) : 0 <= z -> (0 <= inject_Z z)%Q.
Proof. intros H. change 0%Q with (inject_Z 0). now rewrite <- Zle_Qle. Qed.

(** The floor of a quotient of integers is their floor division. *)
Lemma Qfloor_div (a b : Z) : 0 < b -> Qfloor (inject_Z a / inject_Z b) = a / b.
Proof.
  intros Hb.
  pose proof (inject_Z_pos b Hb) as Hq.
  pose proof (Z.mul_div_le a b Hb) as Hlo.
  pose proof (Z.mul_succ_div_gt a b Hb) as Hhi.
  assert (H1 : (inject_Z (a / b) <= inject_Z a / inject_Z b)%Q).
  { apply Qle_shift_div_l; [exact Hq|].
    rewrite <- inject_Z_mult. rewrite <- Zle_Qle. lia. }
  assert (H2 : (inject_Z a / inject_Z b < inject_Z (a / b + 1))%Q).
  { apply Qlt_shift_div_r; [exact Hq|].
    rewrite <- inject_Z_mult. rewrite <- Zlt_Qlt. lia. }
  apply Qfloor_resp_le in H1. rewrite Qfloor_Z in H1.
  pose proof (Qfloor_le (inject_Z a / inject_Z b)) as H3.
  assert (H4 : (inject_Z (Qfloor (inject_Z a / inject_Z b)) < inject_Z (a / b + 1))%Q)
    by (eapply Qle_lt_trans; eauto).
  rewrite <- Zlt_Qlt in H4. lia.
Qed.

(** ** [load_wav] *)

Lemma sum_Z_bounds (lo hi : Z) (row : list Z) :
  Forall (fun x => lo <= x <= hi) row ->
  lo * Z.of_nat (length row) <= sum_Z row <= hi * Z.of_nat (length row).
Proof.
  induction 1 as [|x row Hx _ IH]; cbn [sum_Z fold_right length].
  - lia.
  - fold (sum_Z row). rewrite Nat2Z.inj_succ. lia.
Qed.

(** The truncated mean of a full row stays between the bounds of its
    entries. *)
Lemma row_mean_bounds (lo hi channels : Z) (row : list Z) :
  0 < channels -> Z.of_nat (length row) = channels ->
  Forall (fun x => lo <= x <= hi) row ->
  lo <= py_int (inject_Z (sum_Z row) / inject_Z channels)%Q <= hi.
Proof.
  intros Hc Hlen Hrow.
  pose proof (sum_Z_bounds lo hi row Hrow) as Hs. rewrite Hlen in Hs.
  pose proof (inject_Z_pos channels Hc) as Hq.
  apply py_int_between.
  - apply Qle_shift_div_l; [exact Hq|].
    rewrite <- inject_Z_mult, <- Zle_Qle. lia.
  - apply Qle_shift_div_r; [exact Hq|].
    rewrite <- inject_Z_mult, <- Zle_Qle. lia.
Qed.

Lemma Forall_firstn {A} (P : A -> Prop) (n : nat) (xs : list A) :
  Forall P xs -> Forall P (firstn n xs).
Proof.
  revert xs. induction n as [|n IH]; intros xs H; cbn [firstn]; [constructor|].
  destruct H as [|x xs Hx Hxs]; constructor; auto.
Qed.

Lemma Forall_skipn {A} (P : A -> Prop) (n : nat) (xs : list A) :
  Forall P xs -> Forall P (skipn n xs).
Proof.
  revert xs. induction n as [|n IH]; intros xs H; cbn [skipn]; [exact H|].
  destruct H as [|x xs Hx Hxs]; [constructor | auto].
Qed.

Lemma rows_of_length {A} (width rows : nat) : forall xs : list A,
  length (rows_of width rows xs) = rows.
Proof.
  induction rows as [|rows IH]; intros xs; cbn [rows_of length];
    [reflexivity|now rewrite IH].
Qed.

Lemma rows_of_spec {A} (P : A -> Prop) (width rows : nat) : forall xs,
  length xs = (rows * width)%nat -> Forall P xs ->
  length (rows_of width rows xs) = rows /\
  Forall (fun row => length row = width /\ Forall P row) (rows_of width rows xs).
Proof.
  induction rows as [|rows IH]; intros xs Hlen HP; cbn [rows_of].
  - split; [reflexivity | constructor].
  - destruct (IH (skipn width xs)) as (Hl & Hr).
    + rewrite length_skipn. lia.
    + now apply Forall_skipn.
    + split; [cbn [length]; now rewrite Hl|].
      constructor; [|exact Hr]. split.
      * rewrite length_firstn. lia.
      * now apply Forall_firstn.
Qed.

Lemma downmix_spec (lo hi channels : Z) (samples : list Z) :
  1 < channels -> Z.of_nat (length samples) mod channels = 0 ->
  Forall (fun x => lo <= x <= hi) samples ->
  exists mono, downmix channels samples = Ok mono /\
    Z.of_nat (length mono) = Z.of_nat (length samples) / channels /\
    Forall (fun x => lo <= x <= hi) mono.
Proof.
  intros Hc Hmod Hall. unfold downmix, np_reshape_rows.
  destruct (Z.gtb_spec channels 1) as [_|Hle]; [|lia].
  destruct (Z.eqb_spec channels 0) as [Hz|_]; [lia|].
  rewrite Hmod. cbn [Z.eqb bind].
  set (n := Z.of_nat (length samples)) in *.
  destruct (rows_of_spec (fun x => lo <= x <= hi) (Z.to_nat channels)
              (Z.to_nat (n / channels)) samples) as (Hl & Hr).
  - assert (n = channels * (n / channels)) by (apply Z.div_exact; lia).
    assert (0 <= n / channels) by (apply Z.div_pos; lia).
    unfold n in *. nia.
  - exact Hall.
  - eexists. split; [reflexivity|]. split.
    + rewrite length_map, Hl. apply Z2Nat.id, Z.div_pos; lia.
    + apply Forall_map. eapply Forall_impl; [|exact Hr]. cbv beta.
      intros row (Hlen & Hrow). apply row_mean_bounds; [lia|lia|exact Hrow].
Qed.

Lemma le_unsigned_bound (bs : list Byte.byte) :
  0 <= le_unsigned bs < 256 ^ Z.of_nat (length bs).
Proof.
  induction bs as [|b bs IH]; cbn [le_unsigned fold_right length].
  - cbn. lia.
  - fold (le_unsigned bs). rewrite Nat2Z.inj_succ, Z.pow_succ_r by lia.
    pose proof (Byte.to_N_bounded b). lia.
Qed.

Lemma le_signed_int16 (bs : list Byte.byte) :
  length bs = 2%nat -> int16 (le_signed bs).
Proof.
  intros Hlen. unfold le_signed, int16.
  pose proof (le_unsigned_bound bs) as Hu. rewrite Hlen in *.
  change (256 ^ Z.of_nat 2) with 65536 in *.
  destruct (Z.ltb_spec (2 * le_unsigned bs) 65536); lia.
Qed.

(** What [np.frombuffer] gives, or that it fails. *)
Lemma np_frombuffer_cases (width : Z) (raw : list Byte.byte) :
  0 < width ->
  (Z.of_nat (length raw) mod width = 0 /\
   exists s, np_frombuffer width raw = Ok s /\
             Z.of_nat (length s) = Z.of_nat (length raw) / width) \/
  (Z.of_nat (length raw) mod width <> 0 /\
   np_frombuffer width raw = Err ValueError).
Proof.
  intros Hw. unfold np_frombuffer.
  destruct (Z.eqb_spec (Z.of_nat (length raw) mod width) 0) as [Hm|Hm].
  - left. split; [exact Hm|]. eexists. split; [reflexivity|].
    rewrite length_map, rows_of_length. apply Z2Nat.id, Z.div_pos; lia.
  - right. split; [exact Hm | reflexivity].
Qed.

Lemma np_frombuffer_int16 (raw : list Byte.byte) :
  Z.of_nat (length raw) mod 2 = 0 ->
  exists s, np_frombuffer 2 raw = Ok s /\ Forall int16 s /\
            Z.of_nat (length s) = Z.of_nat (length raw) / 2.
Proof.
  intros Hm. unfold np_frombuffer. rewrite Hm. cbn [Z.eqb].
  set (n := Z.of_nat (length raw)) in *.
  destruct (rows_of_spec (fun _ : Byte.byte => True) (Z.to_nat 2)
              (Z.to_nat (n / 2)) raw) as (Hl & Hr).
  - assert (n = 2 * (n / 2)) by (apply Z.div_exact; lia).
    assert (0 <= n / 2) by (apply Z.div_pos; lia).
    unfold n in *. lia.
  - apply Forall_forall. auto.
  - eexists. split; [reflexivity|]. split.
    + apply Forall_map. eapply Forall_impl; [|exact Hr]. cbv beta.
      intros row (Hlen & _). now apply le_signed_int16.
    + rewrite length_map, Hl. apply Z2Nat.id, Z.div_pos; lia.
Qed.

(** X1. For 16-bit input [load_wav] returns int16 samples, one per frame.
    When the bytes read from the file hold whole 16-bit samples, and for
    more than one channel whole frames, the decoded samples (mono) or the
    truncated means of the frames lie in the int16 range, so the final
    [astype(np.int16)] changes nothing, and there is one sample per
    frame. *)
Theorem load_wav_samples_are_int16 (scale32 : Z -> Z) (channels : Z)
    (raw : list Byte.byte) :
  Z.of_nat (length raw) mod 2 = 0 ->
  channels <= 1 \/ (Z.of_nat (length raw) / 2) mod channels = 0 ->
  exists samples,
    load_wav_samples scale32 2 channels raw = Ok samples /\
    Forall int16 samples /\
    Z.of_nat (length samples) =
      if channels >? 1 then Z.of_nat (length raw) / 2 / channels
      else Z.of_nat (length raw) / 2.
Proof.
  intros Hm Hch. unfold load_wav_samples, convert_samples.
  change (2 =? 2) with true. cbv iota.
  destruct (np_frombuffer_int16 raw Hm) as (s & -> & Hs & Hlen).
  cbn [bind]. rewrite <- Hlen.
  destruct (Z.gtb_spec channels 1) as [Hgt|Hle].
  - destruct Hch as [Hch|Hch]; [lia|]. rewrite <- Hlen in Hch.
    destruct (downmix_spec (-32768) 32767 channels s Hgt Hch Hs)
      as (mono & E & Hl & Hmono).
    exists mono. auto.
  - unfold downmix. destruct (Z.gtb_spec channels 1); [lia|]. eauto.
Qed.

Lemma load_wav_samples_are_int16_witness :
  exists samples,
    load_wav_samples (fun x => x) 2 2
      [Byte.xff; Byte.x7f; Byte.x00; Byte.x80; Byte.x03; Byte.x00; Byte.x04; Byte.x00]
      = Ok samples /\
    Forall int16 samples /\ Z.of_nat (length samples) = 2.
Proof.
  apply (load_wav_samples_are_int16 (fun x => x) 2
           [Byte.xff; Byte.x7f; Byte.x00; Byte.x80;
            Byte.x03; Byte.x00; Byte.x04; Byte.x00]).
  - reflexivity.
  - right. reflexivity.
Defined.

(** X2. Once the file has been opened and its frames read, the rest of
    [load_wav] fails only with a ValueError, and exactly when the sample
    width is neither 2 nor 4 bytes, or the bytes read do not hold whole
    samples of that width, or, for more than one channel, the samples do
    not form whole frames. *)
Theorem load_wav_samples_error_iff (scale32 : Z -> Z) (sample_width channels : Z)
    (raw : list Byte.byte) :
  (forall e, load_wav_samples scale32 sample_width channels raw = Err e ->
             e = ValueError) /\
  (load_wav_samples scale32 sample_width channels raw = Err ValueError <->
   (sample_width <> 2 /\ sample_width <> 4) \/
   ((sample_width = 2 \/ sample_width = 4) /\
    (Z.of_nat (length raw) mod sample_width <> 0 \/
     (1 < channels /\
      (Z.of_nat (length raw) / sample_width) mod channels <> 0)))).
Proof.
  assert (Hdown : forall s : list Z,
            (forall e, downmix channels s = Err e -> e = ValueError) /\
            (downmix channels s = Err ValueError <->
             1 < channels /\ Z.of_nat (length s) mod channels <> 0)).
  { intros s. unfold downmix, np_reshape_rows.
    destruct (Z.gtb_spec channels 1) as [Hgt|Hle].
    - destruct (Z.eqb_spec channels 0) as [Hz|_]; [lia|].
      destruct (Z.eqb_spec (Z.of_nat (length s) mod channels) 0) as [Hm|Hm];
        cbn [bind].
      + split; [discriminate|]. split; [discriminate|]. intros (_ & H). contradiction.
      + split; [now intros e [= <-]|]. split; [auto|reflexivity].
    - split; [discriminate|]. split; [discriminate|]. intros (H & _). lia. }
  assert (Hwide : forall width,
            (width = 2 \/ width = 4) ->
            forall conv : list Z -> list Z,
              (forall l, length (conv l) = length l) ->
              let r := bind (bind (np_frombuffer width raw) (fun x => Ok (conv x)))
                            (downmix channels) in
              (forall e, r = Err e -> e = ValueError) /\
              (r = Err ValueError <->
               Z.of_nat (length raw) mod width <> 0 \/
               (1 < channels /\ (Z.of_nat (length raw) / width) mod channels <> 0))).
  { intros width Hw conv Hconv r. unfold r.
    destruct (np_frombuffer_cases width raw ltac:(lia))
      as [(Hm & s & -> & Hlen)|(Hm & ->)]; cbn [bind].
    - destruct (Hdown (conv s)) as (He & Hiff).
      rewrite Hconv, Hlen in Hiff.
      split; [exact He|]. rewrite Hiff. split; [auto|].
      intros [H|H]; [contradiction|exact H].
    - split; [now intros e [= <-]|]. split; [auto|reflexivity]. }
  unfold load_wav_samples, convert_samples.
  destruct (Z.eqb_spec sample_width 2) as [H2|H2];
    [|destruct (Z.eqb_spec sample_width 4) as [H4|H4]].
  - subst sample_width.
    destruct (Hwide 2 (or_introl eq_refl) (fun l => l) (fun l => eq_refl))
      as (He & Hiff).
    assert (E : bind (bind (np_frombuffer 2 raw) (fun x => Ok x)) (downmix channels)
                = bind (np_frombuffer 2 raw) (downmix channels))
      by (destruct (np_frombuffer 2 raw); reflexivity).
    rewrite E in He, Hiff.
    split; [exact He|]. rewrite Hiff. split.
    + intros H. right. split; [auto|exact H].
    + intros [(H & _)|(_ & H)]; [contradiction|exact H].
  - subst sample_width.
    destruct (Hwide 4 (or_intror eq_refl) (map scale32)
                (fun l => length_map scale32 l)) as (He & Hiff).
    split; [exact He|]. rewrite Hiff. split.
    + intros H. right. split; [auto|exact H].
    + intros [(_ & H)|(_ & H)]; [contradiction|exact H].
  - cbn [bind]. split; [now intros e [= <-]|].
    split; [intros _; left; auto|reflexivity].
Qed.

(** ** Filling an array by index *)

Lemma firstn_set_nth_succ {A} (xs : list A) (k : nat) (v : A) :
  (k < length xs)%nat -> firstn (S k) (set_nth xs k v) = firstn k xs ++ [v].
Proof.
  revert k. induction xs as [|x xs IH]; intros k Hk; [cbn in Hk; lia|].
  destruct k as [|k]; [reflexivity|].
  cbn [set_nth]. cbn [length] in Hk.
  change (firstn (S (S k)) (x :: set_nth xs k v))
    with (x :: firstn (S k) (set_nth xs k v)).
  rewrite IH by lia. reflexivity.
Qed.

(** A loop that stores [g i] at index [i] for every [i] of [range(n)]
    leaves the array [g 0, ..., g (n-1)]. *)
Lemma fill_loop {A} (g : Z -> A) (n : Z) (body : Z -> list A -> result (list A)) :
  (forall i acc, 0 <= i < n -> Z.of_nat (length acc) = n ->
                 body i acc = Ok (set_nth acc (Z.to_nat i) (g i))) ->
  forall init, Z.of_nat (length init) = n ->
  for_each (py_range n) init body = Ok (map g (py_range n)).
Proof.
  intros Hbody.
  assert (H : forall lo hi, 0 <= lo -> hi = n -> forall acc,
            Z.of_nat (length acc) = n ->
            for_each (py_range2 lo hi) acc body =
            Ok (firstn (Z.to_nat lo) acc ++ map g (py_range2 lo hi) ++
                skipn (Z.to_nat (Z.max lo hi)) acc)).
  { apply (py_range2_ind (fun lo hi => 0 <= lo -> hi = n -> forall acc,
            Z.of_nat (length acc) = n ->
            for_each (py_range2 lo hi) acc body =
            Ok (firstn (Z.to_nat lo) acc ++ map g (py_range2 lo hi) ++
                skipn (Z.to_nat (Z.max lo hi)) acc))).
    - intros lo hi Hle Hlo Hhi acc Hacc. rewrite py_range2_nil by exact Hle.
      cbn [for_each map app]. rewrite Z.max_l by lia. now rewrite firstn_skipn.
    - intros lo hi Hlt IH Hlo Hhi acc Hacc. rewrite py_range2_cons by exact Hlt.
      cbn [for_each map]. rewrite Hbody by lia. cbn [bind].
      rewrite IH; [|lia|exact Hhi|now rewrite set_nth_length].
      replace (Z.to_nat (lo + 1)) with (S (Z.to_nat lo)) by lia.
      rewrite firstn_set_nth_succ by lia.
      rewrite !Z.max_r by lia.
      rewrite (skipn_all2 (set_nth acc (Z.to_nat lo) (g lo)))
        by (rewrite set_nth_length; lia).
      rewrite (skipn_all2 acc) by lia.
      now rewrite <- app_assoc. }
  intros init Hinit. unfold py_range.
  rewrite (H 0 n (Z.le_refl 0) eq_refl init Hinit).
  cbn [Z.to_nat firstn app]. destruct (Z_le_gt_dec 0 n).
  - rewrite Z.max_r by lia. rewrite skipn_all2 by lia. now rewrite app_nil_r.
  - exfalso. lia.
Qed.

(** ** Resampling *)

Lemma ratio_scaled (sr i : Z) :
  (inject_Z i * (inject_Z sr / inject_Z REQUIRED_SAMPLE_RATE) ==
   inject_Z (i * sr) / inject_Z REQUIRED_SAMPLE_RATE)%Q.
Proof. rewrite inject_Z_mult. unfold Qdiv. ring. Qed.

Lemma source_index_spec (sr i : Z) :
  0 <= sr -> 0 <= i ->
  py_int (inject_Z i * (inject_Z sr / inject_Z REQUIRED_SAMPLE_RATE))%Q
  = source_index sr i.
Proof.
  intros Hsr Hi. rewrite (py_int_comp _ _ (ratio_scaled sr i)).
  rewrite py_int_floor.
  - apply Qfloor_div. reflexivity.
  - apply Qle_shift_div_l; [reflexivity|]. rewrite Qmult_0_l.
    apply inject_Z_nonneg. nia.
Qed.

Lemma output_length_spec (sr len : Z) :
  0 < sr -> 0 <= len ->
  py_int (inject_Z len / (inject_Z sr / inject_Z REQUIRED_SAMPLE_RATE))%Q
  = len * REQUIRED_SAMPLE_RATE / sr.
Proof.
  intros Hsr Hlen.
  pose proof (inject_Z_pos sr Hsr) as Hq.
  assert (E : (inject_Z len / (inject_Z sr / inject_Z REQUIRED_SAMPLE_RATE) ==
               inject_Z (len * REQUIRED_SAMPLE_RATE) / inject_Z sr)%Q).
  { assert (Hn1 : ~ (inject_Z sr == 0)%Q) by lra.
    assert (Hn2 : ~ (inject_Z REQUIRED_SAMPLE_RATE == 0)%Q)
      by (intros H; unfold Qeq in H; cbn in H; discriminate).
    rewrite inject_Z_mult. field. auto. }
  rewrite (py_int_comp _ _ E), py_int_floor.
  - now apply Qfloor_div.
  - apply Qle_shift_div_l; [exact Hq|]. rewrite Qmult_0_l.
    apply inject_Z_nonneg. unfold REQUIRED_SAMPLE_RATE. lia.
Qed.

Lemma source_index_in_range (sr len i : Z) :
  0 < sr -> 0 <= i < len * REQUIRED_SAMPLE_RATE / sr ->
  0 <= source_index sr i < len.
Proof.
  intros Hsr Hi. unfold source_index, REQUIRED_SAMPLE_RATE in *.
  pose proof (Z.mul_div_le (len * 16000) sr Hsr).
  split.
  - apply Z.div_pos; nia.
  - apply Z.div_lt_upper_bound; nia.
Qed.

(** What [resample] returns. *)
Lemma resample_spec (pcm : list Z) (sr : Z) :
  0 < sr ->
  resample pcm sr =
  Ok (map (resampled_value pcm sr)
          (py_range (Z.of_nat (length pcm) * REQUIRED_SAMPLE_RATE / sr))).
Proof.
  intros Hsr. unfold resample.
  rewrite py_truediv_ok by discriminate. cbn [bind].
  assert (Hr : (0 < inject_Z sr / inject_Z REQUIRED_SAMPLE_RATE)%Q).
  { apply Qlt_shift_div_l; [reflexivity|]. rewrite Qmult_0_l. now apply inject_Z_pos. }
  unfold py_truediv at 1.
  destruct (Qeq_bool (inject_Z sr / inject_Z REQUIRED_SAMPLE_RATE) 0) eqn:E0.
  { apply Qeq_bool_eq in E0. rewrite E0 in Hr. discriminate. }
  cbn [bind]. rewrite output_length_spec by lia.
  set (out_len := Z.of_nat (length pcm) * REQUIRED_SAMPLE_RATE / sr).
  assert (Hout : 0 <= out_len).
  { unfold out_len, REQUIRED_SAMPLE_RATE. apply Z.div_pos; lia. }
  unfold np_zeros_int. destruct (Z.ltb_spec out_len 0); [lia|]. cbn [bind].
  apply fill_loop; [|rewrite repeat_length; lia].
  intros i acc Hi Hacc. unfold resampled_value.
  rewrite source_index_spec by lia.
  pose proof (source_index_in_range sr (Z.of_nat (length pcm)) i Hsr Hi) as Hidx.
  destruct (Z.ltb_spec (source_index sr i + 1) (Z.of_nat (length pcm))).
  - rewrite (py_index_ok pcm _ 0), (py_index_ok pcm (_ + 1) 0) by lia.
    cbn [bind]. now rewrite py_setitem_ok by lia.
  - rewrite (py_index_ok pcm _ 0) by lia. cbn [bind].
    now rewrite py_setitem_ok by lia.
Qed.

(** X4. Integer-ratio downsampling is plain decimation.  When the source
    rate is [k] times 16 kHz, output sample [i] is input sample [k * i],
    unchanged: no neighbouring samples are mixed in. *)
Theorem resample_decimates (pcm : list Z) (k : Z) :
  1 <= k ->
  resample pcm (k * REQUIRED_SAMPLE_RATE) =
  Ok (map (fun i => nth (Z.to_nat (k * i)) pcm 0)
          (py_range (Z.of_nat (length pcm) / k))).
Proof.
  intros Hk. rewrite resample_spec by (unfold REQUIRED_SAMPLE_RATE; lia).
  rewrite Z.div_mul_cancel_r by (unfold REQUIRED_SAMPLE_RATE; lia).
  f_equal. apply map_ext_in. intros i Hi. apply in_py_range2 in Hi.
  unfold resampled_value.
  assert (Eidx : py_int (inject_Z i * (inject_Z (k * REQUIRED_SAMPLE_RATE) /
                                       inject_Z REQUIRED_SAMPLE_RATE))%Q = k * i).
  { rewrite source_index_spec by (unfold REQUIRED_SAMPLE_RATE; lia).
    unfold source_index. rewrite Z.mul_assoc, Z.div_mul by discriminate. lia. }
  rewrite Eidx.
  destruct (Z.ltb_spec (k * i + 1) (Z.of_nat (length pcm))); [|reflexivity].
  assert (Efrac : (inject_Z i * (inject_Z (k * REQUIRED_SAMPLE_RATE) /
                                 inject_Z REQUIRED_SAMPLE_RATE) - inject_Z (k * i) == 0)%Q).
  { rewrite !inject_Z_mult. field.
    intros H0; unfold Qeq in H0; cbn in H0; discriminate. }
  rewrite (py_int_comp _ (inject_Z (nth (Z.to_nat (k * i)) pcm 0))).
  - apply py_int_inject.
  - rewrite Efrac. ring.
Qed.

Lemma resample_decimates_witness :
  resample [1; 2; 3; 4; 5; 6; 7] (3 * REQUIRED_SAMPLE_RATE) = Ok [1; 4].
Proof. apply (resample_decimates [1; 2; 3; 4; 5; 6; 7] 3). lia. Defined.

(** ** The DFT power spectrum *)

Lemma Forall_set_nth {A} (P : A -> Prop) (xs : list A) (k : nat) (v : A) :
  Forall P xs -> P v -> Forall P (set_nth xs k v).
Proof.
  intros H Hv. revert k. induction H as [|x xs Hx Hxs IH]; intros k.
  - destruct k; constructor.
  - destruct k as [|k]; cbn [set_nth]; constructor; auto.
Qed.

Lemma dft_power_ok {M : MathLib} (sin : Q -> Q) (windowed : list Q) (k : Z) :
  exists p, dft_power sin windowed (Z.of_nat (length windowed)) k = Ok p /\ (0 <= p)%Q.
Proof.
  unfold dft_power.
  destruct (for_each_total (fun _ : Q * Q => True)
              (py_range (Z.of_nat (length windowed)))
              (fun t ri =>
                 angle <- py_truediv (- (2) * pi * inject_Z k * inject_Z t)%Q
                                     (inject_Z (Z.of_nat (length windowed))) ;;
                 x <- py_index windowed t ;;
                 Ok (fst ri + x * cos angle, snd ri + x * sin angle)%Q))
    with (acc := (0%Q, 0%Q)) as (ri & -> & _).
  - intros t acc Ht _. apply in_py_range2 in Ht.
    rewrite py_truediv_ok by lia. cbn [bind].
    rewrite (py_index_ok windowed t 0%Q) by lia. cbn [bind]. eauto.
  - exact I.
  - cbn [bind]. eexists. split; [reflexivity|]. nra.
Qed.

(** X5. [compute_power_spectrum] returns, for every input, [n // 2 + 1]
    values none of which is negative; it never raises — an empty frame
    gives the single value 0. *)
Theorem power_spectrum_shape {M : MathLib} (sin : Q -> Q) (windowed : list Q) :
  (exists power,
     compute_power_spectrum sin windowed = Ok power /\
     Z.of_nat (length power) = Z.of_nat (length windowed) / 2 + 1 /\
     Forall (fun p => (0 <= p)%Q) power) /\
  compute_power_spectrum sin [] = Ok [0%Q].
Proof.
  split; [|reflexivity].
  unfold compute_power_spectrum.
  set (n := Z.of_nat (length windowed)).
  assert (Hn : 0 <= n / 2 + 1) by (assert (0 <= n / 2) by (apply Z.div_pos; lia); lia).
  rewrite np_zeros_ok by exact Hn. cbn [bind].
  destruct (for_each_total
              (fun power : list Q =>
                 Z.of_nat (length power) = n / 2 + 1 /\
                 Forall (fun p => (0 <= p)%Q) power)
              (py_range (n / 2 + 1))
              (fun k power => p <- dft_power sin windowed n k ;; py_setitem power k p))
    with (acc := repeat 0%Q (Z.to_nat (n / 2 + 1))) as (power & E & Hlen & Hpos).
  - intros k acc Hk (Hlen & Hpos). apply in_py_range2 in Hk.
    destruct (dft_power_ok sin windowed k) as (p & Ep & Hp).
    fold n in Ep. rewrite Ep. cbn [bind].
    rewrite py_setitem_ok by lia. eexists. split; [reflexivity|]. split.
    + now rewrite set_nth_length.
    + now apply Forall_set_nth.
  - split; [rewrite repeat_length; lia|].
    apply Forall_forall. intros p Hp. apply repeat_spec in Hp. subst p. lra.
  - exists power. auto.
Qed.

(** ** The dense filterbank *)

Lemma nth_set_nth_eq {A} (xs : list A) (k : nat) (v d : A) :
  (k < length xs)%nat -> nth k (set_nth xs k v) d = v.
Proof.
  revert k. induction xs as [|x xs IH]; intros k Hk; [cbn in Hk; lia|].
  destruct k as [|k]; [reflexivity|]. cbn [set_nth nth]. apply IH.
  cbn [length] in Hk. lia.
Qed.

Lemma nth_set_nth_neq {A} (xs : list A) (k j : nat) (v d : A) :
  j <> k -> nth j (set_nth xs k v) d = nth j xs d.
Proof.
  revert k j. induction xs as [|x xs IH]; intros k j Hjk; [reflexivity|].
  destruct k as [|k], j as [|j]; cbn [set_nth nth]; try reflexivity; try lia.
  apply IH. lia.
Qed.

Lemma set_nth_same {A} (xs : list A) (k : nat) (d : A) :
  set_nth xs k (nth k xs d) = xs.
Proof.
  revert k. induction xs as [|x xs IH]; intros k; [reflexivity|].
  destruct k as [|k]; cbn [set_nth nth]; [reflexivity|]. now rewrite IH.
Qed.

Lemma set_nth_twice {A} (xs : list A) (k : nat) (u v : A) :
  set_nth (set_nth xs k u) k v = set_nth xs k v.
Proof.
  revert k. induction xs as [|x xs IH]; intros k; [reflexivity|].
  destruct k as [|k]; cbn [set_nth]; [reflexivity|]. now rewrite IH.
Qed.

Lemma for_each_ext_in {A S} (xs : list A) (f g : A -> S -> result S) :
  (forall x acc, In x xs -> f x acc = g x acc) ->
  forall acc, for_each xs acc f = for_each xs acc g.
Proof.
  induction xs as [|x xs IH]; intros H acc; cbn [for_each]; [reflexivity|].
  rewrite H by (left; reflexivity).
  destruct (g x acc) as [acc'|e]; cbn [bind]; [|reflexivity].
  apply IH. intros y a Hy. apply H. right. exact Hy.
Qed.

(** Storing [g b] at every column [b] of a list of in-range columns. *)
Lemma row_store_loop (g : Z -> Q) (bs : list Z) : forall row,
  (forall b, In b bs -> 0 <= b < Z.of_nat (length row)) ->
  exists row',
    for_each bs row (fun b row => py_setitem row b (g b)) = Ok row' /\
    length row' = length row /\
    (forall b, ~ In b bs -> 0 <= b -> nth (Z.to_nat b) row' 0%Q = nth (Z.to_nat b) row 0%Q) /\
    (NoDup bs -> forall b, In b bs -> nth (Z.to_nat b) row' 0%Q = g b).
Proof.
  induction bs as [|b0 bs IH]; intros row Hin; cbn [for_each].
  - exists row. repeat split; auto. intros _ b [].
  - rewrite py_setitem_ok by (apply Hin; left; reflexivity). cbn [bind].
    destruct (IH (set_nth row (Z.to_nat b0) (g b0))) as (row' & E & Hl & Hout & Hin').
    { intros b Hb. rewrite set_nth_length. apply Hin. right. exact Hb. }
    exists row'. rewrite set_nth_length in Hl.
    split; [exact E|]. split; [exact Hl|]. split.
    + intros b Hb Hb0. rewrite Hout by (intros H; apply Hb; right; exact H) || exact Hb0.
      apply nth_set_nth_neq. intros Heq. apply Hb. left.
      pose proof (Hin b0 (or_introl eq_refl)). lia.
    + intros Hnd b [<-|Hb].
      * inversion Hnd as [|? ? Hnot Hnd']; subst.
        pose proof (Hin b0 (or_introl eq_refl)) as Hb0.
        rewrite Hout by (exact Hnot || lia).
        apply nth_set_nth_eq. lia.
      * inversion Hnd as [|? ? Hnot Hnd']; subst. now apply Hin'.
Qed.

Lemma py_setitem2_ok (m : list (list Q)) (i b : Z) (v : Q) :
  0 <= i < Z.of_nat (length m) ->
  0 <= b < Z.of_nat (length (nth (Z.to_nat i) m [])) ->
  py_setitem2 m i b v =
  Ok (set_nth m (Z.to_nat i) (set_nth (nth (Z.to_nat i) m []) (Z.to_nat b) v)).
Proof.
  intros Hi Hb. unfold py_setitem2.
  rewrite (py_index_ok m i []) by exact Hi. cbn [bind].
  rewrite py_setitem_ok by exact Hb. cbn [bind].
  now rewrite py_setitem_ok by exact Hi.
Qed.

(** Stores into row [i] of a matrix act on that row alone. *)
Lemma matrix_store_loop (g : Z -> Q) (i : Z) (bs : list Z) : forall m,
  0 <= i < Z.of_nat (length m) ->
  (forall b, In b bs -> 0 <= b < Z.of_nat (length (nth (Z.to_nat i) m []))) ->
  for_each bs m (fun b m => py_setitem2 m i b (g b)) =
  bind (for_each bs (nth (Z.to_nat i) m []) (fun b row => py_setitem row b (g b)))
       (fun row' => Ok (set_nth m (Z.to_nat i) row')).
Proof.
  induction bs as [|b0 bs IH]; intros m Hi Hin; cbn [for_each bind].
  - now rewrite set_nth_same.
  - rewrite py_setitem2_ok by (auto; apply Hin; left; reflexivity).
    rewrite py_setitem_ok by (apply Hin; left; reflexivity). cbn [bind].
    rewrite IH.
    + rewrite nth_set_nth_eq by lia.
      destruct (for_each bs _ _) as [row'|e]; cbn [bind]; [|reflexivity].
      now rewrite set_nth_twice.
    + now rewrite set_nth_length.
    + intros b Hb. rewrite nth_set_nth_eq by lia. rewrite set_nth_length.
      apply Hin. right. exact Hb.
Qed.

Lemma NoDup_py_range2 lo hi : NoDup (py_range2 lo hi).
Proof.
  unfold py_range2. apply NoDup_map_NoDup_ForallPairs; [|apply seq_NoDup].
  intros a b _ _ H. lia.
Qed.

Lemma dense_row_nth (l c r cols b : Z) :
  0 <= b < cols ->
  nth (Z.to_nat b) (dense_row l c r cols) 0%Q = dense_weight l c r b.
Proof.
  intros Hb. unfold dense_row. rewrite py_range_seq, map_map.
  rewrite (nth_indep _ 0%Q (dense_weight l c r (Z.of_nat 0)))
    by (rewrite length_map, length_seq; lia).
  rewrite (map_nth (fun k => dense_weight l c r (Z.of_nat k))).
  rewrite seq_nth by lia. cbn [Nat.add]. now rewrite Z2Nat.id by lia.
Qed.

(** The two slope loops of band [i], run on a matrix whose row [i] is
    still zero. *)
Lemma dense_band_loops (m : list (list Q)) (i l c r cols : Z) :
  0 <= i < Z.of_nat (length m) ->
  nth (Z.to_nat i) m [] = repeat 0%Q (Z.to_nat cols) ->
  0 <= l <= cols -> 0 <= c <= cols -> 0 <= r <= cols ->
  bind (for_each (py_range2 l c) m (fun b m =>
          if c >? l then
            w <- py_truediv (inject_Z (b - l)) (inject_Z (c - l)) ;;
            py_setitem2 m i b w
          else Ok m))
       (fun m => for_each (py_range2 c r) m (fun b m =>
          if r >? c then
            w <- py_truediv (inject_Z (r - b)) (inject_Z (r - c)) ;;
            py_setitem2 m i b w
          else Ok m))
  = Ok (set_nth m (Z.to_nat i) (dense_row l c r cols)).
Proof.
  intros Hi Hrow Hl Hc Hr.
  rewrite (for_each_ext_in _ _ (fun b m => py_setitem2 m i b (rising_weight l c b))).
  2:{ intros b acc Hb. apply in_py_range2 in Hb.
      destruct (Z.gtb_spec c l); [|lia]. now rewrite py_truediv_ok by lia. }
  rewrite matrix_store_loop; [|exact Hi|].
  2:{ intros b Hb. apply in_py_range2 in Hb. rewrite Hrow, repeat_length. lia. }
  destruct (row_store_loop (rising_weight l c) (py_range2 l c) (nth (Z.to_nat i) m []))
    as (row1 & -> & Hlen1 & Hout1 & Hin1).
  { intros b Hb. apply in_py_range2 in Hb. rewrite Hrow, repeat_length. lia. }
  cbn [bind].
  rewrite (for_each_ext_in _ _ (fun b m => py_setitem2 m i b (falling_weight c r b))).
  2:{ intros b acc Hb. apply in_py_range2 in Hb.
      destruct (Z.gtb_spec r c); [|lia]. now rewrite py_truediv_ok by lia. }
  assert (Hl1 : length row1 = Z.to_nat cols) by (now rewrite Hlen1, Hrow, repeat_length).
  rewrite matrix_store_loop; [|now rewrite set_nth_length|].
  2:{ intros b Hb. apply in_py_range2 in Hb. rewrite nth_set_nth_eq by lia. lia. }
  rewrite nth_set_nth_eq by lia.
  destruct (row_store_loop (falling_weight c r) (py_range2 c r) row1)
    as (row2 & -> & Hlen2 & Hout2 & Hin2).
  { intros b Hb. apply in_py_range2 in Hb. lia. }
  cbn [bind]. rewrite set_nth_twice. do 2 f_equal.
  apply (nth_ext _ _ 0%Q 0%Q).
  - unfold dense_row, py_range. rewrite length_map, py_range2_length. lia.
  - intros k Hk.
    assert (Hb : 0 <= Z.of_nat k < cols) by lia.
    rewrite <- (Nat2Z.id k). rewrite dense_row_nth by exact Hb.
    unfold dense_weight.
    destruct (Z.leb_spec l (Z.of_nat k)), (Z.ltb_spec (Z.of_nat k) c),
             (Z.leb_spec c (Z.of_nat k)), (Z.ltb_spec (Z.of_nat k) r);
      cbn [andb]; try lia.
    all: try (rewrite Hin2 by (apply NoDup_py_range2 || (apply in_py_range2; lia));
              reflexivity).
    all: rewrite Hout2 by ((intros Hx; apply in_py_range2 in Hx; lia) || lia).
    all: try (rewrite Hin1 by (apply NoDup_py_range2 || (apply in_py_range2; lia));
              reflexivity).
    all: rewrite Hout1 by ((intros Hx; apply in_py_range2 in Hx; lia) || lia).
    all: rewrite Hrow; apply nth_repeat.
Qed.

Lemma nth_hd_skipn {A} (d : A) : forall (xs : list A) k,
  nth k xs d = hd d (skipn k xs).
Proof.
  induction xs as [|x xs IH]; intros [|k]; cbn [nth skipn hd]; auto.
Qed.

Lemma skipn_succ_tl {A} : forall (xs : list A) k,
  skipn (S k) xs = tl (skipn k xs).
Proof.
  induction xs as [|x xs IH]; intros [|k]; try reflexivity.
  change (skipn (S (S k)) (x :: xs)) with (skipn (S k) xs).
  change (skipn (S k) (x :: xs)) with (skipn k xs). apply IH.
Qed.

Lemma skipn_set_nth_succ {A} (v : A) : forall (xs : list A) k,
  skipn (S k) (set_nth xs k v) = skipn (S k) xs.
Proof.
  induction xs as [|x xs IH]; intros [|k]; try reflexivity.
  cbn [set_nth]. change (skipn (S (S k)) (x :: set_nth xs k v))
    with (skipn (S k) (set_nth xs k v)).
  change (skipn (S (S k)) (x :: xs)) with (skipn (S k) xs). apply IH.
Qed.

(** A loop over [range(n)] whose body replaces entry [i], provided entry
    [i] still has its initial value, by [g i]. *)
Lemma fill_loop_fresh {A} (d : A) (g : Z -> A) (n : Z) (init : list A)
      (body : Z -> list A -> result (list A)) :
  (forall i acc, 0 <= i < n -> Z.of_nat (length acc) = n ->
                 nth (Z.to_nat i) acc d = nth (Z.to_nat i) init d ->
                 body i acc = Ok (set_nth acc (Z.to_nat i) (g i))) ->
  Z.of_nat (length init) = n ->
  for_each (py_range n) init body = Ok (map g (py_range n)).
Proof.
  intros Hbody Hinit.
  assert (H : forall lo hi, 0 <= lo -> hi = n -> forall acc,
            Z.of_nat (length acc) = n ->
            skipn (Z.to_nat lo) acc = skipn (Z.to_nat lo) init ->
            for_each (py_range2 lo hi) acc body =
            Ok (firstn (Z.to_nat lo) acc ++ map g (py_range2 lo hi) ++
                skipn (Z.to_nat (Z.max lo hi)) acc)).
  { apply (py_range2_ind (fun lo hi => 0 <= lo -> hi = n -> forall acc,
            Z.of_nat (length acc) = n ->
            skipn (Z.to_nat lo) acc = skipn (Z.to_nat lo) init ->
            for_each (py_range2 lo hi) acc body =
            Ok (firstn (Z.to_nat lo) acc ++ map g (py_range2 lo hi) ++
                skipn (Z.to_nat (Z.max lo hi)) acc))).
    - intros lo hi Hle Hlo Hhi acc Hacc _. rewrite py_range2_nil by exact Hle.
      cbn [for_each map app]. rewrite Z.max_l by lia. now rewrite firstn_skipn.
    - intros lo hi Hlt IH Hlo Hhi acc Hacc Hskip. rewrite py_range2_cons by exact Hlt.
      cbn [for_each map].
      rewrite Hbody; [|lia|exact Hacc|now rewrite !nth_hd_skipn, Hskip].
      cbn [bind].
      replace (Z.to_nat (lo + 1)) with (S (Z.to_nat lo)) in * by lia.
      rewrite IH; [|lia|exact Hhi|now rewrite set_nth_length|].
      2:{ rewrite skipn_set_nth_succ. now rewrite !skipn_succ_tl, Hskip. }
      rewrite firstn_set_nth_succ by lia.
      rewrite !Z.max_r by lia.
      rewrite (skipn_all2 (set_nth acc (Z.to_nat lo) (g lo)))
        by (rewrite set_nth_length; lia).
      rewrite (skipn_all2 acc) by lia.
      now rewrite <- app_assoc. }
  unfold py_range.
  rewrite (H 0 n (Z.le_refl 0) eq_refl init Hinit eq_refl).
  cbn [Z.to_nat firstn app]. rewrite skipn_all2 by lia. now rewrite app_nil_r.
Qed.

Lemma dense_weight_is_filter_weight (l c r b : Z) :
  (dense_weight l c r b == filter_weight (triangle l c r) b)%Q.
Proof.
  rewrite triangle_weight. unfold dense_weight, rise, fall.
  destruct (Z.leb_spec l b), (Z.ltb_spec b c), (Z.leb_spec c b), (Z.ltb_spec b r);
    cbn [andb]; try lia; ring.
Qed.

(** X7. The dense filterbank matrix built by the debugging scripts holds, in
    row [i] and column [b], exactly the weight that the sparse filter of
    band [i] in [verify_streaming.py] gives to bin [b]; the construction
    never raises when every boundary lies within the matrix width. *)
Theorem dense_filterbank_agrees_with_sparse (bin_points : list Z) (n_mels n_fft : Z) :
  0 <= n_mels ->
  Z.of_nat (length bin_points) = n_mels + 2 ->
  Forall (fun p => 0 <= p <= n_fft / 2 + 1) bin_points ->
  exists fbank,
    dense_filterbank bin_points n_mels n_fft = Ok fbank /\
    Z.of_nat (length fbank) = n_mels /\
    forall i b, 0 <= i < n_mels -> 0 <= b < n_fft / 2 + 1 ->
      exists filt,
        band_filter (nth (Z.to_nat i) bin_points 0)
                    (nth (Z.to_nat (i + 1)) bin_points 0)
                    (nth (Z.to_nat (i + 2)) bin_points 0) = Ok filt /\
        Z.of_nat (length (nth (Z.to_nat i) fbank [])) = n_fft / 2 + 1 /\
        (nth (Z.to_nat b) (nth (Z.to_nat i) fbank []) 0 == filter_weight filt b)%Q.
Proof.
  intros Hn Hlen Hall. set (cols := n_fft / 2 + 1) in *.
  assert (Hp : forall k, 0 <= k < n_mels + 2 -> 0 <= nth (Z.to_nat k) bin_points 0 <= cols).
  { intros k Hk. rewrite Forall_forall in Hall. apply Hall, nth_In. lia. }
  assert (Hcols : 0 <= cols) by (specialize (Hp 0); lia).
  set (g := fun i => dense_row (nth (Z.to_nat i) bin_points 0)
                               (nth (Z.to_nat (i + 1)) bin_points 0)
                               (nth (Z.to_nat (i + 2)) bin_points 0) cols).
  exists (map g (py_range n_mels)).
  assert (Hrow : forall i, 0 <= i < n_mels ->
            nth (Z.to_nat i) (map g (py_range n_mels)) [] = g i).
  { intros i Hi. rewrite py_range_seq, map_map.
    rewrite (nth_indep _ [] (g (Z.of_nat 0)))
      by (rewrite length_map, length_seq; lia).
    rewrite (map_nth (fun k => g (Z.of_nat k))).
    rewrite seq_nth by lia. cbn [Nat.add]. now rewrite Z2Nat.id by lia. }
  split; [|split].
  - unfold dense_filterbank, np_zeros2. fold cols.
    destruct (Z.ltb_spec n_mels 0); [lia|].
    destruct (Z.ltb_spec cols 0); [lia|]. cbn [orb bind].
    apply (fill_loop_fresh []); [|rewrite repeat_length; lia].
    intros i acc Hi Hacc Hfresh.
    rewrite !(py_index_ok bin_points _ 0) by lia. cbn [bind].
    rewrite (nth_indep (repeat _ _) [] (repeat 0%Q (Z.to_nat cols))) in Hfresh
      by (rewrite repeat_length; lia).
    rewrite nth_repeat in Hfresh.
    apply (dense_band_loops acc i _ _ _ cols); auto; try lia.
    + apply (Hp i); lia.
    + apply (Hp (i + 1)); lia.
    + apply (Hp (i + 2)); lia.
  - unfold py_range. rewrite length_map, py_range2_length. lia.
  - intros i b Hi Hb. eexists. split; [apply band_filter_spec|].
    rewrite Hrow by exact Hi. unfold g. split.
    + unfold dense_row, py_range. rewrite length_map, py_range2_length. lia.
    + rewrite dense_row_nth by exact Hb. apply dense_weight_is_filter_weight.
Qed.

Lemma dense_filterbank_agrees_with_sparse_witness :
  exists fbank,
    dense_filterbank [0; 2; 4; 4] 2 8 = Ok fbank /\
    Z.of_nat (length fbank) = 2 /\
    forall i b, 0 <= i < 2 -> 0 <= b < 8 / 2 + 1 ->
      exists filt,
        band_filter (nth (Z.to_nat i) [0; 2; 4; 4] 0)
                    (nth (Z.to_nat (i + 1)) [0; 2; 4; 4] 0)
                    (nth (Z.to_nat (i + 2)) [0; 2; 4; 4] 0) = Ok filt /\
        Z.of_nat (length (nth (Z.to_nat i) fbank [])) = 8 / 2 + 1 /\
        (nth (Z.to_nat b) (nth (Z.to_nat i) fbank []) 0 == filter_weight filt b)%Q.
Proof.
  apply (dense_filterbank_agrees_with_sparse [0; 2; 4; 4] 2 8).
  - lia.
  - reflexivity.
  - repeat constructor; vm_compute; discriminate.
Defined.

(** ** Further properties of the greedy decoder *)

(** X8. Over a whole streaming pass of [verify_streaming.py], the number of
    emitted tokens is at most [MAX_SYMBOLS_PER_STEP] times the number of
    encoder frames of all chunks together. *)
Theorem stream_emission_is_bounded {M : MathLib} {R : Runtime}
    (pcm : list Z) (w : World) :
  stream_1s pcm = Ok w \/ stream_2500ms pcm = Ok w ->
  (length (emitted w) <=
   Z.to_nat MAX_SYMBOLS_PER_STEP * length (concat (map frames_out (enc_calls w))))%nat.
Proof.
  intros H. apply decoder_state_persists in H.
  apply decode_frames_emits in H as (new & E & Hlen).
  rewrite E. exact Hlen.
Qed.

Lemma stream_emission_is_bounded_witness :
  let M := linear_math in
  let R := stub_runtime [0] never_blank in
  exists w,
    stream_1s (repeat 7 (Z.to_nat 20000)) = Ok w /\
    (length (emitted w) <=
     Z.to_nat MAX_SYMBOLS_PER_STEP * length (concat (map frames_out (enc_calls w))))%nat.
Proof.
  intros M R.
  destruct (@stream_1s_total M R linear_math_ok (stub_runtime_ok _ _)
              (stub_encoder_ok [0] _ ltac:(discriminate))
              (repeat 7 (Z.to_nat 20000))) as (w & E).
  exists w. split; [exact E|].
  exact (@stream_emission_is_bounded M R _ w (or_introl E)).
Defined.

(** X9. Decoding is incremental in the encoder frames: the tokens decoded
    from a prefix of the frames are a prefix of the tokens decoded from all
    of them, and the remaining frames add at most [max_sym] tokens each. *)
Theorem greedy_decode_full_is_incremental {R : Runtime}
    (enc1 enc2 : list Frame) (max_sym : Z) (toks : list Z) :
  greedy_decode_full (enc1 ++ enc2) max_sym = Ok toks ->
  exists toks1 new,
    greedy_decode_full enc1 max_sym = Ok toks1 /\
    toks = toks1 ++ new /\
    (length new <= Z.to_nat max_sym * length enc2)%nat.
Proof.
  unfold greedy_decode_full. intros H.
  apply bind_Ok in H as ([st toks'] & H & [= <-]).
  rewrite decode_frames_app in H.
  apply bind_Ok in H as ([st1 toks1] & E1 & H). cbn [fst snd] in H.
  apply decode_frames_emits in H as (new & E & Hlen).
  exists toks1, new. rewrite E1. cbn [bind snd]. auto.
Qed.

Lemma greedy_decode_full_is_incremental_witness :
  let R := stub_runtime [0] once_after_blank in
  exists toks1 new,
    greedy_decode_full [0] 10 = Ok toks1 /\
    [5] = toks1 ++ new /\
    (length new <= Z.to_nat 10 * length [0])%nat.
Proof.
  intros R.
  apply (@greedy_decode_full_is_incremental R [0] [0] 10 [5]).
  vm_compute. reflexivity.
Defined.

Lemma sym_loop_all_blank {R : Runtime} (run : DecoderCall) (n : nat)
    (enc_frame : Frame) (st : DecoderState) (tokens : list Z) :
  prediction run enc_frame st = Ok BLANK_ID ->
  sym_loop run n enc_frame st tokens = Ok (st, tokens).
Proof.
  intros H. destruct n as [|n]; [reflexivity|].
  cbn [sym_loop]. now rewrite (sym_step_blank run enc_frame st tokens H).
Qed.

(** X10. Frames on which the decoder predicts blank straight away leave
    no trace: no token is emitted and the decoder state after the frames is
    the state before them, whatever the symbol budget. *)
Theorem blank_frames_leave_no_trace {R : Runtime} (run : DecoderCall)
    (max_sym : Z) (frames : list Frame) (st : DecoderState) (tokens : list Z) :
  (forall f, In f frames -> prediction run f st = Ok BLANK_ID) ->
  decode_frames run max_sym frames st tokens = Ok (st, tokens).
Proof.
  unfold decode_frames. induction frames as [|f frames IH]; intros H.
  - reflexivity.
  - cbn [for_each fst snd].
    rewrite sym_loop_all_blank by (apply H; left; reflexivity). cbn [bind].
    apply IH. intros g Hg. apply H. right. exact Hg.
Qed.

Lemma blank_frames_leave_no_trace_witness :
  let R := stub_runtime [0] always_blank in
  let st := {| state1 := 3; state2 := 4; last_token := 9 |} in
  decode_frames verify_streaming_call 10 [0; 0; 0] st [9] = Ok (st, [9]).
Proof.
  intros R st.
  apply (@blank_frames_leave_no_trace R verify_streaming_call 10 [0; 0; 0] st [9]).
  intros f _. vm_compute. reflexivity.
Defined.

(** X11. With a symbol budget of zero or less the inner loop body never
    runs: nothing is decoded, whatever the decoder would answer. *)
Theorem no_budget_no_tokens {R : Runtime} (enc : list Frame) (max_sym : Z) :
  max_sym <= 0 -> greedy_decode_full enc max_sym = Ok [].
Proof.
  intros H. unfold greedy_decode_full, decode_frames.
  replace (Z.to_nat max_sym) with 0%nat by lia.
  assert (E : forall acc : DecoderState * list Z,
            for_each enc acc (fun enc_frame acc =>
              sym_loop debug_call 0 enc_frame (fst acc) (snd acc)) = Ok acc).
  { induction enc as [|f enc IH]; intros acc; [reflexivity|].
    cbn [for_each sym_loop bind]. rewrite IH. now destruct acc. }
  now rewrite E.
Qed.

Lemma no_budget_no_tokens_witness :
  let R := stub_runtime [0] never_blank in
  greedy_decode_full [0; 0] (-1) = Ok [].
Proof.
  intros R. apply (@no_budget_no_tokens R [0; 0] (-1)). lia.
Defined.

(** ** Batch mode against the streaming passes *)

Lemma py_slice_whole {A} (xs : list A) :
  py_slice xs 0 (Z.of_nat (length xs)) = xs.
Proof.
  unfold py_slice, clip_bound. change (0 <? 0) with false. cbv iota.
  destruct (Z.ltb_spec (Z.of_nat (length xs)) 0) as [H|H]; [lia|].
  rewrite Z.min_id. replace (Z.min 0 (Z.of_nat (length xs))) with 0 by lia.
  cbn [Z.to_nat skipn].
  rewrite Z.sub_0_r, Nat2Z.id. apply firstn_all.
Qed.

(** A decoding that returns has passed the first call's report. *)
Lemma decode_passes_first_report {R : Runtime} (frames : list Frame)
    (st : DecoderState) r :
  decode_frames verify_streaming_call MAX_SYMBOLS_PER_STEP frames st [] = Ok r ->
  first_call_report frames st = Ok tt.
Proof.
  destruct frames as [|f fs]; [reflexivity|].
  unfold decode_frames, first_call_report. cbn [for_each fst snd].
  change (Z.to_nat MAX_SYMBOLS_PER_STEP) with (S 9). cbn [sym_loop].
  unfold sym_step, verify_streaming_call.
  destruct (py_slice (logits (dec_sess_run f (last_token st) (state1 st) (state2 st)))
                     0 VOCAB_SIZE) as [|x xs]; [discriminate|reflexivity].
Qed.

(** A pass over audio of exactly one chunk is one run of the loop body. *)
Lemma one_chunk_pass {M : MathLib} {R : Runtime}
    (report : bool) (min_len : option Z) (cs : Z) (pcm : list Z) :
  0 < cs -> Z.of_nat (length pcm) = cs ->
  guard_hit min_len cs = false ->
  chunk_loop (S (length pcm)) report min_len cs pcm 0 init_world =
  process_chunk report pcm init_world.
Proof.
  intros Hcs Hlen Hg. rewrite chunk_loop_step.
  destruct (Z.ltb_spec 0 (Z.of_nat (length pcm))); [|lia].
  assert (Hraw : raw_chunk cs pcm 0 = pcm).
  { unfold raw_chunk. rewrite Z.add_0_l, Hlen, Z.min_id, <- Hlen.
    apply py_slice_whole. }
  assert (Hat : chunk_at cs pcm 0 = pcm).
  { unfold chunk_at. rewrite Hraw, Hlen, Z.ltb_irrefl. reflexivity. }
  rewrite Hraw, Hat, Hlen, Hg.
  destruct (process_chunk report pcm init_world) as [w|e]; [|reflexivity].
  cbn [bind]. destruct (length pcm) as [|k] eqn:Ek; [lia|].
  rewrite chunk_loop_step. rewrite Z.add_0_l.
  destruct (Z.ltb_spec cs (Z.of_nat (length pcm))); [lia|reflexivity].
Qed.

Section BatchProofs.

Context {M : MathLib} {R : Runtime} {HM : MathLibOK M}.

(** Batch mode returns exactly when the loop body, run once on the whole
    audio from the initial state, returns with an encoder output of at
    least one frame; the tokens are the same. *)
Lemma batch_vs_chunk (report : bool) (pcm : list Z) (toks : list Z) :
  400 <= Z.of_nat (length pcm) ->
  batch_mode pcm = Ok toks <->
  exists w, process_chunk report pcm init_world = Ok w /\ emitted w = toks /\
            concat (map frames_out (enc_calls w)) <> [].
Proof.
  intros Hlen. unfold batch_mode, process_chunk.
  destruct (compute_features_total (map inject_Z pcm) REQUIRED_SAMPLE_RATE)
    as (features & -> & Hfeat);
    [reflexivity|discriminate|rewrite length_map; exact Hlen|].
  cbn [bind fst snd].
  assert (Hf : (if report then np_reduce features else Ok tt) = Ok tt).
  { destruct report; [|reflexivity].
    destruct features as [|x xs]; [|reflexivity].
    exfalso. cbn [length] in Hfeat. rewrite length_map in Hfeat.
    change (window_size_of REQUIRED_SAMPLE_RATE) with 400 in Hfeat.
    change (hop_size_of REQUIRED_SAMPLE_RATE) with 160 in Hfeat.
    assert (0 <= (Z.of_nat (length pcm) - 400) / 160) by (apply Z.div_pos; lia).
    unfold NUM_MEL_BINS in Hfeat. lia. }
  rewrite Hf. cbn [bind]. unfold np_reshape2.
  rewrite Hfeat, Z.eqb_refl. cbn [bind].
  change (dec init_world) with init_decoder.
  change (cache_channel init_world) with (last_channel zero_cache).
  change (cache_time init_world) with (last_time zero_cache).
  change (cache_channel_len init_world) with (valid_length zero_cache).
  set (o := enc_sess_run _ _ _ _ _).
  destruct (outputs o) as [|f fs] eqn:Eo.
  - cbn [np_reduce bind]. split; [discriminate|].
    intros (w & H & _ & Hne). exfalso. destruct report; [discriminate|].
    cbn [bind first_call_report] in H.
    change (decode_frames verify_streaming_call MAX_SYMBOLS_PER_STEP [] init_decoder [])
      with (Ok (init_decoder, @nil Z)) in H.
    cbn [bind] in H. injection H as <-.
    apply Hne. reflexivity.
  - cbn [np_reduce bind].
    destruct (decode_frames verify_streaming_call MAX_SYMBOLS_PER_STEP (f :: fs)
                            init_decoder []) as [r|e] eqn:Ed.
    + rewrite (decode_passes_first_report (f :: fs) init_decoder r Ed).
      assert (Hr : forall b : bool, (if b then Ok tt else Ok tt) = @Ok unit tt)
        by (intros []; reflexivity).
      rewrite !Hr. cbn [bind]. split.
      * intros [= <-]. eexists. split; [reflexivity|].
        cbn [emitted enc_calls init_world app map frames_out concat].
        split; [reflexivity|discriminate].
      * intros (w & [= <-] & Hem & _). cbn [emitted init_world app] in Hem.
        now rewrite Hem.
    + cbn [bind]. split; [discriminate|].
      intros (w & H & _). exfalso.
      destruct report; cbn [bind] in H;
        [destruct (first_call_report (f :: fs) init_decoder); cbn [bind] in H|];
        discriminate.
Qed.

End BatchProofs.

(** X12. On audio of exactly one chunk batch mode returns tokens exactly
    when the streaming pass does, and they are the same tokens: for 16000
    samples against the one-second pass; for 40000 samples against the
    2.5 s pass, provided the encoder gave that pass at least one frame
    (batch mode prints statistics of the encoder output, the 2.5 s pass
    does not). *)
Theorem batch_equals_single_chunk_stream {M : MathLib} {R : Runtime}
    (HM : MathLibOK M) (pcm : list Z) :
  (Z.of_nat (length pcm) = REQUIRED_SAMPLE_RATE ->
   forall toks,
     batch_mode pcm = Ok toks <->
     exists w, stream_1s pcm = Ok w /\ emitted w = toks) /\
  (Z.of_nat (length pcm) = 40000 ->
   forall toks,
     batch_mode pcm = Ok toks <->
     exists w, stream_2500ms pcm = Ok w /\ emitted w = toks /\
               concat (map frames_out (enc_calls w)) <> []).
Proof.
  split; intros Hlen toks.
  - unfold stream_1s. rewrite one_chunk_pass by (auto; reflexivity).
    rewrite (batch_vs_chunk true) by (rewrite Hlen; unfold REQUIRED_SAMPLE_RATE; lia).
    split.
    + intros (w & E & Hem & _). eauto.
    + intros (w & E & Hem). exists w. split; [exact E|]. split; [exact Hem|].
      apply process_chunk_reported in E as (call & -> & Hne).
      cbn [enc_calls init_world app map concat]. rewrite app_nil_r. exact Hne.
  - unfold stream_2500ms. rewrite one_chunk_pass by (auto; reflexivity).
    apply batch_vs_chunk. lia.
Qed.

Lemma batch_equals_single_chunk_stream_witness :
  let M := linear_math in
  let R := stub_runtime [0] once_after_blank in
  let pcm := repeat 7 (Z.to_nat 16000) in
  batch_mode pcm = Ok [5] <->
  exists w, stream_1s pcm = Ok w /\ emitted w = [5].
Proof.
  intros M R pcm.
  apply (proj1 (@batch_equals_single_chunk_stream M R linear_math_ok pcm)).
  unfold pcm. rewrite repeat_length. reflexivity.
Defined.

(** X13. Batch mode raises "audio too short" on audio shorter than one
    400-sample window.  On longer audio it returns its tokens, and the
    one-second pass completes on audio of any length (it pads), when the
    encoder returns at least one frame for every input and the decoder at
    least one logit for every call. *)
Theorem batch_mode_needs_one_window {M : MathLib} {R : Runtime} (pcm : list Z) :
  (Z.of_nat (length pcm) < 400 ->
   batch_mode pcm = Err (InsufficientAudio (Z.of_nat (length pcm)) 400)) /\
  (MathLibOK M -> RuntimeOK R -> EncoderOK R ->
   (400 <= Z.of_nat (length pcm) -> exists toks, batch_mode pcm = Ok toks) /\
   (exists w, stream_1s pcm = Ok w)).
Proof.
  split.
  - intros Hlen. unfold batch_mode, compute_features_rust_style.
    rewrite length_map.
    change (window_size_of REQUIRED_SAMPLE_RATE) with 400.
    destruct (Z.ltb_spec (Z.of_nat (length pcm)) 400); [reflexivity|lia].
  - intros HM HR HE. split; [|now apply stream_1s_total].
    intros Hlen.
    destruct (process_chunk_total true pcm init_world Hlen (fun _ => HE)) as (w & E).
    exists (emitted w). apply (batch_vs_chunk true pcm (emitted w) Hlen).
    exists w. split; [exact E|]. split; [reflexivity|].
    apply process_chunk_reported in E as (call & -> & Hne).
    cbn [enc_calls init_world app map concat]. rewrite app_nil_r. exact Hne.
Qed.

Lemma batch_mode_needs_one_window_witness :
  let M := linear_math in
  let R := stub_runtime [0] once_after_blank in
  batch_mode (repeat 7 100) = Err (InsufficientAudio 100 400) /\
  exists w, stream_1s (repeat 7 100) = Ok w.
Proof.
  intros M R.
  destruct (@batch_mode_needs_one_window M R (repeat 7 100)) as (Hshort & Hok).
  split.
  - apply Hshort. vm_compute. reflexivity.
  - exact (proj2 (Hok linear_math_ok (stub_runtime_ok _ _)
                      (stub_encoder_ok [0] _ ltac:(discriminate)))).
Defined.

(** ** How many chunks a pass processes *)

Section ChunkCount.

Context {M : MathLib} {R : Runtime}.

Lemma count_inv_init min_len cs pcm :
  0 < cs -> count_inv min_len cs pcm 0 init_world.
Proof.
  intros Hcs. split; [now apply fed_inv_init|].
  cbn [init_world fed enc_calls length]. repeat split; lia.
Qed.

Lemma count_inv_step report min_len cs pcm offset w w' :
  0 < cs -> 0 <= offset < Z.of_nat (length pcm) ->
  guard_hit min_len (Z.of_nat (length (raw_chunk cs pcm offset))) = false ->
  count_inv min_len cs pcm offset w ->
  process_chunk report (chunk_at cs pcm offset) w = Ok w' ->
  count_inv min_len cs pcm (offset + cs) w'.
Proof.
  intros Hcs Hoff Hg (Hfed & Hk & Hcalls & Hlt) Hp.
  split; [eapply fed_inv_step; eauto|].
  apply process_chunk_Ok in Hp as (f & nf & toks & _ & _ & Hec & _ & _ & Hf).
  rewrite Hec, Hf, !length_app. cbn [length]. repeat split; lia.
Qed.

Lemma count_inv_pass report min_len cs pcm w :
  0 < cs ->
  chunk_loop (S (length pcm)) report min_len cs pcm 0 init_world = Ok w ->
  exists offset, count_inv min_len cs pcm offset w /\
                 loop_exit min_len cs pcm offset.
Proof.
  intros Hcs E.
  eapply (chunk_loop_partial report min_len cs pcm Hcs)
    with (I := count_inv min_len cs pcm) in E.
  - destruct E as (offset & _ & Hinv & Hexit). eauto.
  - intros offset w0 w1 Hoff Hg Hi Hp. eapply count_inv_step; eauto.
  - lia.
  - now apply count_inv_init.
Qed.

End ChunkCount.

(** X14. The one-second pass makes one encoder call per started second of
    audio; the 2.5 s pass one per full 2.5 s, and one more if the rest
    holds at least 400 samples.  Every call is fed exactly one chunk. *)
Theorem encoder_calls_per_pass {M : MathLib} {R : Runtime} (pcm : list Z) (w : World) :
  let len := Z.of_nat (length pcm) in
  (stream_1s pcm = Ok w ->
   Z.of_nat (length (enc_calls w)) = (len + 15999) / 16000 /\
   length (fed w) = length (enc_calls w)) /\
  (stream_2500ms pcm = Ok w ->
   Z.of_nat (length (enc_calls w)) =
     len / 40000 + (if 400 <=? len mod 40000 then 1 else 0) /\
   length (fed w) = length (enc_calls w)).
Proof.
  intros len. split; intros E.
  - apply count_inv_pass in E as (offset & (Hfed & Hk & Hcalls & Hlt) & Hexit);
      [|reflexivity].
    split; [|now symmetry]. rewrite Hcalls.
    destruct Hexit as [Hend|(_ & Hg)]; [|discriminate].
    fold len in Hend, Hlt. unfold REQUIRED_SAMPLE_RATE in *.
    apply (Z.div_unique _ 16000 _ (len + 15999 - offset)); lia.
  - apply count_inv_pass in E as (offset & (Hfed & Hk & Hcalls & Hlt) & Hexit);
      [|reflexivity].
    split; [|now symmetry]. rewrite Hcalls.
    destruct Hfed as (_ & _ & _ & Hpast). fold len in Hpast, Hlt.
    set (k := Z.of_nat (length (fed w))) in *.
    assert (Hdm : forall q r, len = 40000 * q + r -> 0 <= r < 40000 ->
              k = q + (if 400 <=? r then 1 else 0) ->
              k = len / 40000 + (if 400 <=? len mod 40000 then 1 else 0)).
    { intros q r Hd Hr Hq.
      rewrite <- (Z.div_unique len 40000 q r) by lia.
      rewrite <- (Z.mod_unique len 40000 q r) by lia. exact Hq. }
    destruct Hexit as [Hend|(Hin & Hg)].
    + fold len in Hend. destruct (Z.eq_dec len offset) as [Heq|Hne].
      * apply (Hdm k 0); [lia|lia|]. cbn. lia.
      * specialize (Hpast 400 eq_refl ltac:(lia)).
        apply (Hdm (k - 1) (len - offset + 40000)); [lia|lia|].
        destruct (Z.leb_spec 400 (len - offset + 40000)); lia.
    + fold len in Hin. cbn [guard_hit] in Hg.
      rewrite raw_chunk_length in Hg by (fold len; lia).
      apply Z.ltb_lt in Hg. fold len in Hg.
      apply (Hdm k (len - offset)); [lia|lia|].
      destruct (Z.leb_spec 400 (len - offset)); lia.
Qed.

Lemma encoder_calls_per_pass_witness :
  let M := linear_math in
  let R := stub_runtime [0] once_after_blank in
  exists w,
    stream_1s (repeat 7 (Z.to_nat 20000)) = Ok w /\
    Z.of_nat (length (enc_calls w)) = 2 /\
    length (fed w) = length (enc_calls w).
Proof.
  intros M R.
  destruct (@stream_1s_total M R linear_math_ok (stub_runtime_ok _ _)
              (stub_encoder_ok [0] _ ltac:(discriminate))
              (repeat 7 (Z.to_nat 20000))) as (w & E).
  exists w. split; [exact E|].
  destruct (proj1 (@encoder_calls_per_pass M R _ w) E) as (Hn & Hf).
  split; [|exact Hf]. rewrite Hn, repeat_length. reflexivity.
Defined.

(** ** Pre-emphasis in closed form *)

Lemma py_range_nth (g : Z -> Q) (n : Z) (k : nat) :
  (k < Z.to_nat n)%nat ->
  nth k (map g (py_range n)) 0%Q = g (Z.of_nat k).
Proof.
  intros Hk. rewrite py_range_seq, map_map.
  rewrite (nth_indep _ 0%Q (g (Z.of_nat 0))) by (rewrite length_map, length_seq; lia).
  rewrite (map_nth (fun k => g (Z.of_nat k))).
  now rewrite seq_nth by lia.
Qed.

(** X15. Pre-emphasis in closed form: the first output sample is the
    first input sample scaled by 1/32768, every later one is the scaled
    input minus 0.97 times the scaled previous input.  Empty audio makes
    the first assignment raise IndexError. *)
Theorem preemphasis_closed_form (pcm : list Q) :
  preemphasis pcm =
  match pcm with
  | [] => Err IndexError
  | _ :: _ => Ok (map (emphasized pcm) (py_range (Z.of_nat (length pcm))))
  end.
Proof.
  destruct pcm as [|x0 rest]; [reflexivity|].
  set (pcm := x0 :: rest). set (n := Z.of_nat (length pcm)).
  assert (Hn : 1 <= n) by (unfold n, pcm; cbn [length]; lia).
  unfold preemphasis. fold n.
  rewrite np_zeros_ok by lia. cbn [bind].
  rewrite (py_index_ok pcm 0 0%Q) by (fold n; lia). cbn [bind].
  rewrite py_setitem_ok by (rewrite repeat_length; lia). cbn [bind].
  set (signal1 := set_nth (repeat 0%Q (Z.to_nat n)) (Z.to_nat 0) _).
  assert (Hl1 : length signal1 = Z.to_nat n)
    by (unfold signal1; now rewrite set_nth_length, repeat_length).
  rewrite (for_each_ext_in _ _
             (fun i signal => py_setitem signal i (emphasized pcm i))).
  2:{ intros i acc Hi. apply in_py_range2 in Hi.
      rewrite (py_index_ok pcm i 0%Q) by (fold n; lia). cbn [bind].
      rewrite (py_index_ok pcm (i - 1) 0%Q) by (fold n; lia). cbn [bind].
      unfold emphasized. destruct (Z.eqb_spec i 0); [lia|reflexivity]. }
  destruct (row_store_loop (emphasized pcm) (py_range2 1 n) signal1)
    as (row & -> & Hlen & Hout & Hin).
  { intros b Hb. apply in_py_range2 in Hb. lia. }
  f_equal. apply (nth_ext _ _ 0%Q 0%Q).
  - unfold py_range. rewrite length_map, py_range2_length. lia.
  - intros k Hk. rewrite py_range_nth by lia.
    rewrite <- (Nat2Z.id k) at 1.
    destruct (Nat.eq_dec k 0) as [->|Hk0].
    + rewrite Hout by ((intros Hx; apply in_py_range2 in Hx; lia) || lia).
      unfold signal1. rewrite nth_set_nth_eq by (rewrite repeat_length; lia).
      reflexivity.
    + apply Hin; [apply NoDup_py_range2|apply in_py_range2; lia].
Qed.

(** ** Rendering tokens as text *)

Lemma py_index_wrap {A} (xs : list A) (i : Z) (d : A) :
  - Z.of_nat (length xs) <= i < Z.of_nat (length xs) ->
  py_index xs i =
  Ok (nth (Z.to_nat (if i <? 0 then i + Z.of_nat (length xs) else i)) xs d).
Proof.
  intros H. unfold py_index.
  set (j := if i <? 0 then i + Z.of_nat (length xs) else i).
  assert (Hj : 0 <= j < Z.of_nat (length xs))
    by (unfold j; destruct (Z.ltb_spec i 0); lia).
  destruct (Z.leb_spec 0 j); [|lia].
  destruct (Z.ltb_spec j (Z.of_nat (length xs))); [|lia]. cbn [andb].
  destruct (nth_error xs (Z.to_nat j)) eqn:E.
  - now rewrite (nth_error_nth _ _ d E).
  - apply nth_error_None in E. lia.
Qed.

Lemma render_from (tokens : list (list Z)) (chunk_tokens : list Z) :
  forall acc,
    for_each chunk_tokens acc (fun tid chunk_text =>
      if tid <? Z.of_nat (length tokens) then
        piece <- py_index tokens tid ;;
        Ok (chunk_text ++ replace_char LOWER_ONE_EIGHTH_BLOCK SPACE piece)
      else Ok chunk_text) =
    bind (render_tokens tokens chunk_tokens) (fun t => Ok (acc ++ t)).
Proof.
  unfold render_tokens.
  induction chunk_tokens as [|tid rest IH]; intros acc; cbn [for_each bind].
  - now rewrite app_nil_r.
  - destruct (tid <? Z.of_nat (length tokens)).
    + destruct (py_index tokens tid) as [piece|e]; cbn [bind]; [|reflexivity].
      rewrite IH. rewrite (IH ([] ++ _)). cbn [app].
      destruct (for_each rest [] _) as [t|e]; cbn [bind]; [|reflexivity].
      now rewrite app_assoc.
    + cbn [bind]. apply IH.
Qed.

(** X16. Rendering distributes over concatenation of token lists: the
    text accumulated chunk by chunk in the streaming passes is the text of
    all emitted tokens rendered at once, as batch mode does. *)
Theorem render_tokens_app (tokens : list (list Z)) (xs ys : list Z) :
  render_tokens tokens (xs ++ ys) =
  (tx <- render_tokens tokens xs ;;
   ty <- render_tokens tokens ys ;;
   Ok (tx ++ ty)).
Proof.
  unfold render_tokens at 1. rewrite for_each_app.
  fold (render_tokens tokens xs).
  destruct (render_tokens tokens xs) as [tx|e]; cbn [bind]; [|reflexivity].
  apply render_from.
Qed.

Lemma replace_char_removes (old new : Z) (s : list Z) :
  old <> new -> ~ In old (replace_char old new s).
Proof.
  intros Hne Hin. unfold replace_char in Hin. apply in_map_iff in Hin.
  destruct Hin as (c & Hc & _). destruct (Z.eqb_spec c old); congruence.
Qed.

Lemma render_tokens_pieces (tokens : list (list Z)) (chunk_tokens : list Z) :
  Forall (fun tid => - Z.of_nat (length tokens) <= tid) chunk_tokens ->
  render_tokens tokens chunk_tokens =
    Ok (concat (map (piece_text tokens) chunk_tokens)).
Proof.
  intros Hall. induction Hall as [|tid rest Htid _ IH]; [reflexivity|].
  unfold render_tokens. cbn [for_each map concat]. unfold piece_text at 1.
  destruct (Z.ltb_spec tid (Z.of_nat (length tokens))) as [Hlt|Hge].
  - rewrite (py_index_wrap tokens tid []) by lia. cbn [bind].
    rewrite render_from, IH. reflexivity.
  - cbn [bind]. exact IH.
Qed.

(** X17. Rendering never raises on token ids that index the token table
    from either end (an id past the end is skipped, by the script's own
    test); the text is the pieces in order, with every word marker U+2581
    replaced by a space. *)
Theorem render_tokens_closed_form (tokens : list (list Z)) (chunk_tokens : list Z) :
  Forall (fun tid => - Z.of_nat (length tokens) <= tid) chunk_tokens ->
  render_tokens tokens chunk_tokens =
    Ok (concat (map (piece_text tokens) chunk_tokens)) /\
  ~ In LOWER_ONE_EIGHTH_BLOCK (concat (map (piece_text tokens) chunk_tokens)).
Proof.
  intros Hall. split; [now apply render_tokens_pieces|].
  intros Hin. apply in_concat in Hin as (piece & Hp & Hin).
  apply in_map_iff in Hp as (tid & <- & _).
  unfold piece_text in Hin.
  destruct (tid <? Z.of_nat (length tokens)); [|exact Hin].
  revert Hin. apply replace_char_removes. discriminate.
Qed.

Lemma render_tokens_closed_form_witness :
  render_tokens [[9601; 97]; [98]] [0; 1; 5; -1] = Ok [32; 97; 98; 98] /\
  ~ In LOWER_ONE_EIGHTH_BLOCK [32; 97; 98; 98].
Proof.
  apply (render_tokens_closed_form [[9601; 97]; [98]] [0; 1; 5; -1]).
  repeat constructor; vm_compute; discriminate.
Defined.

(** X22. The text loop cannot fail on what a streaming pass emits: the
    emitted ids are non-negative, so each is either looked up or skipped,
    whatever the size of the token table. *)
Theorem stream_text_is_renderable {M : MathLib} {R : Runtime}
    (tokens : list (list Z)) (pcm : list Z) (w : World) :
  stream_1s pcm = Ok w \/ stream_2500ms pcm = Ok w ->
  Forall (fun t => 0 <= t < BLANK_ID) (emitted w) /\
  render_tokens tokens (emitted w) =
    Ok (concat (map (piece_text tokens) (emitted w))).
Proof.
  intros H. apply stream_tokens_are_vocabulary in H as (Hall & _).
  split.
  - eapply Forall_impl; [|exact Hall]. cbv beta.
    unfold VOCAB_SIZE, BLANK_ID. intros t Ht. lia.
  - apply render_tokens_pieces.
    eapply Forall_impl; [|exact Hall]. cbv beta. intros t Ht. lia.
Qed.

Lemma stream_text_is_renderable_witness :
  let M := linear_math in
  let R := stub_runtime [0] once_after_blank in
  exists w,
    stream_1s (repeat 7 (Z.to_nat 20000)) = Ok w /\
    Forall (fun t => 0 <= t < BLANK_ID) (emitted w) /\
    render_tokens [[9601; 97]] (emitted w) =
      Ok (concat (map (piece_text [[9601; 97]]) (emitted w))).
Proof.
  intros M R.
  destruct (@stream_1s_total M R linear_math_ok (stub_runtime_ok _ _)
              (stub_encoder_ok [0] _ ltac:(discriminate))
              (repeat 7 (Z.to_nat 20000))) as (w & E).
  exists w. split; [exact E|].
  exact (@stream_text_is_renderable M R [[9601; 97]] _ w (or_introl E)).
Defined.

(** ** The filterbank between its first and last centre *)

(** Between the second and the last-but-one boundary of a nondecreasing
    list, the falling side of one band and the rising side of the next
    make up the whole weight. *)
Lemma bands_of_interior (p : list Z) b :
  StronglySorted Z.le p ->
  match p with
  | l :: c :: _ =>
      l <= b < nth (length p - 2) p 0 ->
      (fall l c b + bin_total (bands_of p) b == 1)%Q
  | _ => True
  end.
Proof.
  induction p as [|l p IH]; intros Hs; [exact I|].
  destruct p as [|c p']; [exact I|].
  apply StronglySorted_inv in Hs as (Hs & Hl).
  specialize (IH Hs).
  destruct p' as [|r rest].
  - cbn [length Nat.sub nth]. lia.
  - replace (length (l :: c :: r :: rest) - 2)%nat with (S (length rest))
      by (cbn [length]; lia).
    replace (length (c :: r :: rest) - 2)%nat with (length rest) in IH
      by (cbn [length]; lia).
    change (nth (S (length rest)) (l :: c :: r :: rest) 0)
      with (nth (length rest) (c :: r :: rest) 0).
    intros Hb.
    change (bands_of (l :: c :: r :: rest))
      with (triangle l c r :: bands_of (c :: r :: rest)).
    cbn [bin_total]. rewrite triangle_weight.
    destruct (Z.ltb_spec b c) as [Hbc|Hbc].
    + pose proof (rise_plus_fall l c b (conj (proj1 Hb) Hbc)) as E1.
      rewrite (fall_outside c r b) by lia.
      assert (E2 : (bin_total (bands_of (c :: r :: rest)) b == 0)%Q).
      { apply bands_of_below; [exact Hs|].
        apply StronglySorted_inv in Hs as (_ & Hc).
        intros x [<-|Hx]; [lia|].
        rewrite Forall_forall in Hc. specialize (Hc x Hx). lia. }
      lra.
    + rewrite (rise_outside l c b), (fall_outside l c b) in * by lia.
      specialize (IH (conj Hbc (proj2 Hb))). lra.
Qed.

Lemma bands_of_partition (p : list Z) b :
  StronglySorted Z.le p -> (2 <= length p)%nat ->
  nth 1 p 0 <= b < nth (length p - 2) p 0 ->
  (bin_total (bands_of p) b == 1)%Q.
Proof.
  intros Hs Hlen Hb.
  destruct p as [|p0 [|p1 [|r rest]]]; cbn [length] in Hlen; try lia.
  - cbn [length Nat.sub nth] in Hb.
    apply StronglySorted_inv in Hs as (_ & Hl). pose proof (Forall_inv Hl). lia.
  - replace (length (p0 :: p1 :: r :: rest) - 2)%nat with (S (length rest)) in Hb
      by (cbn [length]; lia).
    change (nth (S (length rest)) (p0 :: p1 :: r :: rest) 0)
      with (nth (length rest) (p1 :: r :: rest) 0) in Hb.
    change (nth 1 (p0 :: p1 :: r :: rest) 0) with p1 in Hb.
    apply StronglySorted_inv in Hs as (Hs & _).
    pose proof (bands_of_interior (p1 :: r :: rest) b Hs) as H.
    replace (length (p1 :: r :: rest) - 2)%nat with (length rest) in H
      by (cbn [length]; lia).
    specialize (H Hb).
    change (bands_of (p0 :: p1 :: r :: rest))
      with (triangle p0 p1 r :: bands_of (p1 :: r :: rest)).
    cbn [bin_total]. rewrite triangle_weight.
    rewrite (rise_outside p0 p1 b) by lia. lra.
Qed.

Section Ascending.

Context {M : MathLib} {HM : MathLibOK M}.

Lemma bin_points_ascending (sample_rate fft_size num_bins : Z) (lo hi : Q) :
  0 < sample_rate -> 0 <= fft_size -> 0 <= num_bins ->
  hz_to_mel 0 = Ok lo ->
  hz_to_mel (inject_Z sample_rate / 2)%Q = Ok hi ->
  StronglySorted Z.le (bin_points_of lo hi sample_rate fft_size num_bins).
Proof.
  intros Hsr Hfft Hn Elo Ehi.
  assert (Hq : (0 < inject_Z sample_rate)%Q)
    by (change 0%Q with (inject_Z 0); now rewrite <- Zlt_Qlt).
  assert (Hny : (0 < inject_Z sample_rate / 2)%Q)
    by (apply Qlt_shift_div_l; lra).
  rewrite hz_to_mel_ok in Elo by lra. injection Elo as <-.
  rewrite hz_to_mel_ok in Ehi by lra. injection Ehi as <-.
  assert (H1 : (0 <= (2595 * log10 (1 + inject_Z sample_rate / 2 / 700) -
                      2595 * log10 (1 + 0 / 700)) * / inject_Z (num_bins + 1))%Q).
  { apply Qmult_le_0_compat.
    - pose proof (mel_scale_ascends _ Hny). lra.
    - apply Qinv_le_0_compat. change 0%Q with (inject_Z 0). rewrite <- Zle_Qle. lia. }
  assert (H2 : (0 <= inject_Z fft_size * / inject_Z sample_rate)%Q).
  { apply Qmult_le_0_compat.
    - change 0%Q with (inject_Z 0). now rewrite <- Zle_Qle.
    - apply Qinv_le_0_compat. lra. }
  unfold bin_points_of, py_range.
  apply StronglySorted_map_range. intros i j _ Hij _.
  apply (proj1 (bin_of_step fft_size sample_rate _ _
           (proj1 (mel_point_step pow10_nondecreasing _ _ num_bins i j Hij) H1))).
  exact H2.
Qed.

End Ascending.

(** X18. Between the first and the last band centre the filterbank is a
    partition of unity: there the weights of every FFT bin, summed over all
    bands, are exactly 1.  The bin boundaries themselves never decrease. *)
Theorem filterbank_partition_of_unity {M : MathLib} (HM : MathLibOK M)
    (sample_rate fft_size num_bins : Z) :
  0 < sample_rate -> 0 <= fft_size -> 0 <= num_bins ->
  exists lo hi filters,
    hz_to_mel 0 = Ok lo /\
    hz_to_mel (inject_Z sample_rate / 2)%Q = Ok hi /\
    create_mel_filterbank sample_rate fft_size num_bins = Ok filters /\
    let p := bin_points_of lo hi sample_rate fft_size num_bins in
    filters = bands_of p /\
    StronglySorted Z.le p /\
    forall b, nth 1 p 0 <= b < nth (Z.to_nat num_bins) p 0 ->
              (bin_total filters b == 1)%Q.
Proof.
  intros Hsr Hfft Hn.
  destruct (create_mel_filterbank_total sample_rate fft_size num_bins Hsr Hn)
    as (lo & hi & Elo & Ehi & E).
  exists lo, hi, (bands_of (bin_points_of lo hi sample_rate fft_size num_bins)).
  split; [exact Elo|]. split; [exact Ehi|]. split; [exact E|].
  pose proof (bin_points_ascending sample_rate fft_size num_bins lo hi
                Hsr Hfft Hn Elo Ehi) as Hs.
  cbv zeta. split; [reflexivity|]. split; [exact Hs|].
  assert (Hlen : length (bin_points_of lo hi sample_rate fft_size num_bins)
                 = Z.to_nat (num_bins + 2)).
  { unfold bin_points_of, py_range. rewrite length_map, py_range2_length.
    f_equal. lia. }
  intros b Hb. apply bands_of_partition; [exact Hs|lia|].
  rewrite Hlen. replace (Z.to_nat (num_bins + 2) - 2)%nat with (Z.to_nat num_bins) by lia.
  exact Hb.
Qed.

Lemma filterbank_partition_of_unity_witness :
  let M := linear_math in
  exists lo hi filters,
    hz_to_mel 0 = Ok lo /\
    hz_to_mel (inject_Z 16000 / 2)%Q = Ok hi /\
    create_mel_filterbank 16000 16 3 = Ok filters /\
    let p := bin_points_of lo hi 16000 16 3 in
    filters = bands_of p /\
    StronglySorted Z.le p /\
    forall b, nth 1 p 0 <= b < nth (Z.to_nat 3) p 0 ->
              (bin_total filters b == 1)%Q.
Proof.
  intros M.
  apply (@filterbank_partition_of_unity M linear_math_ok 16000 16 3); lia.
Defined.

(** ** Degenerate sample rates *)

(** X20. Below 100 Hz the hop size [10 * sample_rate // 1000] is zero, and
    feature extraction on audio that passes the length test stops at the
    frame count with ZeroDivisionError. *)
Theorem zero_hop_divides_by_zero {M : MathLib} (pcm : list Q) (sample_rate : Z) :
  0 < sample_rate < 100 -> pcm <> [] ->
  window_size_of sample_rate <= Z.of_nat (length pcm) ->
  compute_features_rust_style pcm sample_rate = Err ZeroDivisionError.
Proof.
  intros Hsr Hne Hlen. unfold compute_features_rust_style.
  destruct (Z.ltb_spec (Z.of_nat (length pcm)) (window_size_of sample_rate)); [lia|].
  destruct (preemphasis_ok pcm Hne) as (signal & -> & _). cbn [bind].
  destruct (hann_window_ok (window_size_of sample_rate)) as (hann & -> & _).
  cbn [bind].
  destruct (create_mel_filterbank_total sample_rate FFT_SIZE NUM_MEL_BINS)
    as (lo & hi & _ & _ & ->); [lia|unfold NUM_MEL_BINS; lia|].
  cbn [bind].
  assert (E : hop_size_of sample_rate = 0).
  { unfold hop_size_of, HOP_SIZE_MS. apply Z.div_small. lia. }
  now rewrite E.
Qed.

Lemma zero_hop_divides_by_zero_witness :
  let M := linear_math in
  compute_features_rust_style [1; 2; 3]%Q 50 = Err ZeroDivisionError.
Proof.
  intros M. apply (@zero_hop_divides_by_zero M [1; 2; 3]%Q 50).
  - lia.
  - discriminate.
  - vm_compute. discriminate.
Defined.

(** X21. The chunk loop of [debug_features2.py] (TEST 2), whenever it
    completes, has handed one chunk of exactly 16000 samples to feature
    extraction per full second of audio, and one more (zero-padded) if the
    rest holds at least 400 samples; a shorter rest is left out.  It
    completes when the encoder returns at least one frame for every chunk
    and the decoder at least one logit for every call. *)
Theorem debug_streaming_chunk_law {M : MathLib} {R : Runtime} (audio : list Z) :
  let len := Z.of_nat (length audio) in
  (forall w, debug_streaming audio = Ok w ->
     Forall (fun c => Z.of_nat (length c) = 16000) (chunks_seen w) /\
     Z.of_nat (length (chunks_seen w)) =
       len / 16000 + (if 400 <=? len mod 16000 then 1 else 0)) /\
  (RuntimeOK R -> DebugEncoderOK R -> exists w, debug_streaming audio = Ok w).
Proof.
  intros len. split.
  - intros w E.
    destruct (debug_streaming_outcome audio w E) as (Hl & Hk & _).
    split; assumption.
  - intros HR HE. unfold debug_streaming. now apply debug_chunks_total.
Qed.

Lemma debug_streaming_chunk_law_witness :
  let M := linear_math in
  let R := stub_runtime [0] once_after_blank in
  exists w,
    debug_streaming (repeat 7 (Z.to_nat 20000)) = Ok w /\
    Forall (fun c => Z.of_nat (length c) = 16000) (chunks_seen w) /\
    Z.of_nat (length (chunks_seen w)) = 2.
Proof.
  intros M R.
  destruct (@debug_streaming_chunk_law M R (repeat 7 (Z.to_nat 20000)))
    as (Hlaw & Htotal).
  destruct (Htotal (stub_runtime_ok _ _)
                   (stub_debug_encoder_ok [0] _ ltac:(discriminate)))
    as (w & E).
  exists w. split; [exact E|].
  destruct (Hlaw w E) as (Hall & Hcount).
  split; [exact Hall|]. rewrite Hcount, repeat_length. reflexivity.
Defined.

(** ** When the decoder stops on a frame *)

(** [argmax_from] keeps the first maximum of what it has seen. *)
Lemma argmax_from_first_max (v : list Q) : forall (pre : list Q) best_i best,
  0 <= best_i < Z.of_nat (length pre) ->
  best = nth (Z.to_nat best_i) (pre ++ v) 0%Q ->
  (forall j, (j < length pre)%nat -> (nth j (pre ++ v) 0 <= best)%Q) ->
  (forall j, (j < Z.to_nat best_i)%nat -> (nth j (pre ++ v) 0 < best)%Q) ->
  let p := argmax_from best_i best (Z.of_nat (length pre)) v in
  0 <= p < Z.of_nat (length (pre ++ v)) /\
  (forall j, (j < length (pre ++ v))%nat ->
             (nth j (pre ++ v) 0 <= nth (Z.to_nat p) (pre ++ v) 0)%Q) /\
  (forall j, (j < Z.to_nat p)%nat ->
             (nth j (pre ++ v) 0 < nth (Z.to_nat p) (pre ++ v) 0)%Q).
Proof.
  induction v as [|x v IH]; intros pre best_i best Hi Hbest Hle Hlt.
  - cbn [argmax_from]. rewrite <- Hbest. rewrite app_nil_r in *.
    split; [lia|]. split; assumption.
  - cbn [argmax_from].
    assert (Hx : nth (length pre) (pre ++ x :: v) 0%Q = x)
      by (rewrite app_nth2 by lia; now rewrite Nat.sub_diag).
    assert (Happ : pre ++ x :: v = (pre ++ [x]) ++ v)
      by (now rewrite <- app_assoc).
    assert (Hlen : Z.of_nat (length pre) + 1 = Z.of_nat (length (pre ++ [x])))
      by (rewrite length_app; cbn [length]; lia).
    rewrite Hlen, Happ. unfold Qgtb.
    destruct (Qle_bool x best) eqn:E; cbn [negb].
    + apply Qle_bool_iff in E. apply IH.
      * rewrite length_app. cbn [length]. lia.
      * now rewrite <- Happ.
      * intros j Hj. rewrite <- Happ. rewrite length_app in Hj. cbn [length] in Hj.
        destruct (Nat.eq_dec j (length pre)) as [->|Hne];
          [now rewrite Hx|apply Hle; lia].
      * intros j Hj. rewrite <- Happ. now apply Hlt.
    + assert (Hgt : (best < x)%Q).
      { apply Qnot_le_lt. intros H. apply Qle_bool_iff in H. congruence. }
      apply IH.
      * rewrite length_app. cbn [length]. lia.
      * rewrite <- Happ, Nat2Z.id. now rewrite Hx.
      * intros j Hj. rewrite <- Happ. rewrite length_app in Hj. cbn [length] in Hj.
        destruct (Nat.eq_dec j (length pre)) as [->|Hne].
        -- rewrite Hx. apply Qle_refl.
        -- apply Qlt_le_weak. eapply Qle_lt_trans; [apply Hle; lia|exact Hgt].
      * intros j Hj. rewrite Nat2Z.id in Hj. rewrite <- Happ.
        eapply Qle_lt_trans; [apply Hle; lia|exact Hgt].
Qed.

Lemma np_argmax_first_max (v : list Q) (p : Z) :
  np_argmax v = Ok p ->
  0 <= p < Z.of_nat (length v) /\
  (forall j, (j < length v)%nat -> (nth j v 0 <= nth (Z.to_nat p) v 0)%Q) /\
  (forall j, (j < Z.to_nat p)%nat -> (nth j v 0 < nth (Z.to_nat p) v 0)%Q).
Proof.
  destruct v as [|x v]; [discriminate|]. cbn [np_argmax]. intros [= <-].
  apply (argmax_from_first_max v [x] 0 x).
  - cbn [length]. lia.
  - reflexivity.
  - intros [|j] Hj; [apply Qle_refl|cbn [length] in Hj; lia].
  - intros j Hj. cbn in Hj. lia.
Qed.

Lemma nth_firstn_lt {A} (d : A) : forall (xs : list A) (k j : nat),
  (j < k)%nat -> nth j (firstn k xs) d = nth j xs d.
Proof.
  induction xs as [|x xs IH]; intros [|k] [|j] H; cbn [firstn nth];
    try reflexivity; try lia.
  apply IH. lia.
Qed.

Lemma nth_py_slice_prefix (xs : list Q) (n : Z) (j : nat) :
  0 <= n -> (j < length (py_slice xs 0 n))%nat ->
  nth j (py_slice xs 0 n) 0%Q = nth j xs 0%Q /\ (j < length xs)%nat.
Proof.
  intros Hn. unfold py_slice, clip_bound. change (0 <? 0) with false. cbv iota.
  destruct (Z.ltb_spec n 0); [lia|].
  replace (Z.min 0 (Z.of_nat (length xs))) with 0 by lia.
  cbn [Z.to_nat skipn]. rewrite Z.sub_0_r, length_firstn. intros Hj.
  split; [|lia]. apply nth_firstn_lt. lia.
Qed.

(** X23. The decoder leaves a frame only on a strict win of the blank:
    when a step ends with [break], the blank logit (index 1024) is strictly
    greater than the logit of every token, so on a tie the token is
    emitted; when a token is emitted, no logit among the first 1025 exceeds
    its own. *)
Theorem blank_needs_strict_maximum {R : Runtime} (run : DecoderCall)
    (enc_frame : Frame) (st st' : DecoderState) (tokens tokens' : list Z)
    (fl : flow) :
  sym_step run enc_frame st tokens = Ok (fl, st', tokens') ->
  let lg := logits (run enc_frame (last_token st) (state1 st) (state2 st)) in
  (fl = Break ->
   forall j, 0 <= j < BLANK_ID ->
     (nth (Z.to_nat j) lg 0 < nth (Z.to_nat BLANK_ID) lg 0)%Q) /\
  (fl = Next ->
   exists p, tokens' = tokens ++ [p] /\ 0 <= p < BLANK_ID /\
     forall j, 0 <= j < VOCAB_SIZE -> j < Z.of_nat (length lg) ->
       (nth (Z.to_nat j) lg 0 <= nth (Z.to_nat p) lg 0)%Q).
Proof.
  intros H lg.
  apply sym_step_cases in H as [(Ep & [= -> -> ->])|(p & Ep & Hp & [= -> -> ->])].
  - split; [|discriminate]. intros _ j Hj.
    unfold prediction in Ep. fold lg in Ep.
    apply np_argmax_first_max in Ep as (Hr & _ & Hlt).
    specialize (Hlt (Z.to_nat j) ltac:(lia)).
    destruct (nth_py_slice_prefix lg VOCAB_SIZE (Z.to_nat j)) as (E1 & _);
      [unfold VOCAB_SIZE; lia|lia|].
    destruct (nth_py_slice_prefix lg VOCAB_SIZE (Z.to_nat BLANK_ID)) as (E2 & _);
      [unfold VOCAB_SIZE; lia|lia|].
    now rewrite E1, E2 in Hlt.
  - split; [discriminate|]. intros _. exists p. split; [reflexivity|].
    pose proof (prediction_range run _ _ _ Ep) as Hrange.
    split; [unfold VOCAB_SIZE, BLANK_ID in *; lia|].
    unfold prediction in Ep. fold lg in Ep.
    apply np_argmax_first_max in Ep as (Hr & Hle & _).
    intros j Hj Hjl.
    assert (Hjs : (Z.to_nat j < length (py_slice lg 0 VOCAB_SIZE))%nat).
    { rewrite py_slice_clip by (unfold VOCAB_SIZE; lia).
      rewrite py_slice_length by lia. lia. }
    specialize (Hle (Z.to_nat j) Hjs).
    destruct (nth_py_slice_prefix lg VOCAB_SIZE (Z.to_nat j)) as (E1 & _);
      [unfold VOCAB_SIZE; lia|exact Hjs|].
    destruct (nth_py_slice_prefix lg VOCAB_SIZE (Z.to_nat p)) as (E2 & _);
      [unfold VOCAB_SIZE; lia|lia|].
    now rewrite E1, E2 in Hle.
Qed.

Lemma blank_needs_strict_maximum_witness :
  let R := stub_runtime [0] always_blank in
  (nth (Z.to_nat 7) (one_hot BLANK_ID) 0 <
   nth (Z.to_nat BLANK_ID) (one_hot BLANK_ID) 0)%Q.
Proof.
  intros R.
  apply (proj1 (@blank_needs_strict_maximum R verify_streaming_call 0
                  init_decoder init_decoder [] [] Break eq_refl) eq_refl 7).
  unfold BLANK_ID. lia.
Defined.
